(** * The command execution subsystem of the Virtuoso API facade

    A shallow embedding of [api/app/services/cli_executor.py]: the command
    parser, the validator, the argument builder, the process runner
    (synchronous and batch), the output parser and the error mapper,
    followed by the properties the specification states about them.

    Conventions of the embedding:
    - a Python [str] is a Rocq [string]; a character is a code point
      below 256, so the character predicates are Python's restricted to
      that range;
    - a Python [int] is a [Z]; [Optional[T]] is [option T];
    - a Python [float] is kept abstract (class [PyFloat]): timeouts,
      durations and JSON numbers with a fraction are never computed with;
    - a [dict] is a [gmap] when only lookups matter (the environment, the
      exit-code table) and an association list in insertion order when the
      order is observable (JSON objects);
    - code that can raise returns a [res]; code that also talks to the
      operating system runs in the monad [M], which records the calls made
      on the subprocess. *)

From Stdlib Require Import ZArith List Bool Ascii String DecimalString Lia.
From Stdlib Require Import DecimalFacts DecimalPos DecimalZ.
From stdpp Require Import base option list gmap strings.

Set Warnings "-register-all".

Local Open Scope string_scope.
Local Open Scope Z_scope.

(** ** Python strings *)

Module PyStr.

Definition code (c : ascii) : N := N_of_ascii c.

(** [str.isspace] on one character: TAB..CR, FS..US, space, NEL, NBSP. *)
Definition isspace (c : ascii) : bool :=
  let n := code c in
  ((9 <=? n) && (n <=? 13) || (28 <=? n) && (n <=? 32)
   || (n =? 133) || (n =? 160))%N.

(** The decimal digit test of [str.isdigit] on one character: '0'..'9'
    and the superscripts one, two and three. *)
Definition isdigit_char (c : ascii) : bool :=
  let n := code c in
  ((48 <=? n) && (n <=? 57) || (n =? 178) || (n =? 179) || (n =? 185))%N.

(** [s.isdigit()]: every character is a digit and there is at least one. *)
Definition isdigit (s : string) : bool :=
  negb (String.eqb s "") && forallb isdigit_char (list_ascii_of_string s).

Fixpoint lstrip (s : string) : string :=
  match s with
  | String c s' => if isspace c then lstrip s' else s
  | EmptyString => EmptyString
  end.

Fixpoint rstrip (s : string) : string :=
  match s with
  | String c s' =>
      match rstrip s' with
      | EmptyString => if isspace c then EmptyString else String c EmptyString
      | r => String c r
      end
  | EmptyString => EmptyString
  end.

(** [s.strip()] *)
Definition strip (s : string) : string := rstrip (lstrip s).

(** [s.startswith(p)] *)
Definition startswith (s p : string) : bool := String.prefix p s.

(** [s[n:]] *)
Fixpoint drop (n : nat) (s : string) : string :=
  match n, s with
  | O, _ => s
  | S n', String _ s' => drop n' s'
  | S _, EmptyString => EmptyString
  end.

(** [sub in s] *)
Fixpoint contains (sub s : string) : bool :=
  String.prefix sub s ||
  match s with
  | String _ s' => contains sub s'
  | EmptyString => false
  end.

(** [c in chars] for a single character [c] *)
Definition char_in (c : ascii) (chars : string) : bool :=
  existsb (Ascii.eqb c) (list_ascii_of_string chars).

(** [sep.join(parts)] *)
Definition join (sep : string) (parts : list string) : string :=
  String.concat sep parts.

(** [str(n)] for an [int] *)
Definition of_int (n : Z) : string := NilZero.string_of_int (Z.to_int n).

(** Truthiness of an [Optional[str]]: [None] and [""] are false. *)
Definition truthy (o : option string) : bool :=
  match o with
  | Some s => negb (String.eqb s "")
  | None => false
  end.

End PyStr.

Example strip_ex : PyStr.strip "  api-cli x  " = "api-cli x".
Proof. reflexivity. Qed.

Example of_int_ex : (PyStr.of_int 42, PyStr.of_int (-1), PyStr.of_int 0) = ("42", "-1", "0").
Proof. reflexivity. Qed.

Example isdigit_ex : (PyStr.isdigit "12345", PyStr.isdigit "", PyStr.isdigit "12a") = (true, false, false).
Proof. reflexivity. Qed.

(** The double quote character, as a one-character string. *)
Definition dq : string := String "034" "".

(** ** Exceptions and fallible results *)

(** The exception classes the executor distinguishes in its [except]
    clauses.  Every class here derives from [Exception]. *)
Inductive exc_class : Type :=
  | CommandValidationError
  | CommandTimeoutError
  | FutureTimeoutError              (* concurrent.futures.TimeoutError *)
  | StdError (name : string).       (* any other library exception *)

(** An exception object: its class and [str(e)]. *)
Record exn : Type := mk_exn { exc_type : exc_class; exc_str : string }.

Global Instance exc_class_eq_dec : EqDecision exc_class.
Proof. solve_decision. Defined.

Definition ValueError (msg : string) : exn := mk_exn (StdError "ValueError") msg.

Inductive res (A : Type) : Type :=
  | Ret (a : A)
  | Raise (e : exn).
Arguments Ret {A} a.
Arguments Raise {A} e.

Global Instance res_ret : MRet res := λ A a, Ret a.
Global Instance res_bind : MBind res := λ A B k m,
  match m with
  | Ret a => k a
  | Raise e => Raise e
  end.

Definition returns {A} (m : res A) : Prop := ∃ a, m = Ret a.
Definition raises {A} (m : res A) (c : exc_class) : Prop :=
  ∃ msg, m = Raise (mk_exn c msg).

(** ** [shlex.split], POSIX mode

    [shlex.split(s)] builds a lexer with [posix=True],
    [whitespace_split=True], no comment characters and no punctuation
    characters, and collects its tokens. *)

Module shlex.

(** The lexer's [state] attribute: [None] past the end of the input,
    [' '] between tokens, ['a'] inside a word, a quote character
    inside quotes, the escape character after a backslash. *)
Inductive lex_state : Type :=
  | Eof
  | Space
  | Word
  | InQuote (q : ascii)
  | InEscape.

Definition whitespace : string :=
  String " " (String "009" (String "013" (String "010" ""))).
Definition quotes : string := String "'" (String "034" "").
Definition escape : string := "\".
Definition escapedquotes : string := String "034" "".

Definition wordchars (c : ascii) : bool :=
  let n := PyStr.code c in
  ((97 <=? n) && (n <=? 122) || (65 <=? n) && (n <=? 90)
   || (48 <=? n) && (n <=? 57) || (n =? 95)
   || (192 <=? n) && negb (n =? 215) && negb (n =? 247))%N.

Definition push (token : string) (c : ascii) : string :=
  token ++ String c "".

(** What one run of the loop of [read_token] leaves behind. *)
Record scanned : Type := mk_scanned {
  sc_token : string;
  sc_quoted : bool;
  sc_state : lex_state;
  sc_rest : string
}.

(** The [while True] loop of [read_token]; [instream] is what has not
    been read yet, and reading at its end yields the empty string.
    [split] empties [commenters] and leaves [punctuation_chars] empty,
    so the branches testing them never run and are left out. *)
Fixpoint read_loop (state : lex_state) (token : string) (quoted : bool)
    (escapedstate : lex_state) (instream : string) : res scanned :=
  match instream with
  | EmptyString =>
      match state with
      | Eof => Ret (mk_scanned "" quoted Eof "")
      | Space => Ret (mk_scanned token quoted Eof "")
      | InQuote _ => Raise (ValueError "No closing quotation")
      | InEscape => Raise (ValueError "No escaped character")
      | Word => Ret (mk_scanned token quoted Eof "")
      end
  | String nextchar rest =>
      match state with
      | Eof => Ret (mk_scanned "" quoted Eof rest)
      | Space =>
          if PyStr.char_in nextchar whitespace then
            if negb (String.eqb token "") || quoted
            then Ret (mk_scanned token quoted Space rest)
            else read_loop Space token quoted escapedstate rest
          else if PyStr.char_in nextchar escape then
            read_loop InEscape token quoted Word rest
          else if wordchars nextchar then
            read_loop Word (String nextchar "") quoted escapedstate rest
          else if PyStr.char_in nextchar quotes then
            read_loop (InQuote nextchar) token quoted escapedstate rest
          else
            read_loop Word (String nextchar "") quoted escapedstate rest
      | InQuote q =>
          if Ascii.eqb nextchar q then
            read_loop Word token true escapedstate rest
          else if PyStr.char_in nextchar escape && PyStr.char_in q escapedquotes then
            read_loop InEscape token true (InQuote q) rest
          else
            read_loop (InQuote q) (push token nextchar) true escapedstate rest
      | InEscape =>
          let token :=
            match escapedstate with
            | InQuote q =>
                if negb (PyStr.char_in nextchar escape) && negb (Ascii.eqb nextchar q)
                then token ++ escape
                else token
            | _ => token
            end in
          read_loop escapedstate (push token nextchar) quoted escapedstate rest
      | Word =>
          if PyStr.char_in nextchar whitespace then
            if negb (String.eqb token "") || quoted
            then Ret (mk_scanned token quoted Space rest)
            else read_loop Space token quoted escapedstate rest
          else if PyStr.char_in nextchar quotes then
            read_loop (InQuote nextchar) token quoted escapedstate rest
          else if PyStr.char_in nextchar escape then
            read_loop InEscape token quoted Word rest
          else
            read_loop Word (push token nextchar) quoted escapedstate rest
      end
  end.

(** The lexer between two calls of [read_token]: [self.token] is empty
    then, so the unread input and [self.state] are all that persists. *)
Record lexer : Type := mk_lexer { instream : string; state : lex_state }.

(** [read_token]: [None] is the end-of-input marker of POSIX mode. *)
Definition read_token (lx : lexer) : res (option string * lexer) :=
  sc ← read_loop (state lx) "" false Space (instream lx);
  let result :=
    if negb (sc_quoted sc) && String.eqb (sc_token sc) ""
    then None else Some (sc_token sc) in
  Ret (result, mk_lexer (sc_rest sc) (sc_state sc)).

(** [list(lex)]: [__next__] until it meets the end-of-input marker.
    [None] means the bound on the number of tokens was too small. *)
Fixpoint collect (fuel : nat) (lx : lexer) : option (res (list string)) :=
  match fuel with
  | O => None
  | S fuel' =>
      match read_token lx with
      | Raise e => Some (Raise e)
      | Ret (None, _) => Some (Ret [])
      | Ret (Some token, lx') =>
          match collect fuel' lx' with
          | Some (Ret tokens) => Some (Ret (token :: tokens))
          | other => other
          end
      end
  end.

(** A lexer yields at most one token per character read, plus one at
    the end of the input. *)
Definition bound (lx : lexer) : nat :=
  String.length (instream lx)
  + match state lx with Eof => 0 | _ => 1 end.

Definition split (s : string) : res (list string) :=
  let lx := mk_lexer s Space in
  match collect (S (bound lx)) lx with
  | Some r => r
  | None => Ret []
  end.

End shlex.

Example split_ex1 :
  shlex.split ("step-navigate to 12345 " ++ dq ++ "https://example.com" ++ dq)
  = Ret ["step-navigate"; "to"; "12345"; "https://example.com"].
Proof. reflexivity. Qed.

Example split_ex2 : shlex.split ("a " ++ dq ++ dq ++ " b") = Ret ["a"; ""; "b"].
Proof. reflexivity. Qed.

Example split_ex3 : shlex.split ("a\ b 'c d'" ++ dq ++ "e" ++ dq) = Ret ["a b"; "c de"].
Proof. reflexivity. Qed.

Example split_ex4 :
  shlex.split (dq ++ "a\qb\" ++ dq ++ dq) = Ret ["a\qb" ++ dq].
Proof. reflexivity. Qed.

Example split_ex5 : shlex.split "a\" = Raise (ValueError "No escaped character").
Proof. reflexivity. Qed.

Example split_ex6 :
  shlex.split ("step-assert equals " ++ dq ++ "h1" ++ dq ++ " " ++ dq
               ++ "Welcome to " ++ dq ++ "My Site" ++ dq ++ dq)
  = Ret ["step-assert"; "equals"; "h1"; "Welcome to My"; "Site"].
Proof. reflexivity. Qed.

(** *** The token bound of [shlex.split] is never reached *)

Section shlex_fuel.
Import shlex.

Lemma read_loop_bound instream : ∀ state token quoted escapedstate sc,
  read_loop state token quoted escapedstate instream = Ret sc →
  (bound (mk_lexer (sc_rest sc) (sc_state sc)) ≤ String.length instream)%nat.
Proof.
  induction instream as [|c rest IH]; intros st tok q esc sc H.
  - destruct st; simplify_eq/=; done.
  - assert (Hstep : ∀ st' tok' q' esc',
              read_loop st' tok' q' esc' rest = Ret sc →
              (bound (mk_lexer (sc_rest sc) (sc_state sc))
               ≤ String.length (String c rest))%nat).
    { intros ???? Hr. apply IH in Hr. simpl. lia. }
    assert (Hbrk : (bound (mk_lexer rest Space)
                    ≤ String.length (String c rest))%nat).
    { unfold bound. simpl. lia. }
    destruct st; simpl in H.
    + simplify_eq. unfold bound. simpl. lia.
    + repeat (case_match; simplify_eq/=; eauto).
    + repeat (case_match; simplify_eq/=; eauto).
    + repeat (case_match; simplify_eq/=; eauto).
    + eauto.
Qed.

Lemma read_token_eof rest : read_token (mk_lexer rest Eof) = Ret (None, mk_lexer (match rest with String _ r => r | _ => "" end) Eof).
Proof. destruct rest; reflexivity. Qed.

Lemma read_token_bound lx token lx' :
  read_token lx = Ret (Some token, lx') → (bound lx' < bound lx)%nat.
Proof.
  destruct lx as [s st]. unfold read_token. simpl.
  destruct (read_loop st "" false Space s) as [sc|] eqn:Hl; simpl; [|done].
  intros H. injection H as Hres <-.
  destruct st.
  - destruct s; simpl in Hl; simplify_eq/=.
  - apply read_loop_bound in Hl. unfold bound at 2. simpl. lia.
  - apply read_loop_bound in Hl. unfold bound at 2. simpl. lia.
  - apply read_loop_bound in Hl. unfold bound at 2. simpl. lia.
  - apply read_loop_bound in Hl. unfold bound at 2. simpl. lia.
Qed.

Lemma collect_enough fuel : ∀ lx,
  (bound lx < fuel)%nat → collect fuel lx ≠ None.
Proof.
  induction fuel as [|fuel IH]; intros lx Hb; [lia|].
  simpl. destruct (read_token lx) as [[[token|] lx']|] eqn:Hr; try done.
  apply read_token_bound in Hr.
  specialize (IH lx' ltac:(lia)).
  destruct (collect fuel lx') as [[]|]; done.
Qed.

(** [split] is what [collect] computes: the fallback of its definition
    is dead code. *)
Lemma split_collect s :
  collect (S (bound (mk_lexer s Space))) (mk_lexer s Space) = Some (split s).
Proof.
  unfold split.
  destruct (collect _ _) eqn:H; [done|].
  apply collect_enough in H; [done | lia].
Qed.

Lemma read_loop_raise instream : ∀ state token quoted escapedstate e,
  read_loop state token quoted escapedstate instream = Raise e →
  exc_type e = StdError "ValueError".
Proof.
  induction instream as [|c rest IH]; intros st tok q esc e Hr.
  - destruct st; simplify_eq/=; done.
  - destruct st; simpl in Hr; repeat case_match; simplify_eq/=; eauto.
Qed.

Lemma collect_raise fuel : ∀ lx e,
  collect fuel lx = Some (Raise e) → exc_type e = StdError "ValueError".
Proof.
  induction fuel as [|fuel IH]; intros lx e Hc; [done|].
  simpl in Hc. unfold read_token in Hc.
  destruct (read_loop _ _ _ _ _) as [sc|e'] eqn:Hl; simpl in Hc.
  - destruct (negb (sc_quoted sc) && String.eqb (sc_token sc) ""); [done|].
    destruct (collect fuel _) as [[]|] eqn:Hrec; simplify_eq/=. eauto.
  - simplify_eq. by eapply read_loop_raise.
Qed.

(** [shlex.split] raises nothing but a [ValueError]. *)
Lemma split_raise s e :
  split s = Raise e → exc_type e = StdError "ValueError".
Proof.
  intros Hs. pose proof (split_collect s) as Hc. rewrite Hs in Hc.
  by eapply collect_raise.
Qed.

End shlex_fuel.

(** ** Python values *)

(** Python's [float], kept abstract: the executor stores, formats and
    subtracts floats and tests them for zero, the json module parses and
    prints them. *)
Class PyFloat : Type := {
  float : Type;
  float_of_str : string → float;          (* float(s) *)
  float_repr : float → string;            (* repr(x), also str(x) *)
  float_eqb : float → float → bool;       (* x == y *)
  float_sub : float → float → float       (* x - y *)
}.

(** The text of a Python value: a Unicode string, as the list of its code
    points.  The strings the executor handles itself (command lines, the
    output of the subprocess) are kept to code points below 256 and
    embedded by [ustr_of_string]. *)
Definition ustr : Type := list N.

Definition ustr_of_string (s : string) : ustr :=
  map N_of_ascii (list_ascii_of_string s).

Section values.
Context `{PyFloat}.

(** Truthiness of a float: [x != 0.0]. *)
Definition float_truthy (x : float) : bool :=
  negb (float_eqb x (float_of_str "0.0")).

(** The hashable scalars that serve as dictionary keys. *)
Inductive pykey : Type :=
  | KNone
  | KBool (b : bool)
  | KInt (n : Z)
  | KFloat (x : float)
  | KStr (s : ustr).

(** The values the decoders produce and the encoder accepts; a
    dictionary lists its items in insertion order. *)
Inductive pyval : Type :=
  | PNone
  | PBool (b : bool)
  | PInt (n : Z)
  | PFloat (x : float)
  | PStr (s : ustr)
  | PList (items : list pyval)
  | PDict (items : list (pykey * pyval)).

End values.

(** ** The [json] library

    [json.dumps] and [json.loads] with their default arguments, on the
    values above, as the C encoder and scanner of CPython compute them.
    Texts are ASCII on the way out ([ensure_ascii]) and are read as they
    come on the way in.  The model leaves out the position that a
    [JSONDecodeError] appends to its message, and memory is taken not to
    run out. *)

(** The limits the interpreter sets to the library.  [encoder_depth] and
    [decoder_depth] tell how many containers, one inside the other, the
    encoder and the scanner may enter before [Py_EnterRecursiveCall]
    fails: what is left of the recursion limit where [json.dumps] and
    where [json.loads] is called.  [int_max_str_digits] is
    [sys.get_int_max_str_digits()], 0 when the limit is off. *)
Class Interpreter : Type := {
  encoder_depth : nat;
  decoder_depth : nat;
  int_max_str_digits : N
}.

Module JSON.
Section json.
Context `{PyFloat} `{Interpreter}.

(** The backslash, as a one-character string. *)
Definition bs : string := String "092" "".

(** *** The encoder *)

Definition hex_digit (d : N) : ascii :=
ascii_of_N (if (d <? 10)%N then 48 + d else 87 + d)%N.

(** ['{0:04x}'.format(n)] for [n] below 65536 *)
Definition hex4 (n : N) : string :=
String (hex_digit (n / 4096 mod 16)%N)
  (String (hex_digit (n / 256 mod 16)%N)
     (String (hex_digit (n / 16 mod 16)%N)
        (String (hex_digit (n mod 16)%N) ""))).

(** The replacement of one code point by [py_encode_basestring_ascii]:
  the quote, the backslash and everything outside the printable ASCII
  range are escaped. *)
Definition escape_char (n : N) : string :=
if (n =? 34)%N then bs ++ dq
else if (n =? 92)%N then bs ++ bs
else if (n =? 10)%N then bs ++ "n"
else if (n =? 13)%N then bs ++ "r"
else if (n =? 9)%N then bs ++ "t"
else if (n =? 12)%N then bs ++ "f"
else if (n =? 8)%N then bs ++ "b"
else if ((32 <=? n) && (n <=? 126))%N then String (ascii_of_N n) ""
else if (n <? 65536)%N then bs ++ "u" ++ hex4 n
else
  let m := (n - 65536)%N in
  bs ++ "u" ++ hex4 (N.lor 55296 (N.land (N.shiftr m 10) 1023))
  ++ bs ++ "u" ++ hex4 (N.lor 56320 (N.land m 1023)).

Fixpoint escape_chars (s : ustr) : string :=
match s with
| [] => ""
| n :: s' => escape_char n ++ escape_chars s'
end.

Definition encode_basestring_ascii (s : ustr) : string :=
dq ++ escape_chars s ++ dq.

(** [floatstr] with [allow_nan] *)
Definition floatstr (x : float) : string :=
if negb (float_eqb x x) then "NaN"
else if float_eqb x (float_of_str "inf") then "Infinity"
else if float_eqb x (float_of_str "-inf") then "-Infinity"
else float_repr x.

Definition RecursionError (context : string) : exn :=
mk_exn (StdError "RecursionError") ("maximum recursion depth exceeded" ++ context).

(** The number of digits of a written integer: its length without the
  sign. *)
Definition int_digits (text : string) : N :=
match text with
| String c r =>
    if Ascii.eqb c "-" then N.of_nat (String.length r)
    else N.of_nat (String.length text)
| EmptyString => 0
end.

Definition limit_exceeded : string :=
"Exceeds the limit (" ++ PyStr.of_int (Z.of_N int_max_str_digits)
++ " digits) for integer string conversion".

(** [repr(n)] for an [int]: a text of more than 640 characters is
  refused when it has more digits than the limit. *)
Definition int_repr (n : Z) : res string :=
let text := PyStr.of_int n in
if (640 <? N.of_nat (String.length text))%N && (0 <? int_max_str_digits)%N
   && (int_max_str_digits <? int_digits text)%N
then Raise (ValueError
              (limit_exceeded
               ++ "; use sys.set_int_max_str_digits() to increase the limit"))
else Ret text.

(** The text a dictionary key is written as. *)
Definition key_text (k : pykey) : res ustr :=
match k with
| KStr s => Ret s
| KFloat x => Ret (ustr_of_string (floatstr x))
| KBool true => Ret (ustr_of_string "true")
| KBool false => Ret (ustr_of_string "false")
| KNone => Ret (ustr_of_string "null")
| KInt n => text ← int_repr n; Ret (ustr_of_string text)
end.

(** [encoder_listencode_obj]; [depth] is the number of containers the
  encoder may still enter.  The first error met ends the encoding. *)
Fixpoint encode (depth : nat) (o : pyval) {struct o} : res string :=
match o with
| PNone => Ret "null"
| PBool true => Ret "true"
| PBool false => Ret "false"
| PStr s => Ret (encode_basestring_ascii s)
| PInt n => int_repr n
| PFloat x => Ret (floatstr x)
| PList items =>
    match depth with
    | O => Raise (RecursionError " while encoding a JSON object")
    | S depth =>
        match items with
        | [] => Ret "[]"
        | _ =>
            texts ← mapM (encode depth) items;
            Ret ("[" ++ PyStr.join ", " texts ++ "]")
        end
    end
| PDict items =>
    match depth with
    | O => Raise (RecursionError " while encoding a JSON object")
    | S depth =>
        match items with
        | [] => Ret "{}"
        | _ =>
            texts ← mapM (λ kv, key ← key_text kv.1;
                                 value ← encode depth kv.2;
                                 Ret (encode_basestring_ascii key
                                      ++ ": " ++ value)) items;
            Ret ("{" ++ PyStr.join ", " texts ++ "}")
        end
    end
end.

(** [json.dumps(o)] *)
Definition dumps (o : pyval) : res string := encode encoder_depth o.

(** *** The decoder *)

Definition JSONDecodeError (msg : string) : exn :=
mk_exn (StdError "JSONDecodeError") msg.

Definition WHITESPACE_STR : string :=
String " " (String "009" (String "010" (String "013" ""))).

(** [WHITESPACE.match(s, end).end()], on what is left of the text *)
Fixpoint skip_ws (s : string) : string :=
match s with
| String c s' => if PyStr.char_in c WHITESPACE_STR then skip_ws s' else s
| EmptyString => EmptyString
end.

Definition hex_value (c : ascii) : option N :=
let n := N_of_ascii c in
if ((48 <=? n) && (n <=? 57))%N then Some (n - 48)%N
else if ((97 <=? n) && (n <=? 102))%N then Some (n - 87)%N
else if ((65 <=? n) && (n <=? 70))%N then Some (n - 55)%N
else None.

(** [_decode_uXXXX]: the value of four hexadecimal digits *)
Definition decode_uXXXX (a b c d : ascii) : option N :=
match hex_value a, hex_value b, hex_value c, hex_value d with
| Some x, Some y, Some z, Some w => Some (4096 * x + 256 * y + 16 * z + w)%N
| _, _, _, _ => None
end.

(** [BACKSLASH] *)
Definition BACKSLASH (esc : ascii) : option N :=
let n := N_of_ascii esc in
if (n =? 34)%N then Some 34%N            (* the quote *)
else if (n =? 92)%N then Some 92%N       (* the backslash *)
else if (n =? 47)%N then Some 47%N       (* / *)
else if (n =? 98)%N then Some 8%N        (* b *)
else if (n =? 102)%N then Some 12%N      (* f *)
else if (n =? 110)%N then Some 10%N      (* n *)
else if (n =? 114)%N then Some 13%N      (* r *)
else if (n =? 116)%N then Some 9%N       (* t *)
else None.

Definition is_high_surrogate (n : N) : bool := ((55296 <=? n) && (n <=? 56319))%N.
Definition is_low_surrogate (n : N) : bool := ((56320 <=? n) && (n <=? 57343))%N.

(** The code point of a surrogate pair *)
Definition join_surrogates (uni uni2 : N) : N :=
(65536 + N.lor (N.shiftl (uni - 55296) 10) (uni2 - 56320))%N.

Definition unterminated : exn := JSONDecodeError "Unterminated string starting at".
Definition invalid_uXXXX : exn := JSONDecodeError "Invalid \uXXXX escape".

(** [scanstring] in strict mode: [s] is the text after the opening
  quote, [chunks] what has been decoded so far. *)
Fixpoint scanstring (s : string) (chunks : ustr) : res (ustr * string) :=
match s with
| EmptyString => Raise unterminated
| String c rest =>
    let n := N_of_ascii c in
    if (n =? 34)%N then Ret (chunks, rest)
    else if (n =? 92)%N then
      match rest with
      | EmptyString => Raise unterminated
      | String esc rest1 =>
          if negb (Ascii.eqb esc "u") then
            match BACKSLASH esc with
            | Some char => scanstring rest1 (chunks ++ [char])%list
            | None => Raise (JSONDecodeError "Invalid \escape")
            end
          else
            match rest1 with
            | String h1 (String h2 (String h3 (String h4 rest2))) =>
                match decode_uXXXX h1 h2 h3 h4 with
                | None => Raise invalid_uXXXX
                | Some uni =>
                    match rest2 with
                    | String b (String u rest3) =>
                        if is_high_surrogate uni
                           && Ascii.eqb b "092" && Ascii.eqb u "u"
                        then
                          match rest3 with
                          | String l1 (String l2 (String l3 (String l4 rest4))) =>
                              match decode_uXXXX l1 l2 l3 l4 with
                              | None => Raise invalid_uXXXX
                              | Some uni2 =>
                                  if is_low_surrogate uni2
                                  then scanstring rest4
                                         (chunks ++ [join_surrogates uni uni2])%list
                                  else scanstring rest2 (chunks ++ [uni])%list
                              end
                          | _ => Raise invalid_uXXXX
                          end
                        else scanstring rest2 (chunks ++ [uni])%list
                    | _ => scanstring rest2 (chunks ++ [uni])%list
                    end
                end
            | _ => Raise invalid_uXXXX
            end
      end
    else if (n <? 32)%N then
      Raise (JSONDecodeError "Invalid control character at")
    else scanstring rest (chunks ++ [n])%list
end.

(** *** Numbers: [NUMBER_RE] *)

Definition is_digit (c : ascii) : bool :=
let n := N_of_ascii c in ((48 <=? n) && (n <=? 57))%N.

(** The longest run of digits at the head of [s], and what follows it *)
Fixpoint span_digits (s : string) : string * string :=
match s with
| String c s' =>
    if is_digit c
    then let '(digits, rest) := span_digits s' in (String c digits, rest)
    else (EmptyString, s)
| EmptyString => (EmptyString, EmptyString)
end.

(** The first group of [NUMBER_RE]: an optional minus sign, then a
  zero or a digit other than zero followed by digits *)
Definition match_integer (s : string) : option (string * string) :=
let '(sign, s1) :=
  match s with
  | String c r => if Ascii.eqb c "-" then ("-", r) else ("", s)
  | EmptyString => ("", s)
  end in
match s1 with
| String c r =>
    if Ascii.eqb c "0" then Some (sign ++ "0", r)
    else if is_digit c then
      let '(digits, r') := span_digits r in Some (sign ++ String c digits, r')
    else None
| EmptyString => None
end.

(** The second group: a point followed by at least one digit *)
Definition match_frac (s : string) : string * string :=
match s with
| String c r =>
    if Ascii.eqb c "." then
      let '(digits, r') := span_digits r in
      if String.eqb digits "" then ("", s) else (String c digits, r')
    else ("", s)
| EmptyString => ("", s)
end.

(** The third group: an exponent mark, an optional sign and at least
  one digit *)
Definition match_exp (s : string) : string * string :=
match s with
| String e r =>
    if Ascii.eqb e "e" || Ascii.eqb e "E" then
      let '(sign, r1) :=
        match r with
        | String c r1 =>
            if Ascii.eqb c "-" || Ascii.eqb c "+" then (String c "", r1)
            else ("", r)
        | EmptyString => ("", r)
        end in
      let '(digits, r2) := span_digits r1 in
      if String.eqb digits "" then ("", s) else (String e (sign ++ digits), r2)
    else ("", s)
| EmptyString => ("", s)
end.

(** [NUMBER_RE] matches the whole of [s], with a fraction or an
  exponent: [s] is the text of a JSON number that is read as a float. *)
Definition float_literal (s : string) : bool :=
match match_integer s with
| Some (integer, s1) =>
    let '(frac, s2) := match_frac s1 in
    let '(exp, s3) := match_exp s2 in
    (negb (String.eqb frac "") || negb (String.eqb exp ""))
    && String.eqb s3 ""
| None => false
end.

(** The integer written as [text], a text matched by the integer group *)
Definition parse_int (text : string) : Z :=
match NilZero.int_of_string text with
| Some d => Z.of_int d
| None => 0
end.

(** [PyLong_FromString(text, NULL, 10)], that is [int(text)], for a text
  matched by the integer group: more than 640 digits are refused when
  they are more than the limit. *)
Definition long_from_string (text : string) : res Z :=
let digits := int_digits text in
if (640 <? digits)%N && (0 <? int_max_str_digits)%N
   && (int_max_str_digits <? digits)%N
then Raise (ValueError
              (limit_exceeded ++ ": value has " ++ PyStr.of_int (Z.of_N digits)
               ++ " digits; use sys.set_int_max_str_digits() to increase the limit"))
else Ret (parse_int text).

(** [dict(pairs)]: a later pair with a key already present replaces the
  value and keeps the place of the first. *)
Fixpoint dict_set (key : ustr) (value : pyval) (items : list (pykey * pyval))
  : list (pykey * pyval) :=
match items with
| [] => [(KStr key, value)]
| (k, v) :: items' =>
    match k with
    | KStr k' =>
        if bool_decide (k' = key) then (k, value) :: items'
        else (k, v) :: dict_set key value items'
    | _ => (k, v) :: dict_set key value items'
    end
end.

Definition dict_of_pairs (pairs : list (ustr * pyval)) : list (pykey * pyval) :=
foldl (λ items kv, dict_set kv.1 kv.2 items) [] pairs.

(** What a scan yields: a value and the text after it, the signal that
  no value starts here, or an error.  [Exhausted] tells that the
  bound on the number of nested calls was too small. *)
Inductive scanned : Type :=
| Found (value : pyval) (rest : string)
| StopIteration
| Failed (e : exn)
| Exhausted.

Definition expecting_name : exn :=
JSONDecodeError "Expecting property name enclosed in double quotes".
Definition expecting_comma : exn := JSONDecodeError "Expecting ',' delimiter".

(** [scan_once], with the loops of [JSONObject] and [JSONArray];
  [depth] is the number of containers the scanner may still enter. *)
Fixpoint scan_once (fuel depth : nat) (s : string) : scanned :=
match fuel with
| O => Exhausted
| S fuel =>
    match s with
    | EmptyString => StopIteration
    | String nextchar rest =>
        if Ascii.eqb nextchar "034" then
          match scanstring rest [] with
          | Ret (text, rest') => Found (PStr text) rest'
          | Raise e => Failed e
          end
        else if Ascii.eqb nextchar "{" then
          match depth with
          | O => Failed (RecursionError
                           " while decoding a JSON object from a unicode string")
          | S depth =>
              (* JSONObject, up to its loop *)
              match skip_ws rest with
              | String c rest' =>
                  if Ascii.eqb c "}" then Found (PDict []) rest'
                  else if Ascii.eqb c "034" then object_loop fuel depth [] rest'
                  else Failed expecting_name
              | EmptyString => Failed expecting_name
              end
          end
        else if Ascii.eqb nextchar "[" then
          match depth with
          | O => Failed (RecursionError
                           " while decoding a JSON array from a unicode string")
          | S depth =>
              (* JSONArray, up to its loop *)
              match skip_ws rest with
              | String c rest' =>
                  if Ascii.eqb c "]" then Found (PList []) rest'
                  else array_loop fuel depth [] (String c rest')
              | EmptyString => array_loop fuel depth [] EmptyString
              end
          end
        else if PyStr.startswith s "null" then Found PNone (PyStr.drop 4 s)
        else if PyStr.startswith s "true" then Found (PBool true) (PyStr.drop 4 s)
        else if PyStr.startswith s "false" then Found (PBool false) (PyStr.drop 5 s)
        else
          match match_integer s with
          | Some (integer, s1) =>
              let '(frac, s2) := match_frac s1 in
              let '(exp, s3) := match_exp s2 in
              if negb (String.eqb frac "") || negb (String.eqb exp "")
              then Found (PFloat (float_of_str (integer ++ frac ++ exp))) s3
              else
                match long_from_string integer with
                | Ret n => Found (PInt n) s3
                | Raise e => Failed e
                end
          | None =>
              if PyStr.startswith s "NaN"
              then Found (PFloat (float_of_str "nan")) (PyStr.drop 3 s)
              else if PyStr.startswith s "Infinity"
              then Found (PFloat (float_of_str "inf")) (PyStr.drop 8 s)
              else if PyStr.startswith s "-Infinity"
              then Found (PFloat (float_of_str "-inf")) (PyStr.drop 9 s)
              else StopIteration
          end
    end
end

(** The loop of [JSONObject]; [s] starts after the opening quote of a
  key. *)
with object_loop (fuel depth : nat) (pairs : list (ustr * pyval)) (s : string)
  : scanned :=
match fuel with
| O => Exhausted
| S fuel =>
    match scanstring s [] with
    | Raise e => Failed e
    | Ret (key, s) =>
        match skip_ws s with
        | String colon s =>
            if Ascii.eqb colon ":" then
              match scan_once fuel depth (skip_ws s) with
              | Found value s =>
                  let pairs := (pairs ++ [(key, value)])%list in
                  match skip_ws s with
                  | String c s =>
                      if Ascii.eqb c "}"
                      then Found (PDict (dict_of_pairs pairs)) s
                      else if Ascii.eqb c "," then
                        match skip_ws s with
                        | String q s =>
                            if Ascii.eqb q "034"
                            then object_loop fuel depth pairs s
                            else Failed expecting_name
                        | EmptyString => Failed expecting_name
                        end
                      else Failed expecting_comma
                  | EmptyString => Failed expecting_comma
                  end
              | StopIteration => Failed (JSONDecodeError "Expecting value")
              | Failed e => Failed e
              | Exhausted => Exhausted
              end
            else Failed (JSONDecodeError "Expecting ':' delimiter")
        | EmptyString => Failed (JSONDecodeError "Expecting ':' delimiter")
        end
    end
end

(** The loop of [JSONArray]; [s] starts at a value. *)
with array_loop (fuel depth : nat) (values : list pyval) (s : string)
  : scanned :=
match fuel with
| O => Exhausted
| S fuel =>
    match scan_once fuel depth s with
    | Found value s =>
        let values := (values ++ [value])%list in
        match skip_ws s with
        | String c s =>
            if Ascii.eqb c "]" then Found (PList values) s
            else if Ascii.eqb c "," then array_loop fuel depth values (skip_ws s)
            else Failed expecting_comma
        | EmptyString => Failed expecting_comma
        end
    | StopIteration => Failed (JSONDecodeError "Expecting value")
    | Failed e => Failed e
    | Exhausted => Exhausted
    end
end.

(** A scan makes at most two nested calls per character. *)
Definition call_bound (s : string) : nat := 2 * String.length s + 1.

(** [json.loads(s)]: [JSONDecoder.decode]. *)
Definition loads (s : string) : res pyval :=
let s := skip_ws s in
match scan_once (call_bound s) decoder_depth s with
| Found obj rest =>
    match skip_ws rest with
    | EmptyString => Ret obj
    | _ => Raise (JSONDecodeError "Extra data")
    end
| StopIteration => Raise (JSONDecodeError "Expecting value")
| Failed e => Raise e
| Exhausted => Raise (mk_exn (StdError "RecursionError") "")
end.

(** *** The values that make the round trip *)

(** No high surrogate is directly followed by a low one: the encoder
    would write them as the escape of a single code point. *)
Fixpoint no_split_pair (s : ustr) : bool :=
  match s with
  | a :: s' =>
      match s' with
      | b :: _ => negb (is_high_surrogate a && is_low_surrogate b)
      | [] => true
      end && no_split_pair s'
  | [] => true
  end.

(** A text of code points that survives encoding and decoding. *)
Definition text_ok (s : ustr) : bool :=
  forallb (λ n, (n <? 1114112)%N) s && no_split_pair s.

(** The keys of a dictionary that are strings. *)
Definition str_keys (items : list (pykey * pyval)) : list ustr :=
  omap (λ kv, match kv.1 with
              | KStr k => Some k
              | _ => None
              end) items.

(** The number of containers around the innermost part of a value. *)
Fixpoint nesting (o : pyval) : nat :=
  match o with
  | PList items => S (list_max (map nesting items))
  | PDict items => S (list_max (map (λ kv, nesting kv.2) items))
  | _ => 0
  end.

(** The values that survive [dumps] and [loads]: no float that is not
    equal to itself (NaN), dictionaries keyed by pairwise distinct
    strings, and every text acceptable to [text_ok]. *)
Fixpoint plain (o : pyval) : bool :=
  match o with
  | PNone | PBool _ | PInt _ => true
  | PFloat x => float_eqb x x
  | PStr s => text_ok s
  | PList items => forallb plain items
  | PDict items =>
      forallb (λ kv, match kv.1 with
                     | KStr k => text_ok k
                     | _ => false
                     end && plain kv.2) items
      && bool_decide (NoDup (str_keys items))
  end.

End json.
End JSON.

(** ** The data model of the executor *)

Inductive OutputFormat : Type := JSON | YAML | HUMAN | AI | RAW.

(** [OutputFormat.value] *)
Definition format_value (f : OutputFormat) : string :=
  match f with
  | JSON => "json"
  | YAML => "yaml"
  | HUMAN => "human"
  | AI => "ai"
  | RAW => "raw"
  end.

Global Instance OutputFormat_eq_dec : EqDecision OutputFormat.
Proof. solve_decision. Defined.

Section data_model.
Context `{PyFloat}.

Record CommandResult : Type := mk_CommandResult {
  success : bool;
  exit_code : Z;
  stdout : string;
  stderr : string;
  duration : float;
  command : list string;
  output_format : OutputFormat;
  parsed_output : pyval;            (* [PNone] is Python's [None] *)
  error : option string
}.

Record CommandContext : Type := mk_CommandContext {
  request_id : string;
  session_id : option string;
  timeout : option float;
  environment : gmap string string;
  working_dir : option string;
  stream_output : bool
}.

(** [CommandContext(request_id=r)]: every other field at its default. *)
Definition default_context (r : string) : CommandContext :=
  mk_CommandContext r None None ∅ None false.

(** The attributes of a [CLIExecutor] instance. *)
Record CLIExecutor : Type := mk_CLIExecutor {
  cli_path : string;
  default_timeout : float;
  max_workers : nat
}.

(** The fields of [settings] read by [get_cli_env]. *)
Record Settings : Type := mk_Settings {
  VIRTUOSO_API_KEY : option string;
  VIRTUOSO_ORG_ID : option string;
  CLI_CONFIG_PATH : option string
}.

End data_model.

(** [CHECKPOINT_COMMANDS] *)
Definition CHECKPOINT_COMMANDS : gset string :=
  list_to_set
    ["step-assert"; "step-interact"; "step-navigate"; "step-window";
     "step-data"; "step-dialog"; "step-wait"; "step-file"; "step-misc";
     "library"].

(** [EXIT_CODES] *)
Definition EXIT_CODES : gmap Z string :=
  list_to_map
    [(0, "Success"); (1, "General error");
     (2, "Command line parsing error"); (3, "Authentication error");
     (4, "Configuration error"); (5, "Resource not found");
     (6, "Validation error"); (7, "API error"); (8, "Timeout error");
     (9, "Permission denied"); (127, "Command not found")].

(** ** The parser, the validator, the builder and the error mapper *)

Definition try_res {A} (body : res A) (handler : exn → res A) : res A :=
  match body with
  | Ret a => Ret a
  | Raise e => handler e
  end.

Definition ParsedCommand : Type :=
  string * option string * option string * list string.

(** [CLIExecutor.parse_command] *)
Definition parse_command (command : string) : res ParsedCommand :=
  let command := PyStr.strip command in
  if String.eqb command "" then
    Raise (mk_exn CommandValidationError "Empty command")
  else
    let command :=
      if PyStr.startswith command "api-cli " then PyStr.drop 8 command
      else command in
    parts ← shlex.split command;
    match parts with
    | [] => Raise (mk_exn CommandValidationError "No command specified")
    | cmd :: _ =>
        if bool_decide (1 < length parts)%nat then
          if bool_decide (cmd ∈ CHECKPOINT_COMMANDS) then
            let subcommand := parts !! 1%nat in
            match parts !! 2%nat with
            | Some p2 =>
                if PyStr.isdigit p2
                then Ret (cmd, subcommand, Some p2, drop 3 parts)
                else Ret (cmd, subcommand, None, drop 2 parts)
            | None => Ret (cmd, subcommand, None, drop 2 parts)
            end
          else Ret (cmd, None, None, drop 1 parts)
        else Ret (cmd, None, None, [])
    end.

Section validator.
Context `{PyFloat}.

(** [CLIExecutor.validate_command] *)
Definition validate_command (command : string) (subcommand : option string)
    (checkpoint_id : option string) (context : option CommandContext)
    : res unit :=
  if bool_decide (command ∈ CHECKPOINT_COMMANDS) then
    let checkpoint_id :=
      match context with
      | Some ctx =>
          if negb (PyStr.truthy checkpoint_id) then session_id ctx
          else checkpoint_id
      | None => checkpoint_id
      end in
    if negb (PyStr.truthy checkpoint_id) && negb (String.eqb command "library")
    then
      Raise (mk_exn CommandValidationError
               ("Command '" ++ command ++ "' requires checkpoint ID. "
                ++ "Provide it explicitly or set VIRTUOSO_SESSION_ID"))
    else Ret ()
  else Ret ().

(** [CLIExecutor.build_command_args] *)
Definition build_command_args (self : CLIExecutor) (command : string)
    (subcommand checkpoint_id : option string) (args : list string)
    (output_format : OutputFormat) : list string :=
  let cmd_args := [cli_path self; command] in
  let cmd_args :=
    if PyStr.truthy subcommand
    then (cmd_args ++ option_list subcommand)%list
    else cmd_args in
  let cmd_args :=
    if PyStr.truthy checkpoint_id
    then (cmd_args ++ option_list checkpoint_id)%list
    else cmd_args in
  let cmd_args := (cmd_args ++ args)%list in
  if bool_decide (output_format ≠ RAW)
  then (cmd_args ++ ["--output"; format_value output_format])%list
  else cmd_args.

End validator.

(** [CLIExecutor._get_error_message] *)
Definition _get_error_message (exit_code : Z) (stderr : string) : string :=
  let base_msg :=
    default ("Unknown error (code: " ++ PyStr.of_int exit_code ++ ")")
            (EXIT_CODES !! exit_code) in
  if negb (String.eqb (PyStr.strip stderr) "")
  then base_msg ++ ": " ++ PyStr.strip stderr
  else base_msg.

Example parse_ex_A :
  parse_command ("step-navigate to 12345 " ++ dq ++ "https://example.com" ++ dq)
  = Ret ("step-navigate", Some "to", Some "12345", ["https://example.com"]).
Proof. vm_compute. reflexivity. Qed.

Example parse_ex_B :
  parse_command "api-cli list-projects --format json"
  = Ret ("list-projects", None, None, ["--format"; "json"]).
Proof. vm_compute. reflexivity. Qed.

Example describe_ex :
  (_get_error_message 0 "", _get_error_message 5 "x not found ",
   _get_error_message 42 "", _get_error_message (-1) " ")
  = ("Success", "Resource not found: x not found",
     "Unknown error (code: 42)", "Unknown error (code: -1)").
Proof. vm_compute. reflexivity. Qed.

(** ** The process runner *)

Section runner.
Context `{PyFloat}.

(** The decoders of the [json] and [yaml] libraries: each returns a
    value or raises. *)
Variables json_loads yaml_safe_load : string → res pyval.

(** [CLIExecutor._parse_output] *)
Definition _parse_output (output : string) (format_type : OutputFormat)
    : res pyval :=
  if String.eqb (PyStr.strip output) "" then Ret PNone
  else
    try_res
      (match format_type with
       | JSON => json_loads output
       | YAML => yaml_safe_load output
       | _ => Ret (PStr (ustr_of_string output))
       end)
      (* except Exception as e *)
      (λ e, Ret (PStr (ustr_of_string output))).

(** *** The operating system, as the executor sees it *)

(** What [communicate(timeout=t)] does, and what follows when the
    process is still running after [t]:
    - [Exits]: the process ends within [t]; the call returns its output,
      decoded as text, and the return code is set;
    - [Fails]: the call raises something other than [TimeoutExpired]
      (the output is not valid text, the pipe breaks);
    - [Hangs]: the call raises [TimeoutExpired], [process.kill()]
      returns, and [communicate()] returns what the process had written;
    - [HangsKillFails]: the call raises [TimeoutExpired] and
      [process.kill()] raises;
    - [HangsDrainFails]: the call raises [TimeoutExpired],
      [process.kill()] returns and [communicate()] raises.
    Every call comes back: a [communicate()] that waits for ever on a
    pipe that another process keeps open has no outcome here, and
    [execute] does not come back from it either. *)
Inductive run_outcome : Type :=
  | Exits (stdout stderr : string) (returncode : Z)
  | Hangs (stdout stderr : string)
  | Fails (name msg : string)
  | HangsKillFails (name msg : string)
  | HangsDrainFails (name msg : string).

(** What [subprocess.Popen] does: it raises (the executable is missing,
    say), or a process starts. *)
Inductive spawn_outcome : Type :=
  | SpawnFails (name msg : string)
  | Spawns (communicate : float → run_outcome).

Record world : Type := mk_world {
  os_environ : gmap string string;
  settings : Settings;
  clock : nat → float;                 (* successive readings of time.time() *)
  Popen : list string → gmap string string → option string → spawn_outcome
}.

(** The calls made on the subprocess module, in order. *)
Inductive event : Type :=
  | EvPopen (argv : list string) (env : gmap string string) (cwd : option string)
  | EvCommunicate (timeout : option float)
  | EvKill.

Record sys_state : Type := mk_sys { trace : list event; ticks : nat }.

Definition init : sys_state := mk_sys [] 0.

Definition M (A : Type) : Type := sys_state → sys_state * res A.

Global Instance M_ret : MRet M := λ A a st, (st, Ret a).
Global Instance M_bind : MBind M := λ A B k m st,
  match m st with
  | (st', Ret a) => k a st'
  | (st', Raise e) => (st', Raise e)
  end.

Definition lift {A} (r : res A) : M A := λ st, (st, r).
Definition raise {A} (e : exn) : M A := λ st, (st, Raise e).
Definition emit (ev : event) : M unit :=
  λ st, (mk_sys (trace st ++ [ev]) (ticks st), Ret ()).

Definition try_M {A} (body : M A) (handler : exn → M A) : M A := λ st,
  match body st with
  | (st', Ret a) => (st', Ret a)
  | (st', Raise e) => handler e st'
  end.

(** [time.time()] *)
Definition time_time (w : world) : M float :=
  λ st, (mk_sys (trace st) (S (ticks st)), Ret (clock w (ticks st))).

(** [env[key] = value] when [value] is truthy *)
Definition set_if_truthy (key : string) (value : option string)
    (env : gmap string string) : gmap string string :=
  match value with
  | Some v => if PyStr.truthy value then <[key := v]> env else env
  | None => env
  end.

(** [Settings.get_cli_env] *)
Definition get_cli_env (w : world) : gmap string string :=
  let env := os_environ w in
  let env := set_if_truthy "VIRTUOSO_API_KEY" (VIRTUOSO_API_KEY (settings w)) env in
  let env := set_if_truthy "VIRTUOSO_ORG_ID" (VIRTUOSO_ORG_ID (settings w)) env in
  set_if_truthy "VIRTUOSO_CONFIG_PATH" (CLI_CONFIG_PATH (settings w)) env.

Definition timeout_message (timeout : float) : string :=
  "Command timed out after " ++ float_repr timeout ++ " seconds".

(** The environment [execute] hands to the subprocess: the process
    environment, updated with [settings.get_cli_env()], then with the
    context's overrides, then with the session id when there is one. *)
Definition subprocess_env (w : world) (context : CommandContext)
    : gmap string string :=
  let env := os_environ w in
  let env := get_cli_env w ∪ env in
  let env := environment context ∪ env in
  set_if_truthy "VIRTUOSO_SESSION_ID" (session_id context) env.

(** [context.timeout or self.default_timeout] *)
Definition effective_timeout (self : CLIExecutor) (context : CommandContext)
    : float :=
  match timeout context with
  | Some t => if float_truthy t then t else default_timeout self
  | None => default_timeout self
  end.

(** The [try] block of [CLIExecutor.execute]. *)
Definition execute_body (self : CLIExecutor) (w : world) (start_time : float)
    (command : string) (context : CommandContext)
    (output_format : OutputFormat) : M CommandResult :=
  '(cmd, subcmd, checkpoint_id, args) ← lift (parse_command command);
  _ ← lift (validate_command cmd subcmd checkpoint_id (Some context));
  let cmd_args :=
    build_command_args self cmd subcmd checkpoint_id args output_format in
  let env := subprocess_env w context in
  let timeout := effective_timeout self context in
  _ ← emit (EvPopen cmd_args env (working_dir context));
  match Popen w cmd_args env (working_dir context) with
  | SpawnFails name msg => raise (mk_exn (StdError name) msg)
  | Spawns communicate =>
      _ ← emit (EvCommunicate (Some timeout));
      match communicate timeout with
      | Fails name msg => raise (mk_exn (StdError name) msg)
      | Hangs _ _ =>
          (* except subprocess.TimeoutExpired *)
          _ ← emit EvKill;
          _ ← emit (EvCommunicate None);
          raise (mk_exn CommandTimeoutError (timeout_message timeout))
      | HangsKillFails name msg =>
          _ ← emit EvKill;
          raise (mk_exn (StdError name) msg)
      | HangsDrainFails name msg =>
          _ ← emit EvKill;
          _ ← emit (EvCommunicate None);
          raise (mk_exn (StdError name) msg)
      | Exits stdout stderr exit_code =>
          now ← time_time w;
          let duration := float_sub now start_time in
          parsed_output ←
            (if negb (String.eqb stdout "") && bool_decide (output_format ≠ RAW)
             then lift (_parse_output stdout output_format)
             else mret PNone);
          let success := bool_decide (exit_code = 0) in
          let error_msg :=
            if negb success then Some (_get_error_message exit_code stderr)
            else None in
          mret (mk_CommandResult success exit_code stdout stderr duration
                  cmd_args output_format parsed_output error_msg)
      end
  end.

(** The result built by the [except Exception] clause of [execute]. *)
Definition failure_result (e : exn) (duration : float) (command : string)
    (output_format : OutputFormat) : CommandResult :=
  mk_CommandResult false (-1) "" (exc_str e) duration [command]
    output_format PNone (Some (exc_str e)).

(** [CLIExecutor.execute] *)
Definition execute (self : CLIExecutor) (w : world) (command : string)
    (context : option CommandContext) (output_format : OutputFormat)
    : M CommandResult :=
  start_time ← time_time w;
  let context := default (default_context "sync") context in
  try_M (execute_body self w start_time command context output_format)
    (λ e,
       match exc_type e with
       | CommandTimeoutError => raise e
       | _ =>
           now ← time_time w;
           let duration := float_sub now start_time in
           mret (failure_result e duration command output_format)
       end).

(** *** Batch execution

    [execute_batch] submits every command to the worker pool and then
    waits for the futures in submission order.  The pool is described by
    what matters to the caller: [worlds i] is the system as the [i]-th
    task finds it, and [completions] lists, in the order in which they
    finish, the tasks that finish before the wait on their own future
    expires. *)

Definition task_outcome (self : CLIExecutor) (worlds : nat → world)
    (context : option CommandContext) (output_format : OutputFormat)
    (i : nat) (cmd : string) : res CommandResult :=
  (execute self (worlds i) cmd context output_format init).2.

(** The futures that hold an outcome once the tasks of [completions]
    have finished. *)
Definition run_pool (self : CLIExecutor) (worlds : nat → world)
    (context : option CommandContext) (output_format : OutputFormat)
    (commands : list string) (completions : list nat)
    : gmap nat (res CommandResult) :=
  foldl (λ done i,
           match commands !! i with
           | Some cmd =>
               <[i := task_outcome self worlds context output_format i cmd]> done
           | None => done
           end)
        ∅ completions.

(** [future.result(timeout=...)] *)
Definition future_result (done : gmap nat (res CommandResult)) (i : nat)
    : res CommandResult :=
  match done !! i with
  | Some outcome => outcome
  | None => Raise (mk_exn FutureTimeoutError "")
  end.

(** The loop that collects the results, in the order of [futures]. *)
Fixpoint collect_results (self : CLIExecutor) (output_format : OutputFormat)
    (commands : list string) (done : gmap nat (res CommandResult))
    (futures : list nat) : res (list CommandResult) :=
  match futures with
  | [] => Ret []
  | i :: futures' =>
      result ←
        try_res (future_result done i)
          (λ e,
             match exc_type e with
             | FutureTimeoutError =>
                 Ret (mk_CommandResult false 8 "" "Command timed out"
                        (default_timeout self) [commands !!! i]
                        output_format PNone (Some "Timeout"))
             | _ =>
                 Ret (mk_CommandResult false (-1) "" (exc_str e)
                        (float_of_str "0.0") [commands !!! i]
                        output_format PNone (Some (exc_str e)))
             end);
      results ← collect_results self output_format commands done futures';
      Ret (result :: results)
  end.

(** [CLIExecutor.execute_batch] *)
Definition execute_batch (self : CLIExecutor) (worlds : nat → world)
    (completions : list nat) (commands : list string)
    (context : option CommandContext) (output_format : OutputFormat)
    : res (list CommandResult) :=
  let futures := seq 0 (length commands) in
  let done := run_pool self worlds context output_format commands completions in
  collect_results self output_format commands done futures.

End runner.

(** * The rest of the executor *)

(** ** Constructing an executor *)

Section construction.
Context `{PyFloat}.

(** What the constructor asks about a path [p]: [Path(p).exists()],
    [Path(p).is_file()] and [os.access(str(Path(p)), os.X_OK)].  The
    queries are taken to answer. *)
Record FileSystem : Type := mk_FileSystem {
  path_exists : string → bool;
  path_is_file : string → bool;
  os_access_X_OK : string → bool
}.

(** [CLIExecutor._validate_cli_binary]; what it writes to the log is
    left out. *)
Definition _validate_cli_binary (fs : FileSystem) (cli_path : string)
    : res unit :=
  if negb (path_exists fs cli_path) then
    Raise (mk_exn CommandValidationError
             ("CLI binary not found at: " ++ cli_path))
  else if negb (path_is_file fs cli_path) then
    Raise (mk_exn CommandValidationError
             ("CLI path is not a file: " ++ cli_path))
  else if negb (os_access_X_OK fs cli_path) then
    Raise (mk_exn CommandValidationError
             ("CLI binary is not executable: " ++ cli_path))
  else Ret ().

(** [CLIExecutor.__init__]; [CLI_PATH] is [settings.CLI_PATH].  The
    thread pool is created before the binary is looked at, and
    [ThreadPoolExecutor] rejects a number of workers below one. *)
Definition __init__ (fs : FileSystem) (CLI_PATH : string)
    (cli_path : option string) (default_timeout : float) (max_workers : Z)
    : res CLIExecutor :=
  let self_cli_path :=
    match cli_path with
    | Some p => if PyStr.truthy cli_path then p else CLI_PATH
    | None => CLI_PATH
    end in
  if bool_decide (max_workers ≤ 0) then
    Raise (ValueError "max_workers must be greater than 0")
  else
    _ ← _validate_cli_binary fs self_cli_path;
    Ret (mk_CLIExecutor self_cli_path default_timeout (Z.to_nat max_workers)).

(** [get_executor]; [_executor] is the module's singleton, returned
    with the result as it is after the call. *)
Definition get_executor (fs : FileSystem) (CLI_PATH : string)
    (_executor : option CLIExecutor)
    : option CLIExecutor * res CLIExecutor :=
  match _executor with
  | Some executor => (_executor, Ret executor)
  | None =>
      match __init__ fs CLI_PATH None (float_of_str "300.0") 4 with
      | Ret executor => (Some executor, Ret executor)
      | Raise e => (None, Raise e)
      end
  end.

End construction.

Section values_truth.
Context `{PyFloat}.

(** Truthiness of a value: [None], [False], zero and the empty string,
    list and dictionary are false. *)
Definition pyval_truthy (v : pyval) : bool :=
  match v with
  | PNone => false
  | PBool b => b
  | PInt n => negb (n =? 0)
  | PFloat x => float_truthy x
  | PStr s => negb (bool_decide (s = []))
  | PList items => negb (bool_decide (items = []))
  | PDict items => negb (bool_decide (items = []))
  end.

End values_truth.

Section commands_cache.
Context `{PyFloat}.
Variables json_loads yaml_safe_load : string → res pyval.

(** [CLIExecutor.get_available_commands]; [_commands_cache] is the
    attribute of that name, [PNone] before the first refresh.  The call
    returns the attribute as it leaves it together with its result; when
    the call raises, the attribute is as it was. *)
Definition get_available_commands (self : CLIExecutor) (w : world)
    (force_refresh : bool) (_commands_cache : pyval) : M (pyval * pyval) :=
  if pyval_truthy _commands_cache && negb force_refresh then
    mret (_commands_cache, _commands_cache)
  else
    result ← execute json_loads yaml_safe_load self w "list-commands" None JSON;
    if success result && pyval_truthy (parsed_output result)
    then mret (parsed_output result, parsed_output result)
    else mret (_commands_cache, PDict []).

End commands_cache.

(** ** Streaming a command *)

Section streaming.
Context `{PyFloat}.

(** [bytes.decode()]: the text of a byte string, or the
    [UnicodeDecodeError] it raises.  A byte string is a [string] whose
    characters are its bytes. *)
Variable decode : string → res string.

(** A process started by [asyncio.create_subprocess_exec], as
    [execute_stream] observes it: what the successive calls of
    [stdout.readline()] return before the end of the output, the return
    code once [wait()] is over, and what [stderr.read()] returns. *)
Record stream_process : Type := mk_stream_process {
  stdout_lines : list string;
  returncode : Z;
  stderr_bytes : string
}.

Inductive create_outcome : Type :=
  | CreateFails (name msg : string)
  | Creates (process : stream_process).

(** The calls made on [asyncio] and on the process, in order. *)
Inductive stream_event : Type :=
  | EvCreate (argv : list string) (env : gmap string string) (cwd : option string)
  | EvReadline
  | EvWait
  | EvStderrRead.

(** A run of the generator driven to its end: the values it yielded,
    the calls it made, and how it ended ([Ret ()] when it is exhausted). *)
Record stream_run : Type := mk_stream_run {
  yielded : list string;
  calls : list stream_event;
  finish : res unit
}.

(** The [while True] loop: [readline()] returns the empty byte string
    at the end of the output. *)
Fixpoint read_lines (lines : list string) : stream_run :=
  match lines with
  | [] => mk_stream_run [] [EvReadline] (Ret ())
  | line :: lines' =>
      if String.eqb line "" then mk_stream_run [] [EvReadline] (Ret ())
      else
        match decode line with
        | Raise e => mk_stream_run [] [EvReadline] (Raise e)
        | Ret text =>
            let run := read_lines lines' in
            mk_stream_run (PyStr.rstrip text :: yielded run)
              (EvReadline :: calls run) (finish run)
        end
  end.

(** What follows the loop: [wait()], then the error line when the
    return code is not zero. *)
Definition after_lines (process : stream_process) : stream_run :=
  if bool_decide (returncode process ≠ 0) then
    match decode (stderr_bytes process) with
    | Raise e => mk_stream_run [] [EvWait; EvStderrRead] (Raise e)
    | Ret stderr =>
        mk_stream_run
          ["ERROR: " ++ _get_error_message (returncode process) stderr]
          [EvWait; EvStderrRead] (Ret ())
    end
  else mk_stream_run [] [EvWait] (Ret ()).

(** [CLIExecutor.execute_stream], driven to its end and never
    cancelled. *)
Definition execute_stream (self : CLIExecutor) (w : world)
    (create_subprocess_exec :
       list string → gmap string string → option string → create_outcome)
    (command : string) (context : option CommandContext)
    (output_format : OutputFormat) : stream_run :=
  let context := default (default_context "stream") context in
  match parse_command command with
  | Raise e => mk_stream_run [] [] (Raise e)
  | Ret (cmd, subcmd, checkpoint_id, args) =>
      match validate_command cmd subcmd checkpoint_id (Some context) with
      | Raise e => mk_stream_run [] [] (Raise e)
      | Ret _ =>
          let cmd_args :=
            build_command_args self cmd subcmd checkpoint_id args output_format in
          let env := subprocess_env w context in
          let created := EvCreate cmd_args env (working_dir context) in
          match create_subprocess_exec cmd_args env (working_dir context) with
          | CreateFails name msg =>
              mk_stream_run [] [created] (Raise (mk_exn (StdError name) msg))
          | Creates process =>
              let lines := read_lines (stdout_lines process) in
              match finish lines with
              | Raise e =>
                  mk_stream_run (yielded lines) (created :: calls lines) (Raise e)
              | Ret _ =>
                  let rest := after_lines process in
                  mk_stream_run (yielded lines ++ yielded rest)
                    (created :: calls lines ++ calls rest) (finish rest)
              end
          end
      end
  end.

End streaming.

(** ** Temporary configuration files

    The files of the system are the texts stored under their paths. *)

Section temporary_files.
Context `{PyFloat}.

(** [tempfile.NamedTemporaryFile(mode="w", suffix=".yaml", delete=False)]:
    the name of the file it creates. *)
Variable NamedTemporaryFile : gmap string string → string.

(** [yaml.dump(data, f)]: what it writes to [f], and whether it raises. *)
Variable yaml_dump : pyval → string * res unit.

(** The [OSError] of [os.unlink] on a path that names no file. *)
Variable unlink_error : string → exn.

(** [CLIExecutor.temporary_config], as a [with] statement around
    [body]: the body receives the path the manager yields, works on the
    files and returns or raises. *)
Definition temporary_config {A : Type} (config_data : pyval)
    (body : string → gmap string string → gmap string string * res A)
    (fs : gmap string string) : gmap string string * res A :=
  let temp_path := NamedTemporaryFile fs in
  let fs := <[temp_path := (yaml_dump config_data).1]> fs in
  match (yaml_dump config_data).2 with
  | Raise e => (fs, Raise e)
  | Ret _ =>
      let run := body temp_path fs in
      (* finally: os.unlink(temp_path) *)
      match run.1 !! temp_path with
      | Some _ => (delete temp_path run.1, run.2)
      | None => (run.1, Raise (unlink_error temp_path))
      end
  end.

End temporary_files.

(** * Properties *)

(** ** Strings *)

Lemma prefix_app (p s : string) : String.prefix p (p ++ s) = true.
Proof.
  induction p as [|c p IH]; simpl; [by destruct s|].
  destruct (ascii_dec c c); [done | congruence].
Qed.

Lemma str_app_assoc (a b c : string) : (a ++ b) ++ c = a ++ b ++ c.
Proof.
  induction a as [|x a IH]; [done|].
  change (String x ((a ++ b) ++ c) = String x (a ++ b ++ c)). by f_equal.
Qed.

Lemma contains_prefix (sub s : string) :
  String.prefix sub s = true → PyStr.contains sub s = true.
Proof.
  intros Hp. destruct s; unfold PyStr.contains; fold PyStr.contains;
    rewrite Hp; done.
Qed.

Lemma contains_app (sub before after : string) :
  PyStr.contains sub (before ++ sub ++ after) = true.
Proof.
  induction before as [|c before IH].
  - change (PyStr.contains sub (sub ++ after) = true).
    apply contains_prefix, prefix_app.
  - change (PyStr.contains sub (String c (before ++ sub ++ after)) = true).
    unfold PyStr.contains; fold PyStr.contains. rewrite IH. apply orb_true_r.
Qed.

Lemma eqb_false_iff (s t : string) : String.eqb s t = false ↔ s ≠ t.
Proof. rewrite <- String.eqb_neq. done. Qed.

(** ** What the parser and the validator raise *)

Lemma parse_command_raise command e :
  parse_command command = Raise e →
  exc_type e = CommandValidationError ∨ exc_type e = StdError "ValueError".
Proof.
  unfold parse_command.
  destruct (String.eqb _ _); [intros [= <-]; by left|].
  destruct (shlex.split _) as [parts|e0] eqn:Hsp; simpl.
  - destruct parts; [intros [= <-]; by left|]. repeat case_match; done.
  - intros [= <-]. right. by eapply split_raise.
Qed.

Lemma validate_command_raise `{PyFloat} command subcommand checkpoint_id context e :
  validate_command command subcommand checkpoint_id context = Raise e →
  exc_type e = CommandValidationError.
Proof.
  unfold validate_command. repeat case_match; intros; simplify_eq/=; done.
Qed.

(** ** The command parser *)

(** C2. Once the command string, trimmed and rid of a leading
    [api-cli ] prefix, splits into shell words [cmd :: rest], the parse is
    read off the words: for a checkpoint-scoped [cmd] the second word is
    the subcommand, a third word made of digits is the checkpoint id and
    the words after it the arguments, and otherwise the words from the
    third on are the arguments with no checkpoint id; for any other [cmd]
    there is neither subcommand nor checkpoint id and every remaining word
    is an argument.  Scenario A of the specification parses as stated. *)
Theorem parse_command_shape :
  (∀ command cmd rest,
     PyStr.strip command ≠ "" →
     shlex.split
       (if PyStr.startswith (PyStr.strip command) "api-cli "
        then PyStr.drop 8 (PyStr.strip command)
        else PyStr.strip command) = Ret (cmd :: rest) →
     parse_command command =
       Ret (if bool_decide (cmd ∈ CHECKPOINT_COMMANDS) then
              match rest with
              | [] => (cmd, None, None, [])
              | [sub] => (cmd, Some sub, None, [])
              | sub :: third :: more =>
                  if PyStr.isdigit third
                  then (cmd, Some sub, Some third, more)
                  else (cmd, Some sub, None, third :: more)
              end
            else (cmd, None, None, rest)))
  ∧ parse_command
      ("step-navigate to 12345 " ++ dq ++ "https://example.com" ++ dq)
    = Ret ("step-navigate", Some "to", Some "12345", ["https://example.com"]).
Proof.
  split; [|vm_compute; reflexivity].
  intros command cmd rest Hne Hsplit.
  unfold parse_command.
  apply eqb_false_iff in Hne. rewrite Hne, Hsplit. simpl.
  destruct rest as [|sub [|third more]]; simpl.
  - by destruct (bool_decide (cmd ∈ CHECKPOINT_COMMANDS)).
  - by destruct (bool_decide (cmd ∈ CHECKPOINT_COMMANDS)).
  - destruct (bool_decide (cmd ∈ CHECKPOINT_COMMANDS)); [|done].
    by destruct (PyStr.isdigit third).
Qed.

Lemma parse_command_shape_witness :
  parse_command "  api-cli library get " = Ret ("library", Some "get", None, []).
Proof.
  apply (proj1 parse_command_shape "  api-cli library get " "library" ["get"]).
  - vm_compute. discriminate.
  - vm_compute. reflexivity.
Defined.

(** ** The command validator *)

Section validator_facts.
Context `{PyFloat}.

(** C4. For a checkpoint-scoped command, validation raises exactly when
    no explicit checkpoint id is given, the context (if there is one)
    supplies no session id, and the command is not [library]; an id
    counts as given when it is present and not the empty string, as
    Python's truth test has it.  What is raised is a
    [CommandValidationError] whose message contains
    [requires checkpoint ID].  A command outside the set always passes. *)
Theorem validate_command_iff :
  (∀ command subcommand checkpoint_id context,
     command ∈ CHECKPOINT_COMMANDS →
     (raises (validate_command command subcommand checkpoint_id context)
             CommandValidationError
      ↔ PyStr.truthy checkpoint_id = false
        ∧ (∀ ctx, context = Some ctx → PyStr.truthy (session_id ctx) = false)
        ∧ command ≠ "library")
     ∧ (∀ e, validate_command command subcommand checkpoint_id context = Raise e →
             exc_type e = CommandValidationError
             ∧ PyStr.contains "requires checkpoint ID" (exc_str e) = true)
     ∧ (returns (validate_command command subcommand checkpoint_id context)
        ∨ raises (validate_command command subcommand checkpoint_id context)
                 CommandValidationError))
  ∧ (∀ command subcommand checkpoint_id context,
       command ∉ CHECKPOINT_COMMANDS →
       validate_command command subcommand checkpoint_id context = Ret ()).
Proof.
  split.
  - intros command subcommand checkpoint_id context Hin.
    unfold validate_command. rewrite bool_decide_true by done.
    destruct (String.eqb command "library") eqn:Hlib.
    + apply String.eqb_eq in Hlib. rewrite andb_false_r.
      split; [|split].
      * split; [intros [? ?]; done | intros (_ & _ & ?); done].
      * intros e ?; done.
      * left. by eexists.
    + apply eqb_false_iff in Hlib. rewrite andb_true_r.
      assert (Hcontains : ∀ c,
                PyStr.contains "requires checkpoint ID"
                  ("Command '" ++ c ++ "' requires checkpoint ID. "
                   ++ "Provide it explicitly or set VIRTUOSO_SESSION_ID") = true).
      { intros c.
        replace ("Command '" ++ c ++ "' requires checkpoint ID. "
                 ++ "Provide it explicitly or set VIRTUOSO_SESSION_ID")
          with (("Command '" ++ c ++ "' ") ++ "requires checkpoint ID"
                ++ ". Provide it explicitly or set VIRTUOSO_SESSION_ID").
        - apply contains_app.
        - rewrite !str_app_assoc. reflexivity. }
      destruct context as [ctx|]; simpl.
      * destruct (PyStr.truthy checkpoint_id) eqn:Hc; simpl.
        -- rewrite Hc. simpl. split; [|split].
           ++ split; [intros [? ?]; done | intros (? & _); done].
           ++ intros e ?; done.
           ++ left. by eexists.
        -- destruct (PyStr.truthy (session_id ctx)) eqn:Hs; simpl.
           ++ split; [|split].
              ** split; [intros [? ?]; done |].
                 intros (_ & Hctx & _). specialize (Hctx ctx eq_refl). congruence.
              ** intros e ?; done.
              ** left. by eexists.
           ++ split; [|split].
              ** split; [|intros _; by eexists].
                 intros _. split; [done|]. split; [|done].
                 intros ctx' [= <-]. done.
              ** intros e [= <-]. simpl. split; [done | apply Hcontains].
              ** right. by eexists.
      * destruct (PyStr.truthy checkpoint_id) eqn:Hc; simpl.
        -- split; [|split].
           ++ split; [intros [? ?]; done | intros (? & _); done].
           ++ intros e ?; done.
           ++ left. by eexists.
        -- split; [|split].
           ++ split; [|intros _; by eexists].
              intros _. split; [done|]. split; [|done]. intros ctx' ?; done.
           ++ intros e [= <-]. simpl. split; [done | apply Hcontains].
           ++ right. by eexists.
  - intros command subcommand checkpoint_id context Hnin.
    unfold validate_command. by rewrite bool_decide_false.
Qed.

End validator_facts.

(** ** The error mapper *)

(** The exit-code table as the specification lists it. *)
Definition exit_code_table (code : Z) : option string :=
  if code =? 0 then Some "Success"
  else if code =? 1 then Some "General error"
  else if code =? 2 then Some "Command line parsing error"
  else if code =? 3 then Some "Authentication error"
  else if code =? 4 then Some "Configuration error"
  else if code =? 5 then Some "Resource not found"
  else if code =? 6 then Some "Validation error"
  else if code =? 7 then Some "API error"
  else if code =? 8 then Some "Timeout error"
  else if code =? 9 then Some "Permission denied"
  else if code =? 127 then Some "Command not found"
  else None.

(** [describe] as the specification words it: the category of the table,
    or the synthesized one, followed by the trimmed stderr when there is
    any. *)
Definition describe (exit_code : Z) (stderr : string) : string :=
  let category :=
    match exit_code_table exit_code with
    | Some category => category
    | None => "Unknown error (code: " ++ PyStr.of_int exit_code ++ ")"
    end in
  match PyStr.strip stderr with
  | EmptyString => category
  | trimmed => category ++ ": " ++ trimmed
  end.

Lemma EXIT_CODES_table (code : Z) : EXIT_CODES !! code = exit_code_table code.
Proof.
  unfold EXIT_CODES, exit_code_table. simpl.
  repeat (rewrite lookup_insert; case_decide as Hc;
          [subst code; reflexivity
          | apply not_eq_sym, Z.eqb_neq in Hc; rewrite Hc; clear Hc]).
  apply lookup_empty.
Qed.

(** C9. The error mapper is [describe]: the category comes from the
    fixed table, a code outside the table gets
    [Unknown error (code: N)], and the trimmed stderr is appended after a
    colon and a space exactly when it is not empty; the four examples of
    the specification evaluate as stated. *)
Theorem get_error_message_describe :
  (∀ exit_code stderr, _get_error_message exit_code stderr = describe exit_code stderr)
  ∧ (∀ exit_code stderr,
       PyStr.strip stderr = "" →
       _get_error_message exit_code stderr = _get_error_message exit_code "")
  ∧ (∀ exit_code stderr,
       PyStr.strip stderr ≠ "" →
       _get_error_message exit_code stderr
       = _get_error_message exit_code "" ++ ": " ++ PyStr.strip stderr)
  ∧ (∀ exit_code,
       exit_code_table exit_code = None →
       _get_error_message exit_code ""
       = "Unknown error (code: " ++ PyStr.of_int exit_code ++ ")")
  ∧ _get_error_message 0 "" = "Success"
  ∧ _get_error_message 5 "" = "Resource not found"
  ∧ _get_error_message 5 "x not found" = "Resource not found: x not found"
  ∧ _get_error_message 42 "" = "Unknown error (code: 42)".
Proof.
  assert (Hd : ∀ exit_code stderr,
            _get_error_message exit_code stderr = describe exit_code stderr).
  { intros code err. unfold _get_error_message, describe.
    rewrite EXIT_CODES_table.
    destruct (exit_code_table code); simpl;
      destruct (PyStr.strip err); reflexivity. }
  split; [exact Hd|].
  split; [|split; [|split]].
  - intros code err Hs. rewrite !Hd. unfold describe.
    rewrite Hs. reflexivity.
  - intros code err Hs. rewrite !Hd. unfold describe.
    change (PyStr.strip "") with "".
    destruct (PyStr.strip err); [done | reflexivity].
  - intros code Hn. rewrite Hd. unfold describe. rewrite Hn. reflexivity.
  - repeat split; vm_compute; reflexivity.
Qed.

(** ** The output parser *)

Section output_parser.
Context `{PyFloat}.
Variables json_loads yaml_safe_load : string → res pyval.

(** C7. Whatever the input, the format and the behaviour of the two
    decoders, the output parser returns: [None] for an input that is
    empty once trimmed; the raw string when the decoder of the JSON or
    the YAML format raises on it; the raw string under any other
    format. *)
Theorem parse_output_total (output : string) (format_type : OutputFormat) :
  returns (_parse_output json_loads yaml_safe_load output format_type)
  ∧ (PyStr.strip output = "" →
     _parse_output json_loads yaml_safe_load output format_type = Ret PNone)
  ∧ (PyStr.strip output ≠ "" →
     (∀ e, format_type = JSON → json_loads output = Raise e →
           _parse_output json_loads yaml_safe_load output format_type
           = Ret (PStr (ustr_of_string output)))
     ∧ (∀ e, format_type = YAML → yaml_safe_load output = Raise e →
             _parse_output json_loads yaml_safe_load output format_type
             = Ret (PStr (ustr_of_string output)))
     ∧ (∀ v, format_type = JSON → json_loads output = Ret v →
             _parse_output json_loads yaml_safe_load output format_type = Ret v)
     ∧ (∀ v, format_type = YAML → yaml_safe_load output = Ret v →
             _parse_output json_loads yaml_safe_load output format_type = Ret v)
     ∧ (format_type ≠ JSON → format_type ≠ YAML →
        _parse_output json_loads yaml_safe_load output format_type
        = Ret (PStr (ustr_of_string output)))).
Proof.
  unfold _parse_output.
  destruct (String.eqb (PyStr.strip output) "") eqn:Hs.
  - apply String.eqb_eq in Hs. split; [by eexists|]. split; [done|].
    intros Hne. done.
  - apply eqb_false_iff in Hs. split.
    + destruct format_type; simpl; try (by eexists).
      * destruct (json_loads output); by eexists.
      * destruct (yaml_safe_load output); by eexists.
    + split; [done|]. intros _.
      repeat split.
      * intros e -> ->. reflexivity.
      * intros e -> ->. reflexivity.
      * intros v -> ->. reflexivity.
      * intros v -> ->. reflexivity.
      * intros ??. destruct format_type; done.
Qed.

End output_parser.

(** ** The process runner *)

Section runner_facts.
Context `{PyFloat}.
Variables json_loads yaml_safe_load : string → res pyval.

Ltac run_M :=
  unfold mbind, M_bind, mret, M_ret, lift, emit, raise, time_time, try_M;
  simpl.

(** The ways the [try] block of [execute] can end: the command is
    rejected before anything is spawned, the spawn fails, the wait for
    the process raises, the process outlives the timeout (and then the
    kill or the collection of its output may raise), or it exits. *)
Inductive body_run (self : CLIExecutor) (w : world) (start_time : float)
    (command : string) (context : CommandContext)
    (output_format : OutputFormat) (st : sys_state)
    : sys_state → res CommandResult → Prop :=
  | run_rejected e :
      (parse_command command = Raise e
       ∨ ∃ cmd subcmd checkpoint_id args,
           parse_command command = Ret (cmd, subcmd, checkpoint_id, args)
           ∧ validate_command cmd subcmd checkpoint_id (Some context) = Raise e) →
      body_run self w start_time command context output_format st st (Raise e)
  | run_spawn_fails cmd subcmd checkpoint_id args argv name msg :
      parse_command command = Ret (cmd, subcmd, checkpoint_id, args) →
      validate_command cmd subcmd checkpoint_id (Some context) = Ret () →
      argv = build_command_args self cmd subcmd checkpoint_id args output_format →
      Popen w argv (subprocess_env w context) (working_dir context)
      = SpawnFails name msg →
      body_run self w start_time command context output_format st
        (mk_sys (trace st ++ [EvPopen argv (subprocess_env w context)
                                (working_dir context)])
                (ticks st))
        (Raise (mk_exn (StdError name) msg))
  | run_hangs cmd subcmd checkpoint_id args argv communicate out err :
      parse_command command = Ret (cmd, subcmd, checkpoint_id, args) →
      validate_command cmd subcmd checkpoint_id (Some context) = Ret () →
      argv = build_command_args self cmd subcmd checkpoint_id args output_format →
      Popen w argv (subprocess_env w context) (working_dir context)
      = Spawns communicate →
      communicate (effective_timeout self context) = Hangs out err →
      body_run self w start_time command context output_format st
        (mk_sys (trace st ++ [EvPopen argv (subprocess_env w context)
                                (working_dir context);
                              EvCommunicate (Some (effective_timeout self context));
                              EvKill; EvCommunicate None])
                (ticks st))
        (Raise (mk_exn CommandTimeoutError
                  (timeout_message (effective_timeout self context))))
  | run_fails cmd subcmd checkpoint_id args argv communicate name msg :
      parse_command command = Ret (cmd, subcmd, checkpoint_id, args) →
      validate_command cmd subcmd checkpoint_id (Some context) = Ret () →
      argv = build_command_args self cmd subcmd checkpoint_id args output_format →
      Popen w argv (subprocess_env w context) (working_dir context)
      = Spawns communicate →
      communicate (effective_timeout self context) = Fails name msg →
      body_run self w start_time command context output_format st
        (mk_sys (trace st ++ [EvPopen argv (subprocess_env w context)
                                (working_dir context);
                              EvCommunicate (Some (effective_timeout self context))])
                (ticks st))
        (Raise (mk_exn (StdError name) msg))
  | run_kill_fails cmd subcmd checkpoint_id args argv communicate name msg :
      parse_command command = Ret (cmd, subcmd, checkpoint_id, args) →
      validate_command cmd subcmd checkpoint_id (Some context) = Ret () →
      argv = build_command_args self cmd subcmd checkpoint_id args output_format →
      Popen w argv (subprocess_env w context) (working_dir context)
      = Spawns communicate →
      communicate (effective_timeout self context) = HangsKillFails name msg →
      body_run self w start_time command context output_format st
        (mk_sys (trace st ++ [EvPopen argv (subprocess_env w context)
                                (working_dir context);
                              EvCommunicate (Some (effective_timeout self context));
                              EvKill])
                (ticks st))
        (Raise (mk_exn (StdError name) msg))
  | run_drain_fails cmd subcmd checkpoint_id args argv communicate name msg :
      parse_command command = Ret (cmd, subcmd, checkpoint_id, args) →
      validate_command cmd subcmd checkpoint_id (Some context) = Ret () →
      argv = build_command_args self cmd subcmd checkpoint_id args output_format →
      Popen w argv (subprocess_env w context) (working_dir context)
      = Spawns communicate →
      communicate (effective_timeout self context) = HangsDrainFails name msg →
      body_run self w start_time command context output_format st
        (mk_sys (trace st ++ [EvPopen argv (subprocess_env w context)
                                (working_dir context);
                              EvCommunicate (Some (effective_timeout self context));
                              EvKill; EvCommunicate None])
                (ticks st))
        (Raise (mk_exn (StdError name) msg))
  | run_exits cmd subcmd checkpoint_id args argv communicate out err code parsed :
      parse_command command = Ret (cmd, subcmd, checkpoint_id, args) →
      validate_command cmd subcmd checkpoint_id (Some context) = Ret () →
      argv = build_command_args self cmd subcmd checkpoint_id args output_format →
      Popen w argv (subprocess_env w context) (working_dir context)
      = Spawns communicate →
      communicate (effective_timeout self context) = Exits out err code →
      (if negb (String.eqb out "") && bool_decide (output_format ≠ RAW)
       then _parse_output json_loads yaml_safe_load out output_format
       else Ret PNone) = Ret parsed →
      body_run self w start_time command context output_format st
        (mk_sys (trace st ++ [EvPopen argv (subprocess_env w context)
                                (working_dir context);
                              EvCommunicate (Some (effective_timeout self context))])
                (S (ticks st)))
        (Ret (mk_CommandResult (bool_decide (code = 0)) code out err
                (float_sub (clock w (ticks st)) start_time) argv
                output_format parsed
                (if bool_decide (code = 0) then None
                 else Some (_get_error_message code err)))).

Lemma parse_output_returns output format_type :
  ∃ v, _parse_output json_loads yaml_safe_load output format_type = Ret v.
Proof.
  unfold _parse_output.
  destruct (String.eqb _ _); [by eexists|].
  destruct format_type; simpl; try (by eexists).
  - destruct (json_loads output); by eexists.
  - destruct (yaml_safe_load output); by eexists.
Qed.

Lemma execute_body_run self w start_time command context output_format st :
  body_run self w start_time command context output_format st
    (execute_body json_loads yaml_safe_load self w start_time command context output_format st).1
    (execute_body json_loads yaml_safe_load self w start_time command context output_format st).2.
Proof.
  unfold execute_body. run_M.
  destruct (parse_command command) as [[[[cmd subcmd] checkpoint_id] args]|e] eqn:Hp;
    simpl; [|by constructor; left].
  destruct (validate_command cmd subcmd checkpoint_id (Some context)) as [[]|e] eqn:Hv;
    simpl; [|by constructor; right; eauto 10].
  destruct (Popen w _ _ _) as [name msg|communicate] eqn:Hs; simpl.
  { eapply run_spawn_fails; eauto. }
  destruct (communicate _) as [out err code|out err|name msg|name msg|name msg]
    eqn:Hc; simpl.
  - replace (if negb (bool_decide (code = 0))
             then Some (_get_error_message code err) else None)
      with (if bool_decide (code = 0) then None
            else Some (_get_error_message code err))
      by (by destruct (bool_decide _)).
    destruct (negb (String.eqb out "") && bool_decide (output_format ≠ RAW)) eqn:Hb;
      simpl.
    + destruct (parse_output_returns out output_format) as [v Hparse].
      rewrite Hparse. simpl. rewrite <- !app_assoc. simpl.
      eapply run_exits; eauto. by rewrite Hb.
    + rewrite <- !app_assoc. simpl.
      eapply run_exits; eauto. by rewrite Hb.
  - rewrite <- !app_assoc. simpl. eapply run_hangs; eauto.
  - rewrite <- !app_assoc. simpl. eapply run_fails; eauto.
  - rewrite <- !app_assoc. simpl. eapply run_kill_fails; eauto.
  - rewrite <- !app_assoc. simpl. eapply run_drain_fails; eauto.
Qed.

(** The clock reading and the state with which [execute] enters its
    [try] block. *)
Definition tick (st : sys_state) : sys_state :=
  mk_sys (trace st) (S (ticks st)).

Definition context_or_default (context : option CommandContext)
    : CommandContext :=
  default (default_context "sync") context.

(** [execute] in terms of its [try] block: a result passes through, a
    [CommandTimeoutError] is raised again, any other exception becomes
    the failure result. *)
Lemma execute_unfold self w command context output_format st :
  execute json_loads yaml_safe_load self w command context output_format st =
  match execute_body json_loads yaml_safe_load self w (clock w (ticks st)) command
          (context_or_default context) output_format (tick st) with
  | (st', Ret r) => (st', Ret r)
  | (st', Raise e) =>
      if decide (exc_type e = CommandTimeoutError) then (st', Raise e)
      else (tick st',
            Ret (failure_result e
                   (float_sub (clock w (ticks st')) (clock w (ticks st)))
                   command output_format))
  end.
Proof.
  unfold execute. run_M. fold (tick st).
  destruct (execute_body _ _ _ _ _ _ _ _ _) as [st' [r|e]]; [done|].
  destruct e as [[] msg]; simpl; done.
Qed.

(** The invariant of a [CommandResult]. *)
Definition result_invariant (r : CommandResult) : Prop :=
  (success r = true ↔ exit_code r = 0)
  ∧ (error r ≠ None ↔ success r = false).

Lemma failure_result_invariant e d command output_format :
  result_invariant (failure_result e d command output_format).
Proof. unfold result_invariant. simpl. naive_solver. Qed.

(** What [execute] raises is the timeout error, raised after the
    process was killed. *)
Lemma execute_raise self w command context output_format st st' e :
  execute json_loads yaml_safe_load self w command context output_format st = (st', Raise e) →
  e = mk_exn CommandTimeoutError
        (timeout_message (effective_timeout self (context_or_default context)))
  ∧ EvKill ∈ trace st'.
Proof.
  rewrite execute_unfold.
  pose proof (execute_body_run self w (clock w (ticks st)) command
                (context_or_default context) output_format (tick st)) as Hrun.
  destruct (execute_body _ _ _ _ _ _ _ _ _) as [st1 [r|e1]]; [done|].
  simpl in Hrun. case_decide as Hc; [|done].
  intros [= -> ->].
  inversion Hrun as [e' Hrej| | | | | |]; subst; simpl in Hc; try done.
  - destruct Hrej as [Hp|(?&?&?&?&Hp&Hv)].
    + apply parse_command_raise in Hp as [Hp|Hp]; congruence.
    + apply validate_command_raise in Hv. congruence.
  - split; [done|]. simpl. rewrite elem_of_app. right.
    do 2 apply list_elem_of_further. apply list_elem_of_here.
Qed.

(** [execute] on each way its [try] block can end. *)
Lemma execute_rejected self w command context output_format st e :
  (parse_command command = Raise e
   ∨ ∃ cmd subcmd checkpoint_id args,
       parse_command command = Ret (cmd, subcmd, checkpoint_id, args)
       ∧ validate_command cmd subcmd checkpoint_id
           (Some (context_or_default context)) = Raise e) →
  execute json_loads yaml_safe_load self w command context output_format st
  = (tick (tick st),
     Ret (failure_result e
            (float_sub (clock w (S (ticks st))) (clock w (ticks st)))
            command output_format)).
Proof.
  intros Hrej. rewrite execute_unfold. unfold execute_body. run_M.
  destruct Hrej as [Hp|(cmd & subcmd & cid & args & Hp & Hv)].
  - rewrite Hp. simpl. rewrite decide_False; [done|].
    apply parse_command_raise in Hp as [Hp|Hp]; congruence.
  - rewrite Hp. simpl. rewrite Hv. simpl.
    rewrite decide_False; [done|].
    apply validate_command_raise in Hv. congruence.
Qed.

Section spawned.
Variables (self : CLIExecutor) (w : world) (command : string)
  (context : option CommandContext) (output_format : OutputFormat).
Variables (cmd : string) (subcmd checkpoint_id : option string)
  (args : list string).

Let ctx := context_or_default context.
Let argv := build_command_args self cmd subcmd checkpoint_id args output_format.

Hypothesis Hparse :
  parse_command command = Ret (cmd, subcmd, checkpoint_id, args).
Hypothesis Hvalid :
  validate_command cmd subcmd checkpoint_id (Some ctx) = Ret ().

Lemma execute_spawn_fails st name msg :
  Popen w argv (subprocess_env w ctx) (working_dir ctx) = SpawnFails name msg →
  execute json_loads yaml_safe_load self w command context output_format st
  = (mk_sys (trace st ++ [EvPopen argv (subprocess_env w ctx) (working_dir ctx)])
            (S (S (ticks st))),
     Ret (failure_result (mk_exn (StdError name) msg)
            (float_sub (clock w (S (ticks st))) (clock w (ticks st)))
            command output_format)).
Proof.
  intros Hs. rewrite execute_unfold. unfold execute_body. run_M.
  rewrite Hparse. simpl. fold ctx. rewrite Hvalid. simpl.
  fold argv. rewrite Hs. simpl. done.
Qed.

Lemma execute_hangs st communicate out err :
  Popen w argv (subprocess_env w ctx) (working_dir ctx) = Spawns communicate →
  communicate (effective_timeout self ctx) = Hangs out err →
  execute json_loads yaml_safe_load self w command context output_format st
  = (mk_sys (trace st ++ [EvPopen argv (subprocess_env w ctx) (working_dir ctx);
                          EvCommunicate (Some (effective_timeout self ctx));
                          EvKill; EvCommunicate None])
            (S (ticks st)),
     Raise (mk_exn CommandTimeoutError
              (timeout_message (effective_timeout self ctx)))).
Proof.
  intros Hs Hc. rewrite execute_unfold. unfold execute_body. run_M.
  rewrite Hparse. simpl. fold ctx. rewrite Hvalid. simpl.
  fold argv. rewrite Hs. simpl. rewrite Hc. simpl.
  rewrite <- !app_assoc. done.
Qed.

Lemma execute_exits st communicate out err code :
  Popen w argv (subprocess_env w ctx) (working_dir ctx) = Spawns communicate →
  communicate (effective_timeout self ctx) = Exits out err code →
  ∃ parsed,
    (if negb (String.eqb out "") && bool_decide (output_format ≠ RAW)
     then _parse_output json_loads yaml_safe_load out output_format else Ret PNone) = Ret parsed
    ∧ execute json_loads yaml_safe_load self w command context output_format st
      = (mk_sys (trace st ++ [EvPopen argv (subprocess_env w ctx) (working_dir ctx);
                              EvCommunicate (Some (effective_timeout self ctx))])
                (S (S (ticks st))),
         Ret (mk_CommandResult (bool_decide (code = 0)) code out err
                (float_sub (clock w (S (ticks st))) (clock w (ticks st)))
                argv output_format parsed
                (if bool_decide (code = 0) then None
                 else Some (_get_error_message code err)))).
Proof.
  intros Hs Hc. rewrite execute_unfold. unfold execute_body. run_M.
  rewrite Hparse. simpl. fold ctx. rewrite Hvalid. simpl.
  fold argv. rewrite Hs. simpl. rewrite Hc. simpl.
  rewrite <- !app_assoc. simpl.
  replace (if negb (bool_decide (code = 0))
           then Some (_get_error_message code err) else None)
    with (if bool_decide (code = 0) then None
          else Some (_get_error_message code err))
    by (by destruct (bool_decide _)).
  destruct (negb (String.eqb out "") && bool_decide (output_format ≠ RAW)); simpl.
  - destruct (parse_output_returns out output_format) as [v Hv].
    rewrite Hv. simpl. by exists v.
  - by exists PNone.
Qed.

(** The wait raises, the kill raises or the collection after the kill
    raises: the [except Exception] clause turns each into the failure
    result. *)
Lemma execute_communicate_fails st communicate name msg :
  Popen w argv (subprocess_env w ctx) (working_dir ctx) = Spawns communicate →
  communicate (effective_timeout self ctx) = Fails name msg →
  execute json_loads yaml_safe_load self w command context output_format st
  = (mk_sys (trace st ++ [EvPopen argv (subprocess_env w ctx) (working_dir ctx);
                          EvCommunicate (Some (effective_timeout self ctx))])
            (S (S (ticks st))),
     Ret (failure_result (mk_exn (StdError name) msg)
            (float_sub (clock w (S (ticks st))) (clock w (ticks st)))
            command output_format)).
Proof.
  intros Hs Hc. rewrite execute_unfold. unfold execute_body. run_M.
  rewrite Hparse. simpl. fold ctx. rewrite Hvalid. simpl.
  fold argv. rewrite Hs. simpl. rewrite Hc. simpl.
  rewrite <- !app_assoc. done.
Qed.

Lemma execute_kill_fails st communicate name msg :
  Popen w argv (subprocess_env w ctx) (working_dir ctx) = Spawns communicate →
  communicate (effective_timeout self ctx) = HangsKillFails name msg →
  execute json_loads yaml_safe_load self w command context output_format st
  = (mk_sys (trace st ++ [EvPopen argv (subprocess_env w ctx) (working_dir ctx);
                          EvCommunicate (Some (effective_timeout self ctx));
                          EvKill])
            (S (S (ticks st))),
     Ret (failure_result (mk_exn (StdError name) msg)
            (float_sub (clock w (S (ticks st))) (clock w (ticks st)))
            command output_format)).
Proof.
  intros Hs Hc. rewrite execute_unfold. unfold execute_body. run_M.
  rewrite Hparse. simpl. fold ctx. rewrite Hvalid. simpl.
  fold argv. rewrite Hs. simpl. rewrite Hc. simpl.
  rewrite <- !app_assoc. done.
Qed.

Lemma execute_drain_fails st communicate name msg :
  Popen w argv (subprocess_env w ctx) (working_dir ctx) = Spawns communicate →
  communicate (effective_timeout self ctx) = HangsDrainFails name msg →
  execute json_loads yaml_safe_load self w command context output_format st
  = (mk_sys (trace st ++ [EvPopen argv (subprocess_env w ctx) (working_dir ctx);
                          EvCommunicate (Some (effective_timeout self ctx));
                          EvKill; EvCommunicate None])
            (S (S (ticks st))),
     Ret (failure_result (mk_exn (StdError name) msg)
            (float_sub (clock w (S (ticks st))) (clock w (ticks st)))
            command output_format)).
Proof.
  intros Hs Hc. rewrite execute_unfold. unfold execute_body. run_M.
  rewrite Hparse. simpl. fold ctx. rewrite Hvalid. simpl.
  fold argv. rewrite Hs. simpl. rewrite Hc. simpl.
  rewrite <- !app_assoc. done.
Qed.

End spawned.

(** What [execute] returns satisfies the invariant. *)
Lemma execute_return self w command context output_format st st' r :
  execute json_loads yaml_safe_load self w command context output_format st = (st', Ret r) →
  result_invariant r
  ∧ (exit_code r = 8 → error r ≠ Some "Timeout").
Proof.
  rewrite execute_unfold.
  pose proof (execute_body_run self w (clock w (ticks st)) command
                (context_or_default context) output_format (tick st)) as Hrun.
  destruct (execute_body _ _ _ _ _ _ _ _ _) as [st1 [r1|e1]]; simpl in Hrun.
  - intros [= -> ->]. inversion Hrun; subst. unfold result_invariant. simpl.
    destruct (decide (code = 0)) as [->|Hcode].
    + rewrite !bool_decide_true by done. split; [naive_solver | done].
    + rewrite !bool_decide_false by done. split; [naive_solver|]. intros ->.
      unfold _get_error_message. rewrite EXIT_CODES_table. simpl.
      intros [= Habs]. revert Habs.
      destruct (negb (String.eqb (PyStr.strip err) ""));
        cbv [String.append]; fold String.append; done.
  - case_decide; [done|]. intros [= _ <-].
    split; [apply failure_result_invariant | done].
Qed.

(** *** The batch *)

(** The result [execute_batch] reports for the [i]-th command. *)
Definition item_result (self : CLIExecutor) (output_format : OutputFormat)
    (commands : list string) (done : gmap nat (res CommandResult)) (i : nat)
    : CommandResult :=
  match done !! i with
  | None =>                                   (* the wait expired *)
      mk_CommandResult false 8 "" "Command timed out" (default_timeout self)
        [commands !!! i] output_format PNone (Some "Timeout")
  | Some (Ret r) => r
  | Some (Raise e) =>
      if decide (exc_type e = FutureTimeoutError) then
        mk_CommandResult false 8 "" "Command timed out" (default_timeout self)
          [commands !!! i] output_format PNone (Some "Timeout")
      else
        mk_CommandResult false (-1) "" (exc_str e) (float_of_str "0.0")
          [commands !!! i] output_format PNone (Some (exc_str e))
  end.

Lemma collect_results_map self output_format commands done futures :
  collect_results self output_format commands done futures
  = Ret (map (item_result self output_format commands done) futures).
Proof.
  induction futures as [|i futures IH]; [done|].
  simpl. rewrite IH. unfold item_result, future_result.
  destruct (done !! i) as [[r|[c msg]]|]; simpl; [done| |done].
  destruct c; done.
Qed.

Lemma run_pool_lookup self worlds context output_format commands completions i :
  run_pool json_loads yaml_safe_load self worlds context output_format commands completions !! i
  = if decide (i ∈ completions)
    then task_outcome json_loads yaml_safe_load self worlds context output_format i <$> commands !! i
    else None.
Proof.
  unfold run_pool.
  assert (Hgen : ∀ l (done : gmap nat (res CommandResult)),
    foldl (λ done i,
             match commands !! i with
             | Some cmd =>
                 <[i := task_outcome json_loads yaml_safe_load self worlds context output_format i cmd]> done
             | None => done
             end) done l !! i
    = match (if decide (i ∈ l)
             then task_outcome json_loads yaml_safe_load self worlds context output_format i <$> commands !! i
             else None) with
      | Some o => Some o
      | None => done !! i
      end).
  { induction l as [|j l IH]; intros done.
    - reflexivity.
    - simpl. rewrite IH. destruct (decide (i = j)) as [->|Hne].
      + rewrite (decide_True (P := j ∈ j :: l)) by set_solver.
        destruct (decide (j ∈ l)); destruct (commands !! j); simpl;
          rewrite ?lookup_insert_eq; done.
      + destruct (decide (i ∈ l)) as [Hin|Hnin].
        * rewrite (decide_True (P := i ∈ j :: l)) by set_solver.
          destruct (commands !! j); [|done]. by rewrite lookup_insert_ne.
        * destruct (decide (i ∈ j :: l)) as [Hc|_];
            [apply elem_of_cons in Hc; by destruct Hc|].
          destruct (commands !! j); [|done]. by rewrite lookup_insert_ne. }
  rewrite Hgen. rewrite lookup_empty.
  by destruct (if decide (i ∈ completions) then _ else _).
Qed.

Lemma run_pool_perm self worlds context output_format commands l1 l2 :
  l1 ≡ₚ l2 →
  run_pool json_loads yaml_safe_load self worlds context output_format commands l1
  = run_pool json_loads yaml_safe_load self worlds context output_format commands l2.
Proof.
  intros Hp. apply map_eq. intros i. rewrite !run_pool_lookup.
  destruct (decide (i ∈ l1)) as [Hin|Hnin].
  - rewrite decide_True; [done|]. by rewrite <- Hp.
  - rewrite decide_False; [done|]. by rewrite <- Hp.
Qed.

Lemma execute_batch_map self worlds completions commands context output_format :
  execute_batch json_loads yaml_safe_load self worlds completions commands context output_format
  = Ret (map (item_result self output_format commands
                (run_pool json_loads yaml_safe_load self worlds context output_format commands completions))
             (seq 0 (length commands))).
Proof. unfold execute_batch. apply collect_results_map. Qed.

Lemma task_outcome_raise self worlds context output_format i cmd e :
  task_outcome json_loads yaml_safe_load self worlds context output_format i cmd = Raise e →
  exc_type e = CommandTimeoutError.
Proof.
  unfold task_outcome.
  destruct (execute _ _ _ _ _ _ _ _) as [st' o] eqn:He. simpl. intros ->.
  apply execute_raise in He as [-> _]. done.
Qed.

(** The result reported for a command of the batch, by cases. *)
Lemma item_result_cases self worlds completions commands context output_format i cmd :
  commands !! i = Some cmd →
  let r := item_result self output_format commands
             (run_pool json_loads yaml_safe_load self worlds context output_format commands completions) i in
  ((i ∉ completions) ∧
   r = mk_CommandResult false 8 "" "Command timed out" (default_timeout self)
         [cmd] output_format PNone (Some "Timeout"))
  ∨ (i ∈ completions ∧
     task_outcome json_loads yaml_safe_load self worlds context output_format i cmd = Ret r)
  ∨ (i ∈ completions ∧ ∃ e,
     task_outcome json_loads yaml_safe_load self worlds context output_format i cmd = Raise e
     ∧ exc_type e = CommandTimeoutError
     ∧ r = mk_CommandResult false (-1) "" (exc_str e) (float_of_str "0.0")
             [cmd] output_format PNone (Some (exc_str e))).
Proof.
  intros Hi r. subst r. unfold item_result. rewrite run_pool_lookup, Hi.
  assert (Hcmd : commands !!! i = cmd).
  { by apply list_lookup_total_correct. }
  rewrite Hcmd.
  destruct (decide (i ∈ completions)) as [Hin|Hnin]; simpl; [|by left].
  right.
  destruct (task_outcome json_loads yaml_safe_load self worlds context output_format i cmd) as [r|e] eqn:Ho.
  - by left.
  - right. split; [done|]. exists e. split; [done|].
    pose proof (task_outcome_raise _ _ _ _ _ _ _ Ho) as Hc.
    split; [done|]. rewrite decide_False; [done | by rewrite Hc].
Qed.

(** *** The claims about the runner *)

(** C1. Every [CommandResult] that [execute] or [execute_batch] hands
    back has [success] true exactly when [exit_code] is 0 and [error]
    set exactly when [success] is false.  When the [try] block of
    [execute] raises anything but the timeout error, and when a task of
    the batch raises, the result has [exit_code] -1 and carries the
    exception's message in [error]. *)
Theorem command_result_invariant self w worlds completions commands command
    context output_format st :
  (∀ st' r,
     execute json_loads yaml_safe_load self w command context output_format st = (st', Ret r) →
     result_invariant r)
  ∧ (∀ results,
       execute_batch json_loads yaml_safe_load self worlds completions commands context output_format
       = Ret results →
       Forall result_invariant results)
  ∧ (∀ st1 e,
       execute_body json_loads yaml_safe_load self w (clock w (ticks st)) command
         (context_or_default context) output_format (tick st) = (st1, Raise e) →
       exc_type e ≠ CommandTimeoutError →
       ∃ st' r,
         execute json_loads yaml_safe_load self w command context output_format st = (st', Ret r)
         ∧ success r = false ∧ exit_code r = -1 ∧ error r = Some (exc_str e))
  ∧ (∀ results i cmd e,
       execute_batch json_loads yaml_safe_load self worlds completions commands context output_format
       = Ret results →
       commands !! i = Some cmd →
       i ∈ completions →
       task_outcome json_loads yaml_safe_load self worlds context output_format i cmd = Raise e →
       ∃ r, results !! i = Some r
            ∧ success r = false ∧ exit_code r = -1 ∧ error r = Some (exc_str e)).
Proof.
  split; [|split; [|split]].
  - intros st' r He. by apply execute_return in He as [? _].
  - intros results. rewrite execute_batch_map. intros [= <-].
    apply Forall_forall. intros r [i [-> Hi]]%list_elem_of_fmap.
    apply elem_of_seq in Hi as [_ Hi]. simpl in Hi.
    destruct (lookup_lt_is_Some_2 commands i Hi) as [cmd Hcmd].
    destruct (item_result_cases self worlds completions commands context
                output_format i cmd Hcmd)
      as [[_ ->]|[[_ Hr]|[_ (e & _ & _ & ->)]]].
    + unfold result_invariant; simpl; naive_solver.
    + unfold task_outcome in Hr.
      destruct (execute _ _ _ _ _ _ _ _) as [st' o] eqn:He. simpl in Hr. subst o.
      by apply execute_return in He as [? _].
    + unfold result_invariant; simpl; naive_solver.
  - intros st1 e Hb Hne. rewrite execute_unfold, Hb.
    rewrite decide_False by done. eauto 10.
  - intros results i cmd e. rewrite execute_batch_map. intros [= <-] Hcmd Hin Ho.
    destruct (item_result_cases self worlds completions commands context
                output_format i cmd Hcmd)
      as [[Hnin _]|[[_ Hr]|[_ (e' & He' & _ & Hres)]]]; [done|congruence|].
    rewrite Ho in He'. injection He' as <-.
    eexists. split.
    + rewrite list_lookup_fmap, lookup_seq_lt; [done|].
      by eapply lookup_lt_Some.
    + simpl. rewrite Hres. done.
Qed.

(** C3, as the code has it.  A command string that the parser or the
    validator rejects makes [execute] return, without any call on the
    subprocess module, the failure result: [success] false, [exit_code]
    -1, the rejection's message in [stderr] and in [error], and the
    original string as the only element of [command]. *)
Theorem execute_rejected_returns self w cmdline context output_format st e :
  (parse_command cmdline = Raise e
   ∨ ∃ cmd subcmd checkpoint_id args,
       parse_command cmdline = Ret (cmd, subcmd, checkpoint_id, args)
       ∧ validate_command cmd subcmd checkpoint_id
           (Some (context_or_default context)) = Raise e) →
  ∃ st' r,
    execute json_loads yaml_safe_load self w cmdline context output_format st = (st', Ret r)
    ∧ trace st' = trace st
    ∧ success r = false ∧ exit_code r = -1
    ∧ stdout r = "" ∧ stderr r = exc_str e
    ∧ error r = Some (exc_str e) ∧ command r = [cmdline].
Proof.
  intros Hrej. rewrite (execute_rejected _ _ _ _ _ _ _ Hrej).
  eexists _, _. split; [done|]. simpl. done.
Qed.


(** C6. [execute_batch] always returns, and what it returns has one
    result per command, the [i]-th result being the one of the [i]-th
    command: the result its [execute] returned, or a failed result with
    code -1 and the exception's message when its [execute] raised, or a
    failed result with code 8 when the wait on its future expired.  The
    order in which the tasks finish does not matter. *)
Theorem execute_batch_in_order self worlds completions commands context
    output_format :
  ∃ results,
    execute_batch json_loads yaml_safe_load self worlds completions commands context output_format
    = Ret results
    ∧ length results = length commands
    ∧ (∀ i cmd,
         commands !! i = Some cmd →
         ∃ r, results !! i = Some r
              ∧ (((i ∉ completions)
                  ∧ r = mk_CommandResult false 8 "" "Command timed out"
                          (default_timeout self) [cmd] output_format PNone
                          (Some "Timeout"))
                 ∨ (i ∈ completions
                    ∧ task_outcome json_loads yaml_safe_load self worlds context output_format i cmd
                      = Ret r)
                 ∨ (i ∈ completions
                    ∧ ∃ e,
                        task_outcome json_loads yaml_safe_load self worlds context output_format i cmd
                        = Raise e
                        ∧ r = mk_CommandResult false (-1) "" (exc_str e)
                                (float_of_str "0.0") [cmd] output_format PNone
                                (Some (exc_str e)))))
    ∧ (∀ completions',
         completions' ≡ₚ completions →
         execute_batch json_loads yaml_safe_load self worlds completions' commands context output_format
         = Ret results).
Proof.
  eexists. split; [apply execute_batch_map|]. split; [|split].
  - by rewrite length_map, length_seq.
  - intros i cmd Hcmd. eexists. split.
    + rewrite list_lookup_fmap, lookup_seq_lt; [done|].
      by eapply lookup_lt_Some.
    + simpl.
      destruct (item_result_cases self worlds completions commands context
                  output_format i cmd Hcmd)
        as [[? ->]|[[? ?]|[? (e & ? & ? & ->)]]]; eauto 10.
  - intros completions' Hperm. rewrite execute_batch_map.
    by rewrite (run_pool_perm _ _ _ _ _ _ _ Hperm).
Qed.

(** C10. In a batch, a command whose subprocess outlived the per-call
    timeout is reported, through the generic exception branch, with
    [exit_code] -1 and the message of the [CommandTimeoutError] in
    [error]; the result with [exit_code] 8 and [error] equal to
    [Timeout] is reported exactly for the commands on whose future the
    wait of the batch itself expired.  A batch with such a command
    exists. *)
Theorem batch_subprocess_timeout :
  (∀ self worlds completions commands context output_format results i cmd r,
     execute_batch json_loads yaml_safe_load self worlds completions commands context output_format
     = Ret results →
     commands !! i = Some cmd →
     results !! i = Some r →
     ((exit_code r = 8 ∧ error r = Some "Timeout") ↔ i ∉ completions)
     ∧ (∀ e,
          i ∈ completions →
          task_outcome json_loads yaml_safe_load self worlds context output_format i cmd = Raise e →
          exc_type e = CommandTimeoutError
          ∧ success r = false ∧ exit_code r = -1
          ∧ error r = Some (exc_str e)))
  ∧ (∃ self worlds completions commands context output_format results r msg,
       execute_batch json_loads yaml_safe_load self worlds completions commands context output_format
       = Ret results
       ∧ results !! 0%nat = Some r
       ∧ (∃ cmd, commands !! 0%nat = Some cmd
                 ∧ task_outcome json_loads yaml_safe_load self worlds context output_format 0 cmd
                   = Raise (mk_exn CommandTimeoutError msg))
       ∧ exit_code r = -1 ∧ exit_code r ≠ 8 ∧ error r = Some msg).
Proof.
  split.
  - intros self worlds completions commands context output_format results
      i cmd r. rewrite execute_batch_map. intros [= <-] Hcmd.
    rewrite list_lookup_fmap, lookup_seq_lt by (by eapply lookup_lt_Some).
    simpl. intros [= <-].
    destruct (item_result_cases self worlds completions commands context
                output_format i cmd Hcmd)
      as [[Hnin ->]|[[Hin Hr]|[Hin (e & He & Hc & ->)]]]; simpl.
    + split; [done|]. intros e Hin. done.
    + split.
      * split; [|done]. intros [H8 Herr]. exfalso.
        unfold task_outcome in Hr.
        destruct (execute _ _ _ _ _ _ _ _) as [st' o] eqn:Hex.
        simpl in Hr. subst o.
        apply execute_return in Hex as [_ Hex]. by apply Hex.
      * intros e _ He. congruence.
    + split.
      * split; [intros [? _]; done | done].
      * intros e' _ He'. rewrite He in He'. injection He' as <-. done.
  - set (self := mk_CLIExecutor "api-cli" (float_of_str "300.0") 4).
    set (w := mk_world ∅ (mk_Settings None None None)
                (λ _, float_of_str "0.0")
                (λ _ _ _, Spawns (λ _, Hangs "" ""))).
    assert (Hp : parse_command "list-projects"
                 = Ret ("list-projects", None, None, [])).
    { vm_compute. reflexivity. }
    assert (Hv : validate_command "list-projects" None None
                   (Some (context_or_default None)) = Ret ()).
    { vm_compute. reflexivity. }
    pose proof (execute_hangs self w "list-projects" None JSON _ _ _ _ Hp Hv
                  init _ "" "" eq_refl eq_refl) as Hex.
    assert (Ho : task_outcome json_loads yaml_safe_load self (λ _, w) None JSON 0 "list-projects"
                 = Raise (mk_exn CommandTimeoutError
                            (timeout_message
                               (effective_timeout self (context_or_default None))))).
    { unfold task_outcome. rewrite Hex. done. }
    exists self, (λ _, w), [0%nat], ["list-projects"], None, JSON.
    eexists _, _, _. split; [apply execute_batch_map|].
    split; [done|]. split; [eexists; split; [done | exact Ho]|].
    unfold item_result. rewrite run_pool_lookup. simpl.
    rewrite Ho. simpl. done.
Qed.

End runner_facts.

(** ** The [json] library: a plain value is read back as written *)

Section json_strings.
Context `{PyFloat}.
Import JSON.

Ltac lia_div := zify; Z.to_euclidean_division_equations; lia.

Lemma hex_value_digit d :
  (d < 16)%N → hex_value (hex_digit d) = Some d.
Proof.
  intros Hd.
  assert (Hcases : d ∈ [0;1;2;3;4;5;6;7;8;9;10;11;12;13;14;15]%N).
  { rewrite !elem_of_cons. lia. }
  rewrite !elem_of_cons in Hcases.
  destruct Hcases as [->|[->|[->|[->|[->|[->|[->|[->|[->|[->|[->|[->|[->|[->|[->|[->|Hn]]]]]]]]]]]]]]]];
    try reflexivity.
  by apply elem_of_nil in Hn.
Qed.

Lemma decode_hex4 n :
  (n < 65536)%N →
  ∃ a b c d, hex4 n = String a (String b (String c (String d "")))
             ∧ decode_uXXXX a b c d = Some n.
Proof.
  intros Hn. unfold hex4. eexists _, _, _, _. split; [reflexivity|].
  unfold decode_uXXXX.
  rewrite !hex_value_digit by (apply N.mod_lt; done).
  f_equal. clear -Hn. lia_div.
Qed.

Lemma lor_disjoint (a b k : N) :
  (b < 2 ^ k)%N → N.lor (a * 2 ^ k) b = (a * 2 ^ k + b)%N.
Proof.
  intros Hb.
  assert (Hland : N.land (a * 2 ^ k) b = 0%N).
  { apply N.bits_inj. intros i. rewrite N.land_spec, N.bits_0.
    destruct (N.lt_ge_cases i k) as [Hi|Hi].
    - by rewrite N.mul_pow2_bits_low.
    - destruct (N.eq_dec b 0%N) as [->|Hnz].
      + rewrite N.bits_0. apply andb_false_r.
      + rewrite (N.bits_above_log2 b i); [apply andb_false_r|].
        apply N.log2_lt_pow2; [lia|].
        eapply N.lt_le_trans; [exact Hb|]. apply N.pow_le_mono_r; lia. }
  rewrite <- N.lxor_lor by done. symmetry. by apply N.add_nocarry_lxor.
Qed.

(** The two halves written for a code point above the basic plane. *)
Definition high_half (n : N) : N :=
  N.lor 55296 (N.land (N.shiftr (n - 65536) 10) 1023).
Definition low_half (n : N) : N :=
  N.lor 56320 (N.land (n - 65536) 1023).

Lemma halves n :
  (65536 ≤ n < 1114112)%N →
  high_half n = (55296 + (n - 65536) / 1024)%N
  ∧ low_half n = (56320 + (n - 65536) mod 1024)%N.
Proof.
  intros Hn. unfold high_half, low_half.
  change 1023%N with (N.ones 10). rewrite !N.land_ones, N.shiftr_div_pow2.
  change (2 ^ 10)%N with 1024%N.
  assert (Hq : ((n - 65536) / 1024 < 1024)%N).
  { lia_div. }
  rewrite (N.mod_small _ 1024 Hq).
  change 55296%N with (54 * 2 ^ 10)%N. change 56320%N with (55 * 2 ^ 10)%N.
  rewrite !lor_disjoint; [done| |].
  - apply N.mod_lt. done.
  - done.
Qed.

Lemma join_halves n :
  (65536 ≤ n < 1114112)%N →
  is_high_surrogate (high_half n) = true
  ∧ is_low_surrogate (low_half n) = true
  ∧ (high_half n < 65536)%N ∧ (low_half n < 65536)%N
  ∧ join_surrogates (high_half n) (low_half n) = n.
Proof.
  intros Hn. destruct (halves n Hn) as [-> ->].
  assert (Hq : ((n - 65536) / 1024 < 1024)%N).
  { lia_div. }
  assert (Hr : ((n - 65536) mod 1024 < 1024)%N) by (by apply N.mod_lt).
  unfold is_high_surrogate, is_low_surrogate, join_surrogates.
  split; [apply andb_true_iff; split; apply N.leb_le; lia_div|].
  split; [apply andb_true_iff; split; apply N.leb_le; lia_div|].
  split; [lia_div|]. split; [lia_div|].
  rewrite N.shiftl_mul_pow2.
  replace (55296 + (n - 65536) / 1024 - 55296)%N
    with ((n - 65536) / 1024)%N by lia_div.
  replace (56320 + (n - 65536) mod 1024 - 56320)%N
    with ((n - 65536) mod 1024)%N by lia_div.
  rewrite lor_disjoint by done.
  change (2 ^ 10)%N with 1024%N. lia_div.
Qed.

(** [s] does not start with the escape of a low surrogate. *)
Definition head_safe (s : string) : bool :=
  match s with
  | String b (String u rest3) =>
      if Ascii.eqb b "092" && Ascii.eqb u "u" then
        match rest3 with
        | String l1 (String l2 (String l3 (String l4 _))) =>
            match decode_uXXXX l1 l2 l3 l4 with
            | Some uni2 => negb (is_low_surrogate uni2)
            | None => false
            end
        | _ => false
        end
      else true
  | _ => true
  end.

Lemma str_cons c s t : String c s ++ t = String c (s ++ t).
Proof. reflexivity. Qed.

Lemma str_nil t : "" ++ t = t.
Proof. reflexivity. Qed.

Lemma scanstring_u_single a b c d rest2 chunks uni :
  decode_uXXXX a b c d = Some uni →
  (is_high_surrogate uni = true → head_safe rest2 = true) →
  scanstring (String "092" (String "u" (String a (String b (String c (String d rest2))))))
    chunks
  = scanstring rest2 (chunks ++ [uni])%list.
Proof.
  intros Hd Hsafe. simpl. rewrite Hd.
  destruct rest2 as [|b' [|u' rest3]]; [done..|].
  destruct (is_high_surrogate uni) eqn:Hh; [|done].
  specialize (Hsafe eq_refl). simpl in Hsafe. simpl.
  destruct (Ascii.eqb b' "092" && Ascii.eqb u' "u") eqn:Hbu; [|done].
  destruct rest3 as [|l1 [|l2 [|l3 [|l4 rest4]]]]; try done.
  destruct (decode_uXXXX l1 l2 l3 l4) as [uni2|]; [|done].
  apply negb_true_iff in Hsafe. by rewrite Hsafe.
Qed.

Lemma scanstring_u_pair a b c d a' b' c' d' rest chunks hi lo :
  decode_uXXXX a b c d = Some hi →
  decode_uXXXX a' b' c' d' = Some lo →
  is_high_surrogate hi = true →
  is_low_surrogate lo = true →
  scanstring
    (String "092" (String "u" (String a (String b (String c (String d
      (String "092" (String "u" (String a' (String b' (String c' (String d'
         rest))))))))))))
    chunks
  = scanstring rest (chunks ++ [join_surrogates hi lo])%list.
Proof.
  intros Hd Hd' Hh Hl. simpl. rewrite Hd, Hh. simpl. rewrite Hd', Hl. done.
Qed.

Ltac norm_app := repeat (rewrite str_cons || rewrite str_nil).

Lemma scanstring_plain c rest chunks :
  N_of_ascii c ≠ 34%N → N_of_ascii c ≠ 92%N → (32 ≤ N_of_ascii c)%N →
  scanstring (String c rest) chunks
  = scanstring rest (chunks ++ [N_of_ascii c])%list.
Proof.
  intros H34 H92 H32. simpl.
  apply N.eqb_neq in H34, H92. rewrite H34, H92.
  assert (Hlt : (N_of_ascii c <? 32)%N = false) by (apply N.ltb_ge; lia).
  by rewrite Hlt.
Qed.

(** The shape of what the encoder writes for one code point. *)
Inductive escape_shape (n : N) : string → Prop :=
  | shape_plain :
      n ≠ 34%N → n ≠ 92%N → (32 ≤ n ≤ 126)%N →
      escape_shape n (String (ascii_of_N n) "")
  | shape_short e :
      e ≠ "u"%char → BACKSLASH e = Some n →
      escape_shape n (String "092" (String e ""))
  | shape_u a b c d :
      decode_uXXXX a b c d = Some n →
      escape_shape n
        (String "092" (String "u" (String a (String b (String c (String d ""))))))
  | shape_pair a b c d a' b' c' d' hi lo :
      decode_uXXXX a b c d = Some hi →
      decode_uXXXX a' b' c' d' = Some lo →
      is_high_surrogate hi = true →
      is_low_surrogate lo = true →
      join_surrogates hi lo = n →
      escape_shape n
        (String "092" (String "u" (String a (String b (String c (String d
           (String "092" (String "u" (String a' (String b' (String c' (String d'
              "")))))))))))).

Lemma escape_char_shape n :
  (n < 1114112)%N → escape_shape n (escape_char n).
Proof.
  intros Hn. unfold escape_char.
  destruct (N.eqb_spec n 34) as [->|?]; [by apply (shape_short 34 "034")|].
  destruct (N.eqb_spec n 92) as [->|?]; [by apply (shape_short 92 "092")|].
  destruct (N.eqb_spec n 10) as [->|?]; [by apply (shape_short 10 "n")|].
  destruct (N.eqb_spec n 13) as [->|?]; [by apply (shape_short 13 "r")|].
  destruct (N.eqb_spec n 9) as [->|?]; [by apply (shape_short 9 "t")|].
  destruct (N.eqb_spec n 12) as [->|?]; [by apply (shape_short 12 "f")|].
  destruct (N.eqb_spec n 8) as [->|?]; [by apply (shape_short 8 "b")|].
  destruct ((32 <=? n) && (n <=? 126))%N eqn:Hp.
  { apply andb_true_iff in Hp as [?%N.leb_le ?%N.leb_le]. by apply shape_plain. }
  destruct (N.ltb_spec n 65536) as [Hlt|Hge].
  - destruct (decode_hex4 n Hlt) as (a & b & c & d & -> & Hd).
    by apply shape_u.
  - assert (Hr : (65536 ≤ n < 1114112)%N) by lia.
    destruct (join_halves n Hr) as (Hh & Hl & Hhi & Hlo & Hj).
    destruct (decode_hex4 _ Hhi) as (a & b & c & d & Ea & Hd).
    destruct (decode_hex4 _ Hlo) as (a' & b' & c' & d' & Ea' & Hd').
    unfold high_half in Ea. unfold low_half in Ea'. simpl. rewrite Ea, Ea'.
    eapply shape_pair; eauto.
Qed.

Lemma escape_char_step n T chunks :
  (n < 1114112)%N →
  (is_high_surrogate n = true → head_safe T = true) →
  scanstring (escape_char n ++ T) chunks = scanstring T (chunks ++ [n])%list.
Proof.
  intros Hn Hsafe.
  destruct (escape_char_shape n Hn)
    as [? ? Hr|e He Hb|a b c d Hd|a b c d a' b' c' d' hi lo Hd Hd' Hh Hl Hj];
    norm_app.
  - rewrite scanstring_plain; rewrite N_ascii_embedding by lia; first [done | lia].
  - simpl. apply Ascii.eqb_neq in He. rewrite He. simpl. by rewrite Hb.
  - by apply scanstring_u_single.
  - rewrite <- Hj. by apply scanstring_u_pair.
Qed.

Lemma head_safe_escape n T :
  (n < 1114112)%N → is_low_surrogate n = false →
  head_safe (escape_char n ++ T) = true.
Proof.
  intros Hn Hlow.
  destruct (escape_char_shape n Hn)
    as [? ? Hr|e He Hb|a b c d Hd|a b c d a' b' c' d' hi lo Hd Hd' Hh Hl Hj];
    norm_app.
  - simpl. destruct T; [done|].
    destruct (Ascii.eqb_spec (ascii_of_N n) "092") as [Heq|?]; [|done].
    exfalso. apply (f_equal N_of_ascii) in Heq.
    rewrite N_ascii_embedding in Heq by lia. simpl in Heq. lia.
  - simpl. apply Ascii.eqb_neq in He. by rewrite He.
  - simpl. by rewrite Hd, Hlow.
  - simpl. rewrite Hd.
    unfold is_high_surrogate in Hh. unfold is_low_surrogate.
    apply andb_true_iff in Hh as [_ ?%N.leb_le].
    apply negb_true_iff, andb_false_iff. left. apply N.leb_gt. lia.
Qed.

(** The scanner reads back what the encoder wrote between the quotes. *)
Lemma scanstring_escape_chars s : ∀ chunks rest,
  text_ok s = true →
  scanstring (escape_chars s ++ dq ++ rest) chunks = Ret ((chunks ++ s)%list, rest).
Proof.
  induction s as [|n s IH]; intros chunks rest Hok.
  - simpl. norm_app. simpl. by rewrite app_nil_r.
  - unfold text_ok in Hok. simpl in Hok.
    apply andb_true_iff in Hok as [Hcp Hpair].
    apply andb_true_iff in Hcp as [Hn%N.ltb_lt Hcp].
    apply andb_true_iff in Hpair as [Hadj Hpair].
    simpl. rewrite str_app_assoc, escape_char_step; [| done |].
    + rewrite IH; [by rewrite <- app_assoc|].
      unfold text_ok. by rewrite Hcp, Hpair.
    + intros Hh. destruct s as [|n' s'].
      * simpl. norm_app. by destruct rest.
      * simpl. rewrite str_app_assoc. simpl in Hcp.
        apply andb_true_iff in Hcp as [Hn'%N.ltb_lt _].
        apply head_safe_escape; [done|].
        rewrite Hh in Hadj. simpl in Hadj. by apply negb_true_iff in Hadj.
Qed.

End json_strings.

Lemma str_length_app (a b : string) :
  String.length (a ++ b) = (String.length a + String.length b)%nat.
Proof.
  induction a as [|c a IH]; [done|]. rewrite str_cons. simpl. by rewrite IH.
Qed.

Lemma str_app_nil_r (a : string) : a ++ "" = a.
Proof. induction a as [|c a IH]; [done|]. rewrite str_cons. by rewrite IH. Qed.

(** What CPython guarantees of a float that is a number: [repr] writes
    it as a JSON number with a fraction or an exponent, and [float] reads
    that text back as the same float.  A float equal to an infinity is
    that infinity. *)
Class PyFloatLaws `{PyFloat} : Prop := {
  float_repr_literal x :
    float_eqb x x = true →
    float_eqb x (float_of_str "inf") = false →
    float_eqb x (float_of_str "-inf") = false →
    JSON.float_literal (float_repr x) = true;
  float_of_repr x :
    float_eqb x x = true →
    float_eqb x (float_of_str "inf") = false →
    float_eqb x (float_of_str "-inf") = false →
    float_of_str (float_repr x) = x;
  float_inf x :
    float_eqb x (float_of_str "inf") = true → x = float_of_str "inf";
  float_neg_inf x :
    float_eqb x (float_of_str "-inf") = true → x = float_of_str "-inf"
}.

Section json_numbers.
Context `{PyFloat} `{limits : Interpreter}.
Import JSON.

(** The text after a value written by the encoder: nothing, or a comma,
    a closing bracket or a closing brace. *)
Definition delimited (rest : string) : bool :=
  match rest with
  | String c _ => Ascii.eqb c "," || Ascii.eqb c "]" || Ascii.eqb c "}"
  | EmptyString => true
  end.

Lemma delimited_facts rest :
  delimited rest = true →
  span_digits rest = ("", rest)
  ∧ match_frac rest = ("", rest)
  ∧ match_exp rest = ("", rest)
  ∧ skip_ws rest = rest.
Proof.
  destruct rest as [|c rest]; [done|]. simpl.
  intros [[Hc|Hc]%orb_true_iff|Hc]%orb_true_iff;
    apply Ascii.eqb_eq in Hc; subst c; done.
Qed.

Lemma span_digits_uint d rest :
  span_digits rest = ("", rest) →
  span_digits (NilEmpty.string_of_uint d ++ rest)
  = (NilEmpty.string_of_uint d, rest).
Proof.
  intros Hrest. induction d; simpl; rewrite ?str_cons, ?str_nil; [done|..];
    simpl; by rewrite IHd.
Qed.

(** A positive number is written without a leading zero. *)
Lemma to_uint_head p :
  ∃ c digits,
    NilEmpty.string_of_uint (Pos.to_uint p) = String c (NilEmpty.string_of_uint digits)
    ∧ is_digit c = true ∧ c ≠ "0"%char ∧ c ≠ "-"%char.
Proof.
  assert (Hnorm : Decimal.unorm (Pos.to_uint p) = Pos.to_uint p).
  { rewrite <- Unsigned.to_of, Unsigned.of_to. reflexivity. }
  pose proof (Unsigned.to_uint_nonzero p) as Hnz.
  destruct (Pos.to_uint p) as [|d|d|d|d|d|d|d|d|d|d] eqn:E;
    try (by eexists _, d).
  - by destruct (Unsigned.to_uint_nonnil p).
  - exfalso. rewrite unorm_D0 in Hnorm.
    destruct (Decimal.nzhead d) eqn:Hh.
    + unfold Decimal.unorm in Hnorm. rewrite Hh in Hnorm.
      injection Hnorm as <-. by apply Hnz.
    + rewrite unorm_nzhead in Hnorm by (by rewrite Hh).
      by apply nzhead_nonzero in Hnorm.
    + rewrite unorm_nzhead in Hnorm by (by rewrite Hh). congruence.
    + rewrite unorm_nzhead in Hnorm by (by rewrite Hh). congruence.
    + rewrite unorm_nzhead in Hnorm by (by rewrite Hh). congruence.
    + rewrite unorm_nzhead in Hnorm by (by rewrite Hh). congruence.
    + rewrite unorm_nzhead in Hnorm by (by rewrite Hh). congruence.
    + rewrite unorm_nzhead in Hnorm by (by rewrite Hh). congruence.
    + rewrite unorm_nzhead in Hnorm by (by rewrite Hh). congruence.
    + rewrite unorm_nzhead in Hnorm by (by rewrite Hh). congruence.
    + rewrite unorm_nzhead in Hnorm by (by rewrite Hh). congruence.
Qed.

Lemma string_of_to_uint p :
  NilZero.string_of_uint (Pos.to_uint p) = NilEmpty.string_of_uint (Pos.to_uint p).
Proof.
  pose proof (Unsigned.to_uint_nonnil p). by destruct (Pos.to_uint p).
Qed.

Lemma parse_int_of_int n : parse_int (PyStr.of_int n) = n.
Proof.
  unfold parse_int, PyStr.of_int.
  rewrite NilZero.isi.
  - apply DecimalZ.of_to.
  - destruct n; simpl; [done| |done].
    intros [= Hp]. by apply (Unsigned.to_uint_nonnil p).
  - destruct n; simpl; [done|done|].
    intros [= Hp]. by apply (Unsigned.to_uint_nonnil p).
Qed.

Lemma match_integer_of_int n rest :
  span_digits rest = ("", rest) →
  match_integer (PyStr.of_int n ++ rest) = Some (PyStr.of_int n, rest).
Proof.
  intros Hrest. unfold PyStr.of_int. destruct n as [|p|p]; simpl.
  - reflexivity.
  - rewrite string_of_to_uint.
    destruct (to_uint_head p) as (c & digits & -> & Hd & H0 & Hm).
    rewrite str_cons. unfold match_integer.
    apply Ascii.eqb_neq in H0, Hm. rewrite Hm, H0, Hd.
    by rewrite span_digits_uint.
  - rewrite string_of_to_uint.
    destruct (to_uint_head p) as (c & digits & -> & Hd & H0 & Hm).
    rewrite !str_cons. unfold match_integer. simpl.
    apply Ascii.eqb_neq in H0. rewrite H0, Hd.
    by rewrite span_digits_uint.
Qed.

Lemma int_digits_length text :
  (int_digits text ≤ N.of_nat (String.length text))%N.
Proof.
  destruct text as [|c r]; [done|]. unfold int_digits.
  destruct (Ascii.eqb c "-"); simpl String.length; lia.
Qed.

(** An integer that the encoder could write is read back. *)
Lemma long_from_string_repr n text :
  int_repr n = Ret text → text = PyStr.of_int n ∧ long_from_string text = Ret n.
Proof.
  unfold int_repr, long_from_string.
  pose proof (int_digits_length (PyStr.of_int n)) as Hle.
  destruct ((640 <? N.of_nat (String.length (PyStr.of_int n)))%N
            && (0 <? int_max_str_digits)%N
            && (int_max_str_digits <? int_digits (PyStr.of_int n))%N) eqn:Hlim;
    [done|].
  intros [= <-]. split; [done|].
  destruct ((640 <? int_digits (PyStr.of_int n))%N && (0 <? int_max_str_digits)%N
            && (int_max_str_digits <? int_digits (PyStr.of_int n))%N) eqn:Hlim'.
  - exfalso. apply andb_true_iff in Hlim' as [[Ha Hb]%andb_true_iff Hc].
    apply N.ltb_lt in Ha. rewrite Hb, Hc, !andb_true_r in Hlim.
    apply N.ltb_ge in Hlim. lia.
  - by rewrite parse_int_of_int.
Qed.

Lemma span_digits_app s : ∀ d r rest,
  span_digits s = (d, r) → span_digits rest = ("", rest) →
  span_digits (s ++ rest) = (d, r ++ rest) ∧ s = d ++ r.
Proof.
  induction s as [|c s IH]; intros d r rest Hs Hrest.
  - injection Hs as <- <-. done.
  - rewrite str_cons. simpl in Hs |- *. destruct (is_digit c).
    + destruct (span_digits s) as [d' r'] eqn:Hd. injection Hs as <- <-.
      destruct (IH d' r' rest eq_refl Hrest) as [-> ->]. done.
    + injection Hs as <- <-. done.
Qed.

Lemma match_integer_app s integer s1 rest :
  match_integer s = Some (integer, s1) → span_digits rest = ("", rest) →
  match_integer (s ++ rest) = Some (integer, s1 ++ rest)
  ∧ s = integer ++ s1
  ∧ ∃ c s', s = String c s' ∧ (is_digit c = true ∨ c = "-"%char).
Proof.
  intros Hm Hrest.
  assert (Hbody : ∀ sign t,
            match t with
            | String c r =>
                if Ascii.eqb c "0" then Some (sign ++ "0", r)
                else if is_digit c then
                  let '(digits, r') := span_digits r in
                  Some (sign ++ String c digits, r')
                else None
            | EmptyString => None
            end = Some (integer, s1) →
            match t ++ rest with
            | String c r =>
                if Ascii.eqb c "0" then Some (sign ++ "0", r)
                else if is_digit c then
                  let '(digits, r') := span_digits r in
                  Some (sign ++ String c digits, r')
                else None
            | EmptyString => None
            end = Some (integer, s1 ++ rest)
            ∧ sign ++ t = integer ++ s1
            ∧ ∃ c t', t = String c t' ∧ is_digit c = true).
  { intros sign [|c r]; [done|]. rewrite str_cons.
    destruct (Ascii.eqb c "0") eqn:Hz.
    - intros [= <- <-]. apply Ascii.eqb_eq in Hz as ->.
      split; [done|]. split; [by rewrite str_app_assoc|]. by eexists _, _.
    - destruct (is_digit c) eqn:Hd; [|done].
      destruct (span_digits r) as [d r'] eqn:Hsp. intros [= <- <-].
      destruct (span_digits_app r d r' rest Hsp Hrest) as [-> ->].
      split; [done|]. split; [by rewrite str_app_assoc|]. by eexists _, _. }
  unfold match_integer in Hm |- *. destruct s as [|c r]; [done|].
  rewrite str_cons. destruct (Ascii.eqb c "-") eqn:Hsign.
  - apply Ascii.eqb_eq in Hsign as ->.
    destruct (Hbody "-" r Hm) as (-> & Hsplit & _).
    split; [done|]. split; [done|]. eexists _, _. split; [done|]. by right.
  - destruct (Hbody "" (String c r) Hm) as (Hre & Hsplit & c' & t' & [= <- <-] & Hd).
    rewrite str_cons in Hre. rewrite Hre.
    split; [done|]. split; [done|]. eexists _, _. split; [done|]. by left.
Qed.

Lemma match_frac_app s frac s2 rest :
  match_frac s = (frac, s2) → delimited rest = true →
  match_frac (s ++ rest) = (frac, s2 ++ rest) ∧ s = frac ++ s2.
Proof.
  intros Hm Hrest.
  destruct (delimited_facts rest Hrest) as (Hspan & Hfrac & _).
  destruct s as [|c r].
  - injection Hm as <- <-. done.
  - rewrite str_cons. simpl in Hm |- *. destruct (Ascii.eqb c ".").
    + destruct (span_digits r) as [d r'] eqn:Hsp.
      destruct (span_digits_app r d r' rest Hsp Hspan) as [-> ->].
      destruct (String.eqb d ""); injection Hm as <- <-; done.
    + injection Hm as <- <-. done.
Qed.

Lemma match_exp_app s exp s3 rest :
  match_exp s = (exp, s3) → delimited rest = true →
  match_exp (s ++ rest) = (exp, s3 ++ rest) ∧ s = exp ++ s3.
Proof.
  intros Hm Hrest.
  destruct (delimited_facts rest Hrest) as (Hspan & _ & Hexp & _).
  destruct s as [|e r].
  - injection Hm as <- <-. done.
  - rewrite str_cons. simpl in Hm |- *.
    destruct (Ascii.eqb e "e" || Ascii.eqb e "E"); [|by injection Hm as <- <-].
    assert (Hsign : ∀ sign r1,
              match r with
              | String c r1 =>
                  if Ascii.eqb c "-" || Ascii.eqb c "+" then (String c "", r1)
                  else ("", r)
              | EmptyString => ("", r)
              end = (sign, r1) →
              match r ++ rest with
              | String c r1 =>
                  if Ascii.eqb c "-" || Ascii.eqb c "+" then (String c "", r1)
                  else ("", r ++ rest)
              | EmptyString => ("", r ++ rest)
              end = (sign, r1 ++ rest) ∧ r = sign ++ r1).
    { intros sign r1. destruct r as [|c r'].
      - intros [= <- <-]. rewrite str_nil. split; [|done].
        destruct rest as [|c rest']; [done|]. simpl in Hrest.
        apply orb_true_iff in Hrest as [[Hc|Hc]%orb_true_iff|Hc];
          apply Ascii.eqb_eq in Hc; subst c; done.
      - rewrite str_cons.
        destruct (Ascii.eqb c "-" || Ascii.eqb c "+"); intros [= <- <-]; done. }
    destruct (match r with
              | String c r1 =>
                  if Ascii.eqb c "-" || Ascii.eqb c "+" then (String c "", r1)
                  else ("", r)
              | EmptyString => ("", r)
              end) as [sign r1] eqn:Hs.
    destruct (Hsign sign r1 eq_refl) as [-> ->].
    destruct (span_digits r1) as [d r2] eqn:Hsp.
    destruct (span_digits_app r1 d r2 rest Hsp Hspan) as [-> ->].
    destruct (String.eqb d ""); injection Hm as <- <-.
    + done.
    + split; [done|]. by rewrite str_cons, str_app_assoc.
Qed.

(** The first character of a written integer: a digit or the sign. *)
Lemma of_int_head n :
  ∃ c s, PyStr.of_int n = String c s
         ∧ (is_digit c = true ∨ c = "-"%char).
Proof.
  unfold PyStr.of_int. destruct n as [|p|p]; simpl.
  - eexists _, _. split; [reflexivity|]. by left.
  - rewrite string_of_to_uint.
    destruct (to_uint_head p) as (c & digits & -> & Hd & _).
    eexists _, _. split; [reflexivity|]. by left.
  - eexists _, _. split; [reflexivity|]. by right.
Qed.

End json_numbers.

Section json_roundtrip.
Context `{PyFloat} `{limits : Interpreter} `{!PyFloatLaws}.
Import JSON.

(** The text the encoder writes when nothing stops it. *)
Definition written_key (k : pykey) : ustr :=
  match k with
  | KStr s => s
  | KFloat x => ustr_of_string (floatstr x)
  | KBool true => ustr_of_string "true"
  | KBool false => ustr_of_string "false"
  | KNone => ustr_of_string "null"
  | KInt n => ustr_of_string (PyStr.of_int n)
  end.

Fixpoint written (o : pyval) : string :=
  match o with
  | PStr s => encode_basestring_ascii s
  | PNone => "null"
  | PBool true => "true"
  | PBool false => "false"
  | PInt n => PyStr.of_int n
  | PFloat x => floatstr x
  | PList items =>
      match items with
      | [] => "[]"
      | _ => "[" ++ PyStr.join ", " (map written items) ++ "]"
      end
  | PDict items =>
      match items with
      | [] => "{}"
      | _ =>
          "{" ++ PyStr.join ", "
                   (map (λ kv, encode_basestring_ascii (written_key kv.1)
                               ++ ": " ++ written kv.2) items)
          ++ "}"
      end
  end.

(** The values the scanner reads back from their text when it may enter
    [depth] containers: the plain values nested no deeper, whose
    integers are within the limit on digits. *)
Fixpoint readable (depth : nat) (o : pyval) {struct o} : bool :=
  match o with
  | PNone | PBool _ => true
  | PInt n =>
      match long_from_string (PyStr.of_int n) with
      | Ret _ => true
      | Raise _ => false
      end
  | PFloat x => float_eqb x x
  | PStr s => text_ok s
  | PList items =>
      match depth with
      | O => false
      | S depth => forallb (readable depth) items
      end
  | PDict items =>
      match depth with
      | O => false
      | S depth =>
          forallb (λ kv, match kv.1 with
                         | KStr k => text_ok k
                         | _ => false
                         end && readable depth kv.2) items
          && bool_decide (NoDup (str_keys items))
      end
  end.

Lemma pyval_nested_ind (P : pyval → Prop) :
  P PNone → (∀ b, P (PBool b)) → (∀ n, P (PInt n)) → (∀ x, P (PFloat x)) →
  (∀ s, P (PStr s)) →
  (∀ items, Forall P items → P (PList items)) →
  (∀ items, Forall (λ kv, P kv.2) items → P (PDict items)) →
  ∀ o, P o.
Proof.
  intros HNone HBool HInt HFloat HStr HList HDict.
  fix IH 1. intros [| b | n | x | s | items | items].
  - exact HNone.
  - apply HBool.
  - apply HInt.
  - apply HFloat.
  - apply HStr.
  - apply HList. induction items as [|o items IHitems]; constructor;
      [apply IH | exact IHitems].
  - apply HDict. induction items as [|[k o] items IHitems]; constructor;
      [apply IH | exact IHitems].
Qed.

Lemma mapM_Ret {A B} (f : A → res B) l : ∀ ys,
  mapM f l = Ret ys ↔ Forall2 (λ x y, f x = Ret y) l ys.
Proof.
  induction l as [|x l IH]; intros ys.
  - split.
    + intros [= <-]. constructor.
    + intros ->%Forall2_nil_inv_l. done.
  - change (mapM f (x :: l)) with (y ← f x; k ← mapM f l; mret (y :: k)).
    split.
    + destruct (f x) as [y|e] eqn:Hx; [|done].
      destruct (mapM f l) as [ys'|e] eqn:Hl; [|done].
      intros [= <-]. constructor; [done|]. by apply IH.
    + intros (y & ys' & Hx & Hl & ->)%Forall2_cons_inv_l.
      apply IH in Hl. by rewrite Hx, Hl.
Qed.

(** What the encoder returns is the text of the value, and the value is
    readable wherever its nesting fits. *)
Lemma encode_written o : ∀ e d s,
  plain o = true → encode e o = Ret s → (nesting o ≤ d)%nat →
  s = written o ∧ readable d o = true.
Proof.
  induction o as [| b | n | x | t | items IH | items IH] using pyval_nested_ind;
    intros e d s Hplain Hs Hd.
  - by injection Hs as <-.
  - destruct b; by injection Hs as <-.
  - simpl in Hs. apply long_from_string_repr in Hs as [-> Hr].
    simpl. by rewrite Hr.
  - by injection Hs as <-.
  - by injection Hs as <-.
  - destruct e as [|e]; [done|]. destruct d as [|d]; [simpl in Hd; lia|].
    simpl in Hd. apply le_S_n in Hd.
    assert (Hitems : ∀ texts,
              mapM (encode e) items = Ret texts →
              texts = map written items
              ∧ forallb (readable d) items = true).
    { clear Hs. simpl in Hplain. revert IH Hplain Hd.
      induction items as [|o items IHitems]; intros IH Hplain Hd texts Hm;
        apply mapM_Ret in Hm.
      - by apply Forall2_nil_inv_l in Hm as ->.
      - apply Forall2_cons_inv_l in Hm as (text & texts' & Ho & Hm & ->).
        apply Forall_cons in IH as [IHo IH].
        simpl in Hplain. apply andb_true_iff in Hplain as [Hpo Hplain].
        simpl in Hd.
        destruct (IHo e d text Hpo Ho ltac:(lia)) as [-> Hro].
        destruct (IHitems IH Hplain ltac:(lia) texts') as [-> Hritems].
        { by apply mapM_Ret. }
        simpl. by rewrite Hro, Hritems. }
    destruct items as [|o items]; [by injection Hs as <-|].
    change (encode (S e) (PList (o :: items)))
      with (texts ← mapM (encode e) (o :: items);
            Ret ("[" ++ PyStr.join ", " texts ++ "]")) in Hs.
    unfold mbind at 1, res_bind at 1 in Hs.
    destruct (mapM (encode e) (o :: items)) as [texts|err] eqn:Hm; [|done].
    injection Hs as <-. destruct (Hitems texts eq_refl) as [-> Hr].
    done.
  - destruct e as [|e]; [done|]. destruct d as [|d]; [simpl in Hd; lia|].
    simpl in Hd. apply le_S_n in Hd.
    simpl in Hplain. apply andb_true_iff in Hplain as [Hplain Hnd].
    set (item := λ kv : pykey * pyval,
                   key ← key_text kv.1; value ← encode e kv.2;
                   Ret (encode_basestring_ascii key ++ ": " ++ value)).
    assert (Hitems : ∀ texts,
              mapM item items = Ret texts →
              texts = map (λ kv, encode_basestring_ascii (written_key kv.1)
                                 ++ ": " ++ written kv.2) items
              ∧ forallb (λ kv, match kv.1 with
                               | KStr k => text_ok k
                               | _ => false
                               end && readable d kv.2) items = true).
    { clear Hs Hnd. revert IH Hplain Hd.
      induction items as [|[k o] items IHitems]; intros IH Hplain Hd texts Hm;
        apply mapM_Ret in Hm.
      - by apply Forall2_nil_inv_l in Hm as ->.
      - apply Forall2_cons_inv_l in Hm as (text & texts' & Ho & Hm & ->).
        apply Forall_cons in IH as [IHo IH].
        simpl in Hplain. apply andb_true_iff in Hplain as [Hpo Hplain].
        apply andb_true_iff in Hpo as [Hk Hpo].
        destruct k as [| | | |k]; try done.
        simpl in Hd, IHo.
        unfold item in Ho. simpl in Ho. unfold mbind, res_bind in Ho.
        destruct (encode e o) as [value|err] eqn:Hv; [|done].
        injection Ho as <-.
        destruct (IHo e d value Hpo Hv ltac:(lia)) as [-> Hro].
        destruct (IHitems IH Hplain ltac:(lia) texts') as [-> Hritems].
        { by apply mapM_Ret. }
        simpl. by rewrite Hk, Hro, Hritems. }
    destruct items as [|kv items]; [by injection Hs as <-|].
    change (encode (S e) (PDict (kv :: items)))
      with (texts ← mapM item (kv :: items);
            Ret ("{" ++ PyStr.join ", " texts ++ "}")) in Hs.
    unfold mbind at 1, res_bind at 1 in Hs.
    destruct (mapM item (kv :: items)) as [texts|err] eqn:Hm; [|done].
    injection Hs as <-. destruct (Hitems texts eq_refl) as [-> Hr].
    split; [done|]. cbn [readable]. by rewrite Hr, Hnd.
Qed.

(** The number of nested calls a scan of [written o] makes at most. *)
Fixpoint cost (o : pyval) : nat :=
  match o with
  | PList items => S (list_sum (map (λ x, S (cost x)) items))
  | PDict items => S (list_sum (map (λ kv, S (cost kv.2)) items))
  | _ => 1
  end.

(** The branch of [scan_once] for numbers and constants. *)
Definition scan_number (s : string) : scanned :=
  match match_integer s with
  | Some (integer, s1) =>
      let '(frac, s2) := match_frac s1 in
      let '(exp, s3) := match_exp s2 in
      if negb (String.eqb frac "") || negb (String.eqb exp "")
      then Found (PFloat (float_of_str (integer ++ frac ++ exp))) s3
      else
        match long_from_string integer with
        | Ret n => Found (PInt n) s3
        | Raise e => Failed e
        end
  | None =>
      if PyStr.startswith s "NaN"
      then Found (PFloat (float_of_str "nan")) (PyStr.drop 3 s)
      else if PyStr.startswith s "Infinity"
      then Found (PFloat (float_of_str "inf")) (PyStr.drop 8 s)
      else if PyStr.startswith s "-Infinity"
      then Found (PFloat (float_of_str "-inf")) (PyStr.drop 9 s)
      else StopIteration
  end.

Lemma scan_once_number fuel depth c s :
  is_digit c = true ∨ c = "-"%char →
  scan_once (S fuel) depth (String c s) = scan_number (String c s).
Proof.
  intros [Hd| ->]; [|reflexivity].
  destruct c as [[] [] [] [] [] [] [] []]; try discriminate Hd; reflexivity.
Qed.

Lemma scan_once_int fuel depth n rest :
  long_from_string (PyStr.of_int n) = Ret n →
  delimited rest = true →
  scan_once (S fuel) depth (PyStr.of_int n ++ rest) = Found (PInt n) rest.
Proof.
  intros Hn Hrest.
  destruct (delimited_facts rest Hrest) as (Hspan & Hfrac & Hexp & _).
  destruct (of_int_head n) as (c & s & Hs & Hc).
  pose proof (match_integer_of_int n rest Hspan) as Hm.
  rewrite Hs in Hm |- * at 1. rewrite str_cons in Hm |- *.
  rewrite scan_once_number by done. unfold scan_number.
  rewrite Hm, Hfrac, Hexp. simpl. by rewrite <- Hs, Hn.
Qed.

(** A float literal followed by a delimiter is read as the float of its
    text. *)
Lemma scan_number_float s rest :
  float_literal s = true → delimited rest = true →
  scan_number (s ++ rest) = Found (PFloat (float_of_str s)) rest
  ∧ ∃ c s', s = String c s' ∧ (is_digit c = true ∨ c = "-"%char).
Proof.
  intros Hlit Hrest. unfold float_literal in Hlit.
  destruct (delimited_facts rest Hrest) as (Hspan & _).
  destruct (match_integer s) as [[integer s1]|] eqn:Hi; [|done].
  destruct (match_frac s1) as [frac s2] eqn:Hf.
  destruct (match_exp s2) as [exp s3] eqn:He.
  apply andb_true_iff in Hlit as [Hfe Hend]. apply String.eqb_eq in Hend.
  subst s3.
  destruct (match_integer_app s integer s1 rest Hi Hspan) as (Hi' & Hs & Hhead).
  destruct (match_frac_app s1 frac s2 rest Hf Hrest) as (Hf' & Hs1).
  destruct (match_exp_app s2 exp "" rest He Hrest) as (He' & Hs2).
  split; [|done]. unfold scan_number.
  rewrite Hi', Hf', He', Hfe, str_nil.
  rewrite Hs, Hs1, Hs2, str_app_nil_r. done.
Qed.

Lemma floatstr_cases x :
  float_eqb x x = true →
  (floatstr x = "Infinity" ∧ x = float_of_str "inf")
  ∨ (floatstr x = "-Infinity" ∧ x = float_of_str "-inf")
  ∨ (floatstr x = float_repr x ∧ float_literal (float_repr x) = true
     ∧ float_of_str (float_repr x) = x).
Proof.
  intros Hx. unfold floatstr. rewrite Hx. simpl.
  destruct (float_eqb x (float_of_str "inf")) eqn:Hinf.
  { left. split; [done|]. by apply float_inf. }
  destruct (float_eqb x (float_of_str "-inf")) eqn:Hninf.
  { right. left. split; [done|]. by apply float_neg_inf. }
  right. right. split; [done|].
  split; [by apply float_repr_literal | by apply float_of_repr].
Qed.

Lemma scan_once_float fuel depth x rest :
  float_eqb x x = true → delimited rest = true →
  scan_once (S fuel) depth (floatstr x ++ rest) = Found (PFloat x) rest.
Proof.
  intros Hx Hrest.
  destruct (floatstr_cases x Hx) as [[-> Hv]|[[-> Hv]|(-> & Hlit & Hv)]].
  - rewrite Hv. by destruct rest.
  - rewrite Hv. by destruct rest.
  - destruct (scan_number_float _ rest Hlit Hrest) as (Hscan & c & s' & Hs & Hc).
    rewrite Hs at 1. rewrite str_cons, scan_once_number by done.
    rewrite <- str_cons, <- Hs, Hscan, Hv. done.
Qed.

(** A value is written with a first character that is neither white
    space nor a closing bracket. *)
Definition value_head (s : string) : bool :=
  match s with
  | String c _ =>
      negb (PyStr.char_in c WHITESPACE_STR) && negb (Ascii.eqb c "]")
  | EmptyString => false
  end.

Lemma value_head_number c s :
  is_digit c = true ∨ c = "-"%char → value_head (String c s) = true.
Proof.
  intros [Hd| ->]; [|done].
  destruct c as [[] [] [] [] [] [] [] []]; try discriminate Hd; reflexivity.
Qed.

Lemma value_head_written o r : plain o = true → value_head (written o ++ r) = true.
Proof.
  destruct o as [| [] | n | x | s | items | items]; try done.
  - intros _. destruct (of_int_head n) as (c & s & Hs & Hc).
    simpl. rewrite Hs, str_cons. by apply value_head_number.
  - intros Hx. simpl in Hx |- *.
    destruct (floatstr_cases x Hx) as [[-> _]|[[-> _]|(-> & Hlit & _)]];
      [done..|].
    destruct (scan_number_float _ "" Hlit eq_refl) as (_ & c & s' & -> & Hc).
    rewrite str_cons. by apply value_head_number.
  - intros _. by destruct items.
  - intros _. by destruct items.
Qed.

Lemma readable_plain depth o : readable depth o = true → plain o = true.
Proof.
  revert depth.
  induction o as [| b | n | x | t | items IH | items IH] using pyval_nested_ind;
    intros depth Hr; try done.
  - destruct depth as [|depth]; [done|]. simpl in Hr |- *.
    induction items as [|o items IHitems]; [done|].
    apply Forall_cons in IH as [IHo IH]. simpl in Hr |- *.
    apply andb_true_iff in Hr as [Ho Hr].
    by rewrite (IHo _ Ho), (IHitems IH Hr).
  - destruct depth as [|depth]; [done|]. cbn [readable plain] in Hr |- *.
    apply andb_true_iff in Hr as [Hr ->]. rewrite andb_true_r.
    induction items as [|[k o] items IHitems]; [done|].
    apply Forall_cons in IH as [IHo IH]. simpl in Hr, IHo |- *.
    apply andb_true_iff in Hr as [[Hk Ho]%andb_true_iff Hr].
    by rewrite Hk, (IHo _ Ho), (IHitems IH Hr).
Qed.

Lemma value_head_skip s : value_head s = true → skip_ws s = s.
Proof.
  destruct s as [|c s]; [done|]. simpl.
  intros [Hws _]%andb_true_iff. apply negb_true_iff in Hws. by rewrite Hws.
Qed.

Lemma join_cons sep x y l :
  PyStr.join sep (x :: y :: l) = x ++ sep ++ PyStr.join sep (y :: l).
Proof. reflexivity. Qed.

(** The texts of a sequence, joined, closed and followed by [rest]. *)
Definition joined (texts : list string) (close rest : string) : string :=
  PyStr.join ", " texts ++ close ++ rest.

Lemma joined_one x close rest : joined [x] close rest = x ++ close ++ rest.
Proof. reflexivity. Qed.

Lemma joined_more x y l close rest :
  joined (x :: y :: l) close rest = x ++ ", " ++ joined (y :: l) close rest.
Proof. unfold joined. by rewrite join_cons, !str_app_assoc. Qed.

(** What stands for an item of a dictionary after its opening quote. *)
Definition entry_text (k : ustr) (o : pyval) : string :=
  escape_chars k ++ dq ++ ": " ++ written o.

Definition item_text (kv : pykey * pyval) : string :=
  encode_basestring_ascii (written_key kv.1) ++ ": " ++ written kv.2.

Lemma item_text_entry k o : item_text (KStr k, o) = dq ++ entry_text k o.
Proof.
  unfold item_text, entry_text, encode_basestring_ascii. simpl.
  by rewrite !str_app_assoc.
Qed.

Definition item_ok (depth : nat) (kv : pykey * pyval) : bool :=
  match kv.1 with
  | KStr k => text_ok k
  | _ => false
  end && readable depth kv.2.

Definition to_pair (kv : pykey * pyval) : ustr * pyval := (written_key kv.1, kv.2).

Lemma written_list o items rest :
  written (PList (o :: items)) ++ rest
  = String "[" (joined (map written (o :: items)) "]" rest).
Proof.
  unfold joined. change (written (PList (o :: items)))
    with ("[" ++ PyStr.join ", " (map written (o :: items)) ++ "]").
  by rewrite !str_app_assoc.
Qed.

Definition items_tail (items : list (pykey * pyval)) (rest : string) : string :=
  match items with
  | [] => "}" ++ rest
  | _ => ", " ++ joined (map item_text items) "}" rest
  end.

Lemma joined_items k o items rest :
  joined (map item_text ((KStr k, o) :: items)) "}" rest
  = String "034" (entry_text k o ++ items_tail items rest).
Proof.
  destruct items as [|kv items].
  - simpl map. rewrite joined_one, item_text_entry.
    by rewrite !str_app_assoc.
  - change (map item_text ((KStr k, o) :: kv :: items))
      with (item_text (KStr k, o) :: map item_text (kv :: items)).
    simpl map at 1.
    rewrite joined_more, item_text_entry. by rewrite !str_app_assoc.
Qed.

Lemma written_dict k o items rest :
  written (PDict ((KStr k, o) :: items)) ++ rest
  = String "{" (String "034" (entry_text k o ++ items_tail items rest)).
Proof.
  rewrite <- joined_items. unfold joined.
  change (written (PDict ((KStr k, o) :: items)))
    with ("{" ++ PyStr.join ", " (map item_text ((KStr k, o) :: items)) ++ "}").
  by rewrite !str_app_assoc.
Qed.

Lemma array_loop_S fuel depth values s :
  array_loop (S fuel) depth values s
  = match scan_once fuel depth s with
    | Found value s =>
        match skip_ws s with
        | String c s =>
            if Ascii.eqb c "]" then Found (PList (values ++ [value])%list) s
            else if Ascii.eqb c ","
                 then array_loop fuel depth (values ++ [value])%list (skip_ws s)
                 else Failed expecting_comma
        | EmptyString => Failed expecting_comma
        end
    | StopIteration => Failed (JSONDecodeError "Expecting value")
    | Failed e => Failed e
    | Exhausted => Exhausted
    end.
Proof. reflexivity. Qed.

Lemma object_loop_S fuel depth pairs s :
  object_loop (S fuel) depth pairs s
  = match scanstring s [] with
    | Raise e => Failed e
    | Ret (key, s) =>
        match skip_ws s with
        | String colon s =>
            if Ascii.eqb colon ":" then
              match scan_once fuel depth (skip_ws s) with
              | Found value s =>
                  match skip_ws s with
                  | String c s =>
                      if Ascii.eqb c "}"
                      then Found (PDict (dict_of_pairs (pairs ++ [(key, value)])%list)) s
                      else if Ascii.eqb c "," then
                        match skip_ws s with
                        | String q s =>
                            if Ascii.eqb q "034"
                            then object_loop fuel depth (pairs ++ [(key, value)])%list s
                            else Failed expecting_name
                        | EmptyString => Failed expecting_name
                        end
                      else Failed expecting_comma
                  | EmptyString => Failed expecting_comma
                  end
              | StopIteration => Failed (JSONDecodeError "Expecting value")
              | Failed e => Failed e
              | Exhausted => Exhausted
              end
            else Failed (JSONDecodeError "Expecting ':' delimiter")
        | EmptyString => Failed (JSONDecodeError "Expecting ':' delimiter")
        end
    end.
Proof. reflexivity. Qed.

Lemma dict_set_fresh key value items :
  key ∉ str_keys items →
  forallb (λ kv, match kv.1 with KStr _ => true | _ => false end) items = true →
  dict_set key value items = (items ++ [(KStr key, value)])%list.
Proof.
  induction items as [|[k v] items IH]; intros Hnin Hstr; [done|].
  simpl in Hstr. apply andb_true_iff in Hstr as [Hk Hstr].
  destruct k as [| | | |k']; try done.
  unfold str_keys in Hnin. simpl in Hnin.
  apply not_elem_of_cons in Hnin as [Hne Hnin].
  simpl. rewrite bool_decide_false by congruence. by rewrite IH.
Qed.

Lemma item_ok_str items depth :
  forallb (item_ok depth) items = true →
  forallb (λ kv, match kv.1 with KStr _ => true | _ => false end) items = true.
Proof.
  induction items as [|[k v] items IH]; [done|]. simpl.
  intros [Hkv Hok]%andb_true_iff. rewrite (IH Hok), andb_true_r.
  unfold item_ok in Hkv. simpl in Hkv. by destruct k.
Qed.

Lemma str_keys_app (a b : list (pykey * pyval)) :
  str_keys (a ++ b) = (str_keys a ++ str_keys b)%list.
Proof. unfold str_keys. apply omap_app. Qed.

Lemma dict_of_pairs_items depth items : ∀ acc,
  forallb (item_ok depth) acc = true →
  forallb (item_ok depth) items = true →
  NoDup (str_keys (acc ++ items)%list) →
  foldl (λ items kv, dict_set kv.1 kv.2 items) acc (map to_pair items)
  = (acc ++ items)%list.
Proof.
  induction items as [|[k v] items IH]; intros acc Hacc Hok Hnd.
  - by rewrite app_nil_r.
  - simpl in Hok. apply andb_true_iff in Hok as [Hkv Hok].
    pose proof Hkv as Hkv'. unfold item_ok in Hkv. simpl in Hkv.
    destruct k as [| | | |k']; try done.
    simpl. rewrite dict_set_fresh.
    + rewrite IH; [by rewrite <- app_assoc | | done |].
      * rewrite forallb_app, Hacc. simpl. by rewrite Hkv'.
      * by rewrite <- app_assoc.
    + rewrite str_keys_app in Hnd. apply NoDup_app in Hnd as (_ & Hdisj & _).
      intros Hin. apply (Hdisj _ Hin). unfold str_keys. simpl. left.
    + by apply (item_ok_str _ depth).
Qed.

(** [scan_once], [array_loop] and [object_loop] on what the encoder
    writes, given enough nested calls. *)
Definition scans (fuel : nat) : Prop :=
  (∀ o depth rest,
     (cost o ≤ fuel)%nat → readable depth o = true → delimited rest = true →
     scan_once fuel depth (written o ++ rest) = Found o rest)
  ∧ (∀ o items depth values rest,
       (list_sum (map (λ x, S (cost x)) (o :: items)) ≤ fuel)%nat →
       forallb (readable depth) (o :: items) = true →
       array_loop fuel depth values (joined (map written (o :: items)) "]" rest)
       = Found (PList (values ++ o :: items)%list) rest)
  ∧ (∀ k o items depth pairs rest,
       (list_sum (map (λ kv, S (cost kv.2)) ((KStr k, o) :: items)) ≤ fuel)%nat →
       forallb (item_ok depth) ((KStr k, o) :: items) = true →
       object_loop fuel depth pairs (entry_text k o ++ items_tail items rest)
       = Found (PDict (dict_of_pairs
                         (pairs ++ map to_pair ((KStr k, o) :: items))%list)) rest).

Lemma forallb_readable_plain depth items :
  forallb (readable depth) items = true → forallb plain items = true.
Proof.
  induction items as [|o items IH]; [done|]. simpl.
  intros [Ho Hitems]%andb_true_iff.
  by rewrite (readable_plain _ _ Ho), (IH Hitems).
Qed.

Lemma scans_all fuel : scans fuel.
Proof.
  induction fuel as [|fuel (IHscan & IHarray & IHobject)].
  { split; [|split].
    - intros o ? ? Hc. destruct o; simpl in Hc; lia.
    - intros ????? Hc. simpl in Hc. lia.
    - intros ?????? Hc. simpl in Hc. lia. }
  split; [|split].
  - (* scan_once *)
    intros o depth rest Hcost Hread Hrest.
    destruct o as [| b | n | x | s | items | items].
    + by destruct rest.
    + by destruct b, rest.
    + simpl in Hread. apply scan_once_int; [|done].
      unfold long_from_string in Hread |- *.
      destruct (_ && _); [done|]. by rewrite parse_int_of_int.
    + by apply scan_once_float.
    + simpl in Hread. unfold encode_basestring_ascii.
      change (written (PStr s)) with (dq ++ escape_chars s ++ dq).
      rewrite !str_app_assoc. unfold dq at 1. rewrite str_cons, str_nil.
      simpl. by rewrite scanstring_escape_chars.
    + destruct depth as [|depth]; [done|]. simpl in Hread.
      destruct items as [|o items]; [done|].
      rewrite written_list. simpl in Hcost.
      assert (Hhead : value_head (joined (map written (o :: items)) "]" rest) = true).
      { simpl in Hread. apply andb_true_iff in Hread as [Ho _].
        apply readable_plain in Ho.
        destruct items; simpl map; [rewrite joined_one | rewrite joined_more];
          by apply value_head_written. }
      pose proof (value_head_skip _ Hhead) as Hskip.
      change (scan_once (S fuel) (S depth) (String "[" ?t))
        with (match skip_ws t with
              | String c rest' =>
                  if Ascii.eqb c "]" then Found (PList []) rest'
                  else array_loop fuel depth [] (String c rest')
              | EmptyString => array_loop fuel depth [] EmptyString
              end).
      rewrite Hskip.
      destruct (joined _ _ _) as [|c t] eqn:Ej; [done|].
      simpl in Hhead. apply andb_true_iff in Hhead as [_ Hc].
      apply negb_true_iff in Hc. rewrite Hc, <- Ej.
      rewrite IHarray; [done | simpl; lia | done].
    + destruct depth as [|depth]; [done|]. cbn [readable] in Hread.
      destruct items as [|[k o] items].
      { by destruct rest. }
      apply andb_true_iff in Hread as [Hitems Hnd].
      apply bool_decide_eq_true in Hnd.
      pose proof Hitems as Hk. simpl in Hk.
      apply andb_true_iff in Hk as [[Hk _]%andb_true_iff _].
      destruct k as [| | | |k]; try done.
      rewrite written_dict.
      change (scan_once (S fuel) (S depth) (String "{" (String "034" ?t)))
        with (object_loop fuel depth [] t).
      rewrite IHobject; [| simpl in Hcost |- *; lia | done].
      unfold dict_of_pairs. rewrite app_nil_l.
      by rewrite (dict_of_pairs_items depth _ []).
  - (* array_loop *)
    intros o items depth values rest Hcost Hread.
    simpl in Hcost, Hread. apply andb_true_iff in Hread as [Ho Hitems].
    rewrite array_loop_S.
    destruct items as [|o' items].
    + simpl map. rewrite joined_one, IHscan; [| lia | done | done].
      reflexivity.
    + simpl map. rewrite joined_more, IHscan; [| lia | done | done].
      change (skip_ws (", " ++ ?t)) with (String "," (String " " t)).
      cbv beta iota. change (Ascii.eqb "," "]") with false.
      change (Ascii.eqb "," ",") with true. cbv iota.
      change (skip_ws (String " " ?t)) with (skip_ws t).
      assert (Hhead : value_head
                (joined (written o' :: map written items) "]" rest) = true).
      { simpl in Hitems. apply andb_true_iff in Hitems as [Ho' _].
        apply readable_plain in Ho'.
        destruct items; simpl map; [rewrite joined_one | rewrite joined_more];
          by apply value_head_written. }
      rewrite (value_head_skip _ Hhead).
      change (written o' :: map written items) with (map written (o' :: items)).
      rewrite IHarray; [by rewrite <- app_assoc | simpl in Hcost |- *; lia | done].
  - (* object_loop *)
    intros k o items depth pairs rest Hcost Hok.
    simpl in Hcost, Hok. apply andb_true_iff in Hok as [Hko Hitems].
    unfold item_ok in Hko. simpl in Hko.
    apply andb_true_iff in Hko as [Hk Ho].
    rewrite object_loop_S. unfold entry_text.
    rewrite !str_app_assoc.
    rewrite (scanstring_escape_chars k [] _ Hk). rewrite app_nil_l.
    change (skip_ws (": " ++ ?t)) with (String ":" (String " " t)).
    cbv beta iota. change (Ascii.eqb ":" ":") with true. cbv iota.
    change (skip_ws (String " " ?t)) with (skip_ws t).
    rewrite (value_head_skip _ (value_head_written o _ (readable_plain _ _ Ho))).
    assert (Hdelim : delimited (items_tail items rest) = true).
    { by destruct items. }
    rewrite IHscan; [| lia | done | done].
    destruct items as [|[k' o'] items].
    + reflexivity.
    + pose proof Hitems as Hk'. simpl in Hk'.
      apply andb_true_iff in Hk' as [Hk' _].
      unfold item_ok in Hk'. simpl in Hk'.
      destruct k' as [| | | |k']; try done.
      unfold items_tail. rewrite joined_items.
      change (skip_ws (", " ++ ?t)) with (String "," (String " " t)).
      cbv beta iota. change (Ascii.eqb "," "}") with false.
      change (Ascii.eqb "," ",") with true. cbv iota.
      change (skip_ws (String " " (String "034" ?t))) with (String "034" t).
      cbv beta iota. change (Ascii.eqb "034" "034") with true. cbv iota.
      rewrite IHobject; [| simpl in Hcost |- *; lia | done].
      by rewrite <- app_assoc.
Qed.

(** *** The bound on nested calls suffices *)

Lemma cost_length o : plain o = true → (cost o ≤ String.length (written o))%nat.
Proof.
  induction o as [| b | n | x | s | items IH | items IH] using pyval_nested_ind;
    intros Hplain.
  - simpl. lia.
  - destruct b; simpl; lia.
  - destruct (of_int_head n) as (c & s & Hs & _). simpl. rewrite Hs. simpl. lia.
  - pose proof (value_head_written (PFloat x) "" Hplain) as Hh.
    rewrite str_app_nil_r in Hh. simpl in Hh |- *.
    destruct (floatstr x); [done | simpl; lia].
  - simpl. unfold encode_basestring_ascii. rewrite str_length_app. simpl. lia.
  - destruct items as [|o items]; [simpl; lia|].
    change (written (PList (o :: items)))
      with ("[" ++ PyStr.join ", " (map written (o :: items)) ++ "]").
    rewrite str_cons, str_nil. simpl String.length. rewrite str_length_app.
    simpl in Hplain.
    assert (Hsum : (list_sum (map (λ x, S (cost x)) (o :: items)) + 1
                    ≤ String.length (PyStr.join ", " (map written (o :: items)))
                      + 2)%nat).
    { clear -IH Hplain. revert o IH Hplain.
      induction items as [|o' items IHitems]; intros o IH Hplain.
      - apply Forall_cons in IH as [IHo _].
        apply andb_true_iff in Hplain as [Ho _]. specialize (IHo Ho).
        simpl. lia.
      - apply Forall_cons in IH as [IHo IH].
        apply andb_true_iff in Hplain as [Ho Hplain]. specialize (IHo Ho).
        specialize (IHitems o' IH Hplain).
        change (map written (o :: o' :: items))
          with (written o :: written o' :: map written items).
        rewrite join_cons, !str_length_app.
        change (map written (o' :: items)) with (written o' :: map written items)
          in IHitems.
        simpl in IHitems |- *. lia. }
    simpl in Hsum |- *. lia.
  - destruct items as [|kv items]; [simpl; lia|].
    change (written (PDict (kv :: items)))
      with ("{" ++ PyStr.join ", " (map item_text (kv :: items)) ++ "}").
    rewrite str_cons, str_nil. simpl String.length. rewrite str_length_app.
    simpl in Hplain. apply andb_true_iff in Hplain as [Hplain _].
    assert (Hsum : (list_sum (map (λ kv, S (cost kv.2)) (kv :: items)) + 1
                    ≤ String.length (PyStr.join ", " (map item_text (kv :: items)))
                      + 2)%nat).
    { clear -IH Hplain. revert kv IH Hplain.
      induction items as [|kv' items IHitems]; intros kv IH Hplain.
      - apply Forall_cons in IH as [IHo _].
        apply andb_true_iff in Hplain as [Ho _].
        apply andb_true_iff in Ho as [_ Ho]. specialize (IHo Ho).
        simpl. unfold item_text. rewrite !str_length_app. simpl. lia.
      - apply Forall_cons in IH as [IHo IH].
        apply andb_true_iff in Hplain as [Ho Hplain].
        apply andb_true_iff in Ho as [_ Ho]. specialize (IHo Ho).
        specialize (IHitems kv' IH Hplain).
        change (map item_text (kv :: kv' :: items))
          with (item_text kv :: item_text kv' :: map item_text items).
        rewrite join_cons, !str_length_app.
        change (map item_text (kv' :: items))
          with (item_text kv' :: map item_text items) in IHitems.
        unfold item_text at 1. rewrite !str_length_app.
        simpl in IHitems |- *. lia. }
    simpl in Hsum |- *. lia.
Qed.

(** [json.loads] reads back what [json.dumps] returned for a plain
    value, when the scanner may enter as many containers as the value
    has, one inside the other. *)
Lemma loads_dumps o s :
  plain o = true → dumps o = Ret s → (nesting o ≤ decoder_depth)%nat →
  loads s = Ret o.
Proof.
  intros Hplain Hs Hd. unfold dumps in Hs.
  destruct (encode_written o _ _ _ Hplain Hs Hd) as [-> Hread].
  unfold loads.
  pose proof (value_head_written o "" Hplain) as Hhead.
  rewrite str_app_nil_r in Hhead. rewrite (value_head_skip _ Hhead).
  destruct (scans_all (call_bound (written o))) as [Hscan _].
  specialize (Hscan o decoder_depth "").
  rewrite str_app_nil_r in Hscan. rewrite Hscan; [done| |done|done].
  pose proof (cost_length o Hplain). unfold call_bound. lia.
Qed.

End json_roundtrip.

(** ** The output parser on what [json.dumps] writes *)

Section json_output.
Context `{PyFloat} `{limits : Interpreter} `{!PyFloatLaws}.
Variable yaml_safe_load : string → res pyval.

Lemma strip_head c s : PyStr.isspace c = false → PyStr.strip (String c s) ≠ "".
Proof.
intros Hc. unfold PyStr.strip. simpl. rewrite Hc. simpl.
destruct (PyStr.rstrip s); [by rewrite Hc | done].
Qed.


End json_output.

(** * Further properties *)

(** ** More on strings and on [shlex.split] *)

(** Every character of [s] satisfies [p]. *)
Definition all_chars (p : ascii → bool) (s : string) : bool :=
  forallb p (list_ascii_of_string s).

Lemma all_chars_app p a b :
  all_chars p (a ++ b) = all_chars p a && all_chars p b.
Proof.
  induction a as [|c a IH]; [done|].
  change (String c a ++ b) with (String c (a ++ b)).
  unfold all_chars in *. simpl. rewrite IH. by rewrite andb_assoc.
Qed.

Lemma prefix_drop p : ∀ s,
  String.prefix p s = true → s = p ++ PyStr.drop (String.length p) s.
Proof.
  induction p as [|c p IH]; intros s Hp; [done|].
  destruct s as [|c' s]; [done|]. simpl in Hp.
  destruct (ascii_dec c c') as [->|]; [|done].
  simpl. change (String c' p ++ PyStr.drop (String.length p) s)
    with (String c' (p ++ PyStr.drop (String.length p) s)).
  f_equal. by apply IH.
Qed.

(** What [rstrip] returns does not end in white space. *)
Lemma rstrip_suffix u : ∀ a b,
  PyStr.rstrip u = a ++ b → all_chars PyStr.isspace b = true → b = "".
Proof.
  induction u as [|c u IH]; intros a b Hr Hb; simpl in Hr.
  - destruct a, b; done.
  - destruct (PyStr.rstrip u) as [|c' r] eqn:Hu.
    + destruct (PyStr.isspace c) eqn:Hc.
      * destruct a, b; done.
      * destruct a as [|ca a].
        -- rewrite str_nil in Hr. subst b. unfold all_chars in Hb. simpl in Hb.
           by rewrite Hc in Hb.
        -- rewrite str_cons in Hr. injection Hr as _ Hr. destruct a, b; done.
    + destruct a as [|ca a].
      * rewrite str_nil in Hr. subst b. unfold all_chars in Hb. simpl in Hb.
        apply andb_true_iff in Hb as [_ Hb].
        by specialize (IH "" (String c' r) eq_refl Hb).
      * rewrite str_cons in Hr. injection Hr as _ Hr. by apply (IH a b).
Qed.

Lemma rstrip_id s :
  all_chars (λ c, negb (PyStr.isspace c)) s = true → PyStr.rstrip s = s.
Proof.
  induction s as [|c s IH]; [done|]. unfold all_chars. simpl.
  intros [Hc Hs]%andb_true_iff. rewrite (IH Hs).
  destruct s; [|done]. by destruct (PyStr.isspace c).
Qed.

Section shlex_tokens.
Import shlex.

Definition blank (c : ascii) : bool := PyStr.char_in c whitespace.

Lemma blank_isspace c : blank c = true → PyStr.isspace c = true.
Proof.
  unfold blank, PyStr.char_in, whitespace. simpl.
  rewrite !orb_true_iff. intros [H|[H|[H|[H|H]]]]; try done;
    apply Ascii.eqb_eq in H; by subst c.
Qed.

Lemma push_nonempty token c : push token c ≠ "".
Proof. by destruct token. Qed.

(** The lexer is inside a token: the next token returned is not the
    end-of-input marker. *)
Definition live (state : lex_state) (token : string) (quoted : bool)
    (escapedstate : lex_state) : Prop :=
  match state with
  | Eof => False
  | Space | Word => token ≠ "" ∨ quoted = true
  | InQuote _ => True
  | InEscape => escapedstate ≠ Eof ∧ escapedstate ≠ Space
  end.

Lemma read_loop_live instream : ∀ state token quoted escapedstate sc,
  read_loop state token quoted escapedstate instream = Ret sc →
  live state token quoted escapedstate →
  sc_token sc ≠ "" ∨ sc_quoted sc = true.
Proof.
  induction instream as [|c rest IH]; intros st tok q esc sc Hr Hl.
  - destruct st; simplify_eq/=; done.
  - destruct st; simpl in Hr, Hl; [done|..].
    + repeat case_match; simplify_eq/=; try done;
        (eapply IH; [eassumption|]); simpl; eauto.
    + repeat case_match; simplify_eq/=; try done;
        (eapply IH; [eassumption|]); simpl; eauto using push_nonempty.
    + repeat case_match; simplify_eq/=; try done;
        (eapply IH; [eassumption|]); simpl; eauto using push_nonempty.
    + eapply IH; [eassumption|]. destruct Hl as [H1 H2].
      destruct esc; simpl; try done; eauto using push_nonempty.
Qed.

Lemma read_loop_blank instream : ∀ escapedstate sc,
  read_loop Space "" false escapedstate instream = Ret sc →
  sc_token sc = "" → sc_quoted sc = false →
  all_chars blank instream = true.
Proof.
  induction instream as [|c rest IH]; intros esc sc Hr Ht Hq; [done|].
  unfold all_chars. simpl. simpl in Hr. fold (blank c) in Hr.
  destruct (blank c) eqn:Hb; simpl in *.
  - by eapply IH.
  - exfalso.
    assert (Hlive : ∀ st tok q esc', read_loop st tok q esc' rest = Ret sc →
              live st tok q esc' → False).
    { intros st tok q esc' Hr' Hl.
      destruct (read_loop_live _ _ _ _ _ _ Hr' Hl); congruence. }
    repeat case_match; simplify_eq/=;
      (eapply Hlive; [eassumption|]); simpl; eauto.
Qed.

(** [shlex.split] returns no token only for a string of white space. *)
Lemma split_nil s : split s = Ret [] → all_chars blank s = true.
Proof.
  intros Hs. pose proof (split_collect s) as Hc. rewrite Hs in Hc.
  simpl in Hc. unfold read_token in Hc. simpl in Hc.
  destruct (read_loop Space "" false Space s) as [sc|e] eqn:Hl; simpl in Hc; [|done].
  destruct (negb (sc_quoted sc) && String.eqb (sc_token sc) "") eqn:Hn.
  - apply andb_true_iff in Hn as [Hq Ht].
    apply negb_true_iff in Hq. apply String.eqb_eq in Ht.
    by eapply read_loop_blank.
  - destruct (collect _ _) as [[]|]; done.
Qed.

Lemma read_loop_raise_msg instream : ∀ state token quoted escapedstate e,
  read_loop state token quoted escapedstate instream = Raise e →
  e = ValueError "No closing quotation" ∨ e = ValueError "No escaped character".
Proof.
  induction instream as [|c rest IH]; intros st tok q esc e Hr.
  - destruct st; simplify_eq/=; eauto.
  - destruct st; simpl in Hr; repeat case_match; simplify_eq/=; eauto.
Qed.

Lemma collect_raise_msg fuel : ∀ lx e,
  collect fuel lx = Some (Raise e) →
  e = ValueError "No closing quotation" ∨ e = ValueError "No escaped character".
Proof.
  induction fuel as [|fuel IH]; intros lx e Hc; [done|].
  simpl in Hc. unfold read_token in Hc.
  destruct (read_loop _ _ _ _ _) as [sc|e'] eqn:Hl; simpl in Hc.
  - destruct (negb (sc_quoted sc) && String.eqb (sc_token sc) ""); [done|].
    destruct (collect fuel _) as [[]|] eqn:Hrec; simplify_eq/=. eauto.
  - simplify_eq. by eapply read_loop_raise_msg.
Qed.

Lemma split_raise_msg s e :
  split s = Raise e →
  e = ValueError "No closing quotation" ∨ e = ValueError "No escaped character".
Proof.
  intros Hs. pose proof (split_collect s) as Hc. rewrite Hs in Hc.
  by eapply collect_raise_msg.
Qed.

End shlex_tokens.

(** The string [parse_command] hands to [shlex.split]. *)
Definition command_words (command : string) : string :=
  if PyStr.startswith (PyStr.strip command) "api-cli "
  then PyStr.drop 8 (PyStr.strip command)
  else PyStr.strip command.

Lemma command_words_not_blank command :
  PyStr.strip command ≠ "" → all_chars blank (command_words command) = false.
Proof.
  intros Hne. apply not_true_is_false. intros Hb.
  assert (Hsp : all_chars PyStr.isspace (command_words command) = true).
  { unfold all_chars in *. rewrite forallb_forall in *.
    intros c Hc. apply blank_isspace. by apply Hb. }
  unfold command_words in *.
  destruct (PyStr.startswith _ _) eqn:Hp.
  - apply prefix_drop in Hp. simpl String.length in Hp.
    pose proof (rstrip_suffix _ _ _ Hp Hsp) as Hd.
    rewrite Hd in Hp.
    assert (Hp' : PyStr.strip command = "api-cli" ++ " ") by exact Hp.
    by specialize (rstrip_suffix _ _ _ Hp' eq_refl).
  - by specialize (rstrip_suffix _ "" _ eq_refl Hsp).
Qed.

(** X1. [parse_command] raises in two ways only.  It raises the
    [CommandValidationError] [Empty command] exactly when the command is
    empty once trimmed; any other exception is the [ValueError] of
    [shlex.split], on a quotation that is not closed or on a trailing
    backslash, and it leaves the parser as it is, not as a
    [CommandValidationError].  The error [No command specified] is never
    raised: a command that is not empty once trimmed has a word. *)
Theorem parse_command_errors :
  (∀ command,
     (PyStr.strip command = ""
      ↔ parse_command command = Raise (mk_exn CommandValidationError "Empty command"))
     ∧ (∀ e, parse_command command = Raise e →
             e = mk_exn CommandValidationError "Empty command"
             ∨ (shlex.split (command_words command) = Raise e
                ∧ (e = ValueError "No closing quotation"
                   ∨ e = ValueError "No escaped character"))))
  ∧ parse_command "step-navigate to 'https://example.com"
    = Raise (ValueError "No closing quotation")
  ∧ parse_command "step-interact write \"
    = Raise (ValueError "No escaped character").
Proof.
  split; [|split; vm_compute; reflexivity].
  intros command. unfold parse_command. fold (command_words command).
  destruct (String.eqb (PyStr.strip command) "") eqn:He.
  - apply String.eqb_eq in He. split; [done|]. intros e [= <-]. by left.
  - apply eqb_false_iff in He.
    destruct (shlex.split (command_words command)) as [parts|e'] eqn:Hs; simpl.
    + destruct parts as [|cmd rest].
      { apply split_nil in Hs.
        by rewrite (command_words_not_blank _ He) in Hs. }
      split; [split; [done|]|]; repeat case_match; done.
    + split; [split; [done|intros [= ->]]|].
      * apply split_raise_msg in Hs as [?|?]; done.
      * intros e [= <-]. right. split; [done|]. by apply split_raise_msg in Hs.
Qed.

(** *** Words that need no quoting *)

(** A character the lexer and [strip] leave alone: not white space, not
    a quote, not the backslash. *)
Definition shell_safe (c : ascii) : bool :=
  negb (PyStr.isspace c) && negb (PyStr.char_in c shlex.quotes)
  && negb (PyStr.char_in c shlex.escape).

Definition plain_word (w : string) : bool :=
  negb (String.eqb w "") && all_chars shell_safe w.

Section shlex_words.
Import shlex.

Lemma shell_safe_facts c :
  shell_safe c = true →
  PyStr.isspace c = false ∧ blank c = false
  ∧ PyStr.char_in c quotes = false ∧ PyStr.char_in c escape = false.
Proof.
  unfold shell_safe. rewrite !andb_true_iff, !negb_true_iff.
  intros [[Hs Hq] He]. repeat split; try done.
  destruct (blank c) eqn:Hb; [|done]. apply blank_isspace in Hb. congruence.
Qed.

Lemma read_loop_word w : ∀ token quoted escapedstate rest,
  all_chars shell_safe w = true →
  read_loop Word token quoted escapedstate (w ++ rest)
  = read_loop Word (token ++ w) quoted escapedstate rest.
Proof.
  induction w as [|c w IH]; intros tok q esc rest Hw.
  - by rewrite str_nil, str_app_nil_r.
  - unfold all_chars in Hw. simpl in Hw. apply andb_true_iff in Hw as [Hc Hw].
    apply shell_safe_facts in Hc as (_ & Hb & Hq & He).
    rewrite str_cons. simpl. fold (blank c). rewrite Hb, Hq, He.
    rewrite (IH _ _ _ _ Hw). unfold push. by rewrite str_app_assoc.
Qed.

Lemma read_loop_start c w escapedstate rest :
  shell_safe c = true → all_chars shell_safe w = true →
  read_loop Space "" false escapedstate (String c w ++ rest)
  = read_loop Word (String c w) false escapedstate rest.
Proof.
  intros Hc Hw. apply shell_safe_facts in Hc as (_ & Hb & Hq & He).
  rewrite str_cons. simpl. fold (blank c). rewrite Hb, Hq, He.
  destruct (wordchars c); by rewrite (read_loop_word _ _ _ _ _ Hw).
Qed.

Lemma read_token_last w :
  plain_word w = true →
  read_token (mk_lexer w Space) = Ret (Some w, mk_lexer "" Eof).
Proof.
  unfold plain_word. intros [Hne Hw]%andb_true_iff.
  destruct w as [|c w]; [done|].
  unfold all_chars in Hw. simpl in Hw. apply andb_true_iff in Hw as [Hc Hw].
  unfold read_token. simpl instream. simpl state.
  rewrite <- (str_app_nil_r (String c w)) at 1.
  rewrite (read_loop_start _ _ _ _ Hc Hw). done.
Qed.

Lemma read_token_more w rest :
  plain_word w = true →
  read_token (mk_lexer (w ++ " " ++ rest) Space)
  = Ret (Some w, mk_lexer rest Space).
Proof.
  unfold plain_word. intros [Hne Hw]%andb_true_iff.
  destruct w as [|c w]; [done|].
  unfold all_chars in Hw. simpl in Hw. apply andb_true_iff in Hw as [Hc Hw].
  unfold read_token. simpl instream. simpl state.
  rewrite (read_loop_start _ _ _ _ Hc Hw). done.
Qed.

Lemma join_cons_cons sep w w' ws :
  PyStr.join sep (w :: w' :: ws) = w ++ sep ++ PyStr.join sep (w' :: ws).
Proof. reflexivity. Qed.

Lemma collect_words ws : ∀ fuel,
  forallb plain_word ws = true → ws ≠ [] → (length ws < fuel)%nat →
  collect fuel (mk_lexer (PyStr.join " " ws) Space) = Some (Ret ws).
Proof.
  induction ws as [|w ws IH]; intros fuel Hws Hne Hf; [done|].
  simpl in Hws. apply andb_true_iff in Hws as [Hw Hws].
  destruct fuel as [|fuel]; [lia|]. simpl in Hf.
  destruct ws as [|w' ws].
  - simpl. change (PyStr.join " " [w]) with w. rewrite (read_token_last _ Hw).
    destruct fuel as [|fuel]; [lia|]. done.
  - rewrite join_cons_cons. simpl collect. rewrite (read_token_more _ _ Hw).
    rewrite IH; [done|done|done|]. simpl in *. lia.
Qed.

Lemma collect_mono fuel : ∀ fuel' lx r,
  collect fuel lx = Some r → (fuel ≤ fuel')%nat → collect fuel' lx = Some r.
Proof.
  induction fuel as [|fuel IH]; intros fuel' lx r Hc Hle; [done|].
  destruct fuel' as [|fuel']; [lia|]. simpl in *.
  destruct (read_token lx) as [[[token|] lx']|]; try done.
  destruct (collect fuel lx') as [r'|] eqn:Hrec; [|done].
  rewrite (IH fuel' lx' r' Hrec ltac:(lia)). done.
Qed.

(** Words that need no quoting, joined by single spaces, are split into
    themselves. *)
Lemma split_join ws :
  forallb plain_word ws = true → split (PyStr.join " " ws) = Ret ws.
Proof.
  intros Hws. destruct ws as [|w ws]; [done|].
  pose proof (split_collect (PyStr.join " " (w :: ws))) as Hs.
  pose proof (collect_words (w :: ws) (S (length (w :: ws))) Hws
                ltac:(done) ltac:(lia)) as Hc.
  set (n := S (bound (mk_lexer (PyStr.join " " (w :: ws)) Space))) in *.
  destruct (decide (n ≤ S (length (w :: ws)))%nat) as [Hle|Hgt].
  - rewrite (collect_mono _ _ _ _ Hs Hle) in Hc. congruence.
  - rewrite (collect_mono _ n _ _ Hc ltac:(lia)) in Hs. congruence.
Qed.

End shlex_words.

Lemma rstrip_app_word a : ∀ w,
  w ≠ "" → all_chars (λ c, negb (PyStr.isspace c)) w = true →
  PyStr.rstrip (a ++ w) = a ++ w.
Proof.
  induction a as [|c a IH]; intros w Hne Hw.
  - rewrite str_nil. by apply rstrip_id.
  - rewrite str_cons. simpl. rewrite (IH w Hne Hw).
    destruct (a ++ w) eqn:Ha; [|done]. by destruct a, w.
Qed.

Lemma all_chars_impl (p q : ascii → bool) s :
  (∀ c, p c = true → q c = true) → all_chars p s = true → all_chars q s = true.
Proof.
  unfold all_chars. rewrite !forallb_forall. eauto.
Qed.

Lemma join_last ws :
  ws ≠ [] → ∃ a w, PyStr.join " " ws = a ++ w ∧ last ws = Some w.
Proof.
  induction ws as [|w ws IH]; [done|]. intros _.
  destruct ws as [|w' ws].
  - by exists "", w.
  - destruct IH as (a & x & Ha & Hx); [done|].
    exists (w ++ " " ++ a), x. split; [|done].
    change (PyStr.join " " (w :: w' :: ws)) with (w ++ " " ++ PyStr.join " " (w' :: ws)).
    rewrite Ha. by rewrite !str_app_assoc.
Qed.

Lemma strip_join ws :
  forallb plain_word ws = true → PyStr.strip (PyStr.join " " ws) = PyStr.join " " ws.
Proof.
  intros Hws. destruct ws as [|w ws]; [done|].
  assert (Hl : PyStr.lstrip (PyStr.join " " (w :: ws)) = PyStr.join " " (w :: ws)).
  { simpl in Hws. apply andb_true_iff in Hws as [Hw _].
    unfold plain_word in Hw. apply andb_true_iff in Hw as [Hne Hw].
    destruct w as [|c w]; [done|].
    unfold all_chars in Hw. simpl in Hw. apply andb_true_iff in Hw as [Hc _].
    apply shell_safe_facts in Hc as [Hc _].
    destruct ws; unfold PyStr.join; simpl; by rewrite Hc. }
  unfold PyStr.strip. rewrite Hl.
  destruct (join_last (w :: ws)) as (a & x & Ha & Hx); [done|].
  rewrite Ha. apply last_Some_elem_of in Hx.
  rewrite forallb_forall in Hws. apply list_elem_of_In, Hws in Hx.
  unfold plain_word in Hx. apply andb_true_iff in Hx as [Hne Hx].
  apply rstrip_app_word.
  - intros ->. done.
  - eapply all_chars_impl; [|exact Hx]. intros c Hc.
    apply shell_safe_facts in Hc as [-> _]. done.
Qed.

Lemma prefix_cons a p b s :
  String.prefix (String a p) (String b s)
  = if ascii_dec a b then String.prefix p s else false.
Proof. reflexivity. Qed.

Lemma eqb_cons a s b t :
  String.eqb (String a s) (String b t)
  = if Ascii.eqb a b then String.eqb s t else false.
Proof. reflexivity. Qed.

Lemma prefix_word p : ∀ w s,
  all_chars (λ c, negb (Ascii.eqb c " ")) p = true →
  all_chars (λ c, negb (Ascii.eqb c " ")) w = true →
  (s = "" ∨ ∃ s', s = String " " s') →
  String.prefix (p ++ " ") (w ++ s) = String.eqb w p && negb (String.eqb s "").
Proof.
  induction p as [|x p IH]; intros w s Hp Hw Hs.
  - rewrite (str_nil " "). destruct w as [|c w].
    + rewrite (str_nil s). destruct Hs as [->|[s' ->]]; [done|].
      rewrite prefix_cons. by destruct s'.
    + rewrite str_cons. unfold all_chars in Hw. simpl in Hw.
      apply andb_true_iff in Hw as [Hc _]. rewrite prefix_cons.
      destruct (ascii_dec " " c) as [<-|]; [|reflexivity]. by simpl in Hc.
  - rewrite (str_cons x p). unfold all_chars in Hp. simpl in Hp.
    apply andb_true_iff in Hp as [Hx Hp]. destruct w as [|c w].
    + rewrite (str_nil s). destruct Hs as [->|[s' ->]]; [reflexivity|].
      rewrite prefix_cons.
      destruct (ascii_dec x " ") as [->|]; [|reflexivity]. by simpl in Hx.
    + rewrite (str_cons c w). unfold all_chars in Hw. simpl in Hw.
      apply andb_true_iff in Hw as [_ Hw]. rewrite prefix_cons, eqb_cons.
      rewrite (IH w s Hp Hw Hs).
      destruct (ascii_dec x c) as [->|Hne].
      * by rewrite Ascii.eqb_refl.
      * apply not_eq_sym in Hne. apply Ascii.eqb_neq in Hne. by rewrite Hne.
Qed.

(** The words [parse_command] works on when the command line is
    [" ".join(words)]: a leading [api-cli] goes when words follow it. *)
Definition drop_cli_name (words : list string) : list string :=
  match words with
  | w :: (_ :: _) as rest => if String.eqb w "api-cli" then rest else words
  | _ => words
  end.

Lemma command_words_join words :
  forallb plain_word words = true →
  command_words (PyStr.join " " words) = PyStr.join " " (drop_cli_name words).
Proof.
  intros Hws. unfold command_words. rewrite (strip_join _ Hws).
  destruct words as [|w ws]; [done|].
  simpl in Hws. apply andb_true_iff in Hws as [Hw Hws].
  unfold plain_word in Hw. apply andb_true_iff in Hw as [_ Hw].
  assert (Hw' : all_chars (λ c, negb (Ascii.eqb c " ")) w = true).
  { eapply all_chars_impl; [|exact Hw]. intros c Hc.
    apply shell_safe_facts in Hc as [Hc _].
    destruct (Ascii.eqb c " ") eqn:Heq; [|done].
    apply Ascii.eqb_eq in Heq. by subst c. }
  unfold PyStr.startswith. destruct ws as [|w' ws].
  - change (PyStr.join " " [w]) with w.
    rewrite <- (str_app_nil_r w) at 1.
    change "api-cli " with ("api-cli" ++ " ").
    rewrite (prefix_word "api-cli" w "" eq_refl Hw' ltac:(by left)).
    by rewrite andb_false_r.
  - rewrite join_cons_cons.
    change "api-cli " with ("api-cli" ++ " ") at 1.
    rewrite (prefix_word "api-cli" w (" " ++ PyStr.join " " (w' :: ws)) eq_refl Hw'
               ltac:(right; by eexists)).
    rewrite andb_true_r. unfold drop_cli_name.
    destruct (String.eqb w "api-cli") eqn:Heq; [|by rewrite join_cons_cons].
    apply String.eqb_eq in Heq. subst w. done.
Qed.

Section argv.
Context `{PyFloat}.

(** The [--output] option that ends the arguments. *)
Definition output_flags (output_format : OutputFormat) : list string :=
  if bool_decide (output_format ≠ RAW)
  then ["--output"; format_value output_format]
  else [].

Ltac flags_done :=
  rewrite ?drop_0, ?app_nil_r;
  destruct (bool_decide (_ ≠ RAW)); rewrite ?app_nil_r; done.

Lemma isdigit_truthy s : PyStr.isdigit s = true → PyStr.truthy (Some s) = true.
Proof. unfold PyStr.isdigit. by intros [? _]%andb_true_iff. Qed.

Lemma parse_build self output_format command cmd rest :
  PyStr.strip command ≠ "" →
  shlex.split (command_words command) = Ret (cmd :: rest) →
  ∃ subcmd checkpoint_id args,
    parse_command command = Ret (cmd, subcmd, checkpoint_id, args)
    ∧ (cmd ∉ CHECKPOINT_COMMANDS → subcmd = None ∧ checkpoint_id = None ∧ args = rest)
    ∧ build_command_args self cmd subcmd checkpoint_id args output_format
      = (cli_path self :: cmd
         :: (if bool_decide (cmd ∈ CHECKPOINT_COMMANDS)
                && bool_decide (head rest = Some "")
             then tail rest else rest)
         ++ output_flags output_format)%list.
Proof.
  intros Hne Hs. unfold parse_command. fold (command_words command).
  apply eqb_false_iff in Hne. rewrite Hne, Hs. simpl.
  unfold build_command_args, output_flags.
  destruct rest as [|sub [|third more]]; simpl.
  - eexists _, _, _. split; [done|]. split; [done|]. simpl.
    rewrite andb_false_r. flags_done.
  - destruct (decide (cmd ∈ CHECKPOINT_COMMANDS)) as [Hin|Hin].
    + rewrite !bool_decide_true by done. simpl.
      eexists _, _, _. split; [done|]. split; [done|]. simpl.
      destruct (decide (sub = "")) as [->|Hsub].
      * simpl. flags_done.
      * rewrite (bool_decide_false (_ = Some "")) by congruence.
        apply eqb_false_iff in Hsub. rewrite Hsub. simpl.
        flags_done.
    + rewrite !bool_decide_false by done. simpl.
      eexists _, _, _. split; [done|]. split; [done|]. simpl.
      flags_done.
  - destruct (decide (cmd ∈ CHECKPOINT_COMMANDS)) as [Hin|Hin].
    + rewrite !bool_decide_true by done. simpl.
      destruct (PyStr.isdigit third) eqn:Hd.
      * eexists _, _, _. split; [done|]. split; [done|].
        rewrite (isdigit_truthy _ Hd). simpl.
        destruct (decide (sub = "")) as [->|Hsub].
        -- simpl. flags_done.
        -- rewrite (bool_decide_false (_ = Some "")) by congruence.
           apply eqb_false_iff in Hsub. rewrite Hsub. simpl.
           flags_done.
      * eexists _, _, _. split; [done|]. split; [done|]. simpl.
        destruct (decide (sub = "")) as [->|Hsub].
        -- simpl. flags_done.
        -- rewrite (bool_decide_false (_ = Some "")) by congruence.
           apply eqb_false_iff in Hsub. rewrite Hsub. simpl.
           flags_done.
    + rewrite !bool_decide_false by done. simpl.
      eexists _, _, _. split; [done|]. split; [done|]. simpl.
      flags_done.
Qed.

(** X2. The arguments built from a parsed command are the path of the
    binary, then the shell words of the command in their order, then the
    [--output] option unless the format is [RAW].  One word can be lost:
    an empty second word after a checkpoint-scoped command, which is
    read as a subcommand and then skipped as false. *)
Theorem build_command_args_words self output_format command cmd rest :
  PyStr.strip command ≠ "" →
  shlex.split (command_words command) = Ret (cmd :: rest) →
  ∃ subcmd checkpoint_id args,
    parse_command command = Ret (cmd, subcmd, checkpoint_id, args)
    ∧ build_command_args self cmd subcmd checkpoint_id args output_format
      = (cli_path self :: cmd
         :: (if bool_decide (cmd ∈ CHECKPOINT_COMMANDS)
                && bool_decide (head rest = Some "")
             then tail rest else rest)
         ++ output_flags output_format)%list.
Proof.
  intros Hne Hs.
  destruct (parse_build self output_format command cmd rest Hne Hs)
    as (subcmd & checkpoint_id & args & Hp & _ & Hb).
  by exists subcmd, checkpoint_id, args.
Qed.

Lemma join_not_empty words :
  forallb plain_word words = true → words ≠ [] →
  PyStr.strip (PyStr.join " " words) ≠ "".
Proof.
  intros Hws Hne. rewrite (strip_join _ Hws).
  destruct words as [|w ws]; [done|].
  simpl in Hws. apply andb_true_iff in Hws as [Hw _].
  unfold plain_word in Hw. apply andb_true_iff in Hw as [Hw _].
  destruct w; [done|]. destruct ws; done.
Qed.

Lemma drop_cli_name_plain words :
  forallb plain_word words = true → forallb plain_word (drop_cli_name words) = true.
Proof.
  intros Hws. destruct words as [|w [|w' ws]]; [done..|].
  unfold drop_cli_name. destruct (String.eqb w "api-cli"); [|done].
  simpl in Hws. by apply andb_true_iff in Hws as [_ ?].
Qed.

(** X3. Words that need no quoting (not empty, without white space,
    quote or backslash), joined by single spaces, come back word for
    word: the parse splits them into command, subcommand, checkpoint id
    and arguments without losing or reordering any, and the arguments
    built from the parse are the path of the binary, the words and the
    [--output] option.  A leading [api-cli] followed by more words is
    the only word taken off. *)
Theorem parse_command_join self output_format words :
  forallb plain_word words = true → words ≠ [] →
  ∃ cmd subcmd checkpoint_id args,
    parse_command (PyStr.join " " words) = Ret (cmd, subcmd, checkpoint_id, args)
    ∧ (cmd :: option_list subcmd ++ option_list checkpoint_id ++ args)%list
      = drop_cli_name words
    ∧ build_command_args self cmd subcmd checkpoint_id args output_format
      = (cli_path self :: drop_cli_name words ++ output_flags output_format)%list.
Proof.
  intros Hws Hne.
  pose proof (split_join _ (drop_cli_name_plain _ Hws)) as Hs.
  rewrite <- (command_words_join _ Hws) in Hs.
  assert (Hd : ∃ cmd rest, drop_cli_name words = cmd :: rest).
  { destruct words as [|w [|w' ws]]; [done|by eexists _, _|].
    unfold drop_cli_name. destruct (String.eqb w "api-cli"); by eexists _, _. }
  destruct Hd as (cmd & rest & Hd). rewrite Hd in Hs.
  pose proof (drop_cli_name_plain _ Hws) as Hplain. rewrite Hd in Hplain.
  unfold parse_command. fold (command_words (PyStr.join " " words)).
  pose proof (join_not_empty _ Hws Hne) as Hne'.
  apply eqb_false_iff in Hne'. rewrite Hne', Hs. simpl.
  assert (Htruthy : ∀ w, plain_word w = true → PyStr.truthy (Some w) = true).
  { intros w. unfold plain_word. by intros [? _]%andb_true_iff. }
  simpl in Hplain. apply andb_true_iff in Hplain as [_ Hrest].
  rewrite Hd. unfold build_command_args, output_flags.
  destruct rest as [|sub [|third more]]; simpl.
  - eexists _, _, _, _. split; [done|]. split; [done|]. simpl.
    flags_done.
  - simpl in Hrest. apply andb_true_iff in Hrest as [Hsub _].
    destruct (bool_decide (cmd ∈ CHECKPOINT_COMMANDS));
      (eexists _, _, _, _; split; [done|]; split; [done|]; simpl).
    + apply Htruthy in Hsub. simpl in Hsub. rewrite Hsub. simpl.
      flags_done.
    + flags_done.
  - simpl in Hrest. apply andb_true_iff in Hrest as [Hsub _].
    apply Htruthy in Hsub. simpl in Hsub.
    destruct (bool_decide (cmd ∈ CHECKPOINT_COMMANDS)).
    + destruct (PyStr.isdigit third) eqn:Hdig;
        (eexists _, _, _, _; split; [done|]; split; [done|]; simpl).
      * rewrite Hsub. pose proof (isdigit_truthy _ Hdig) as Ht.
        simpl in Ht. rewrite Ht. simpl.
        flags_done.
      * rewrite Hsub. simpl. flags_done.
    + eexists _, _, _, _. split; [done|]. split; [done|]. simpl.
      flags_done.
Qed.

End argv.

(** ** From the parser to the validator *)

Lemma parse_command_checkpoint command cmd subcmd checkpoint_id args :
  parse_command command = Ret (cmd, subcmd, checkpoint_id, args) →
  checkpoint_id = None
  ∨ ∃ id, checkpoint_id = Some id ∧ PyStr.isdigit id = true
          ∧ cmd ∈ CHECKPOINT_COMMANDS ∧ subcmd ≠ None.
Proof.
  unfold parse_command.
  destruct (String.eqb (PyStr.strip command) ""); [done|].
  destruct (shlex.split _) as [parts|e]; simpl; [|done].
  destruct parts as [|c rest]; [done|].
  destruct (bool_decide (1 < length (c :: rest))%nat); [|intros [= <- <- <- <-]; by left].
  destruct (decide (c ∈ CHECKPOINT_COMMANDS)) as [Hin|Hin].
  - rewrite bool_decide_true by done.
    destruct rest as [|sub [|third more]]; simpl.
    + intros [= <- <- <- <-]; by left.
    + intros [= <- <- <- <-]; by left.
    + destruct (PyStr.isdigit third) eqn:Hd; intros [= <- <- <- <-].
      * right. exists third. done.
      * by left.
  - rewrite bool_decide_false by done. intros [= <- <- <- <-]; by left.
Qed.

Section parse_validate.
Context `{PyFloat}.

(** X14. On what the parser returns, the validator fails exactly when
    the command is checkpoint-scoped and not [library], the command line
    carried no checkpoint id, and the context, if there is one, has no
    session id.  A checkpoint id found by the parser is a string of
    digits, so a command line that carries one always passes, whatever
    the context. *)
Theorem parsed_command_validation command cmd subcmd checkpoint_id args context :
  parse_command command = Ret (cmd, subcmd, checkpoint_id, args) →
  (raises (validate_command cmd subcmd checkpoint_id context)
          CommandValidationError
   ↔ cmd ∈ CHECKPOINT_COMMANDS ∧ cmd ≠ "library" ∧ checkpoint_id = None
     ∧ ∀ ctx, context = Some ctx → PyStr.truthy (session_id ctx) = false)
  ∧ (returns (validate_command cmd subcmd checkpoint_id context)
     ∨ raises (validate_command cmd subcmd checkpoint_id context)
              CommandValidationError)
  ∧ (checkpoint_id ≠ None →
     validate_command cmd subcmd checkpoint_id context = Ret ()).
Proof.
  intros Hp. apply parse_command_checkpoint in Hp.
  assert (Ht : PyStr.truthy checkpoint_id = true ↔ checkpoint_id ≠ None).
  { destruct Hp as [->|(id & -> & Hd & _)]; [done|].
    split; [done|]. intros _. by apply isdigit_truthy. }
  clear Hp. unfold validate_command.
  destruct (decide (cmd ∈ CHECKPOINT_COMMANDS)) as [Hin|Hin].
  2:{ rewrite bool_decide_false by done. split; [|split; [|done]].
      - split; [intros [? ?]; done | intros [? _]; done].
      - left. by eexists. }
  rewrite bool_decide_true by done.
  destruct (PyStr.truthy checkpoint_id) eqn:Hc.
  - assert (Hsome : checkpoint_id ≠ None) by (by apply Ht).
    assert (Hv : (if negb (PyStr.truthy
                             match context with
                             | Some ctx => if negb true then session_id ctx
                                           else checkpoint_id
                             | None => checkpoint_id
                             end) && negb (String.eqb cmd "library")
                  then Raise (mk_exn CommandValidationError
                                ("Command '" ++ cmd ++ "' requires checkpoint ID. "
                                 ++ "Provide it explicitly or set VIRTUOSO_SESSION_ID"))
                  else Ret ()) = Ret ()).
    { destruct context; simpl; by rewrite Hc. }
    rewrite Hv. split; [|split; [|done]].
    + split; [intros [? ?]; done | intros (_ & _ & ? & _); done].
    + left. by eexists.
  - assert (Hnone : checkpoint_id = None).
    { destruct checkpoint_id as [id|]; [|done].
      assert (Some id ≠ None) as Hne by done. apply Ht in Hne. congruence. }
    subst checkpoint_id. simpl.
    destruct (String.eqb cmd "library") eqn:Hlib.
    + apply String.eqb_eq in Hlib. rewrite andb_false_r.
      split; [|split; [|done]].
      * split; [intros [? ?]; done | intros (_ & ? & _); done].
      * left. by eexists.
    + apply eqb_false_iff in Hlib. rewrite andb_true_r.
      destruct context as [ctx|]; simpl.
      * destruct (PyStr.truthy (session_id ctx)) eqn:Hs; simpl.
        -- split; [|split; [|done]].
           ++ split; [intros [? ?]; done|]. intros (_ & _ & _ & Hall).
              specialize (Hall ctx eq_refl). congruence.
           ++ left. by eexists.
        -- split; [|split; [|done]].
           ++ split; [|intros _; by eexists].
              intros _. repeat split; try done. by intros ? [= <-].
           ++ right. by eexists.
      * split; [|split; [|done]].
        -- split; [|intros _; by eexists].
           intros _. repeat split; done.
        -- right. by eexists.
Qed.

End parse_validate.

(** ** Arguments in double quotes *)

(** [t] between double quotes. *)
Definition dquote (t : string) : string := dq ++ t ++ dq.

(** A text that double quotes protect as it is: it holds neither a
    double quote nor a backslash. *)
Definition quotable (t : string) : bool :=
  all_chars (λ c, negb (Ascii.eqb c "034") && negb (Ascii.eqb c "\")) t.

(** An argument as it is written on the command line: as it is, or
    between double quotes. *)
Definition render (arg : bool * string) : string :=
  if arg.1 then dquote arg.2 else arg.2.

Definition renderable (arg : bool * string) : bool :=
  if arg.1 then quotable arg.2 else plain_word arg.2.

Section shlex_quotes.
Import shlex.

Lemma read_loop_quoted t : ∀ token quoted escapedstate rest,
  quotable t = true →
  read_loop (InQuote "034") token quoted escapedstate (t ++ String "034" rest)
  = read_loop Word (token ++ t) true escapedstate rest.
Proof.
  induction t as [|c t IH]; intros tok q esc rest Ht.
  - rewrite str_nil, str_app_nil_r. done.
  - unfold quotable, all_chars in Ht. simpl in Ht.
    apply andb_true_iff in Ht as [Hc Ht].
    apply andb_true_iff in Hc as [Hq He].
    apply negb_true_iff in Hq, He.
    rewrite str_cons. simpl. rewrite Hq.
    assert (Hesc : PyStr.char_in c escape = false).
    { unfold PyStr.char_in, escape. simpl. by rewrite He. }
    rewrite Hesc. simpl.
    rewrite (IH _ _ _ _ Ht). unfold push. by rewrite str_app_assoc.
Qed.

(** A rendering [r] is read as the token [t], at the end of the input
    and before a space. *)
Definition lexes (r t : string) : Prop :=
  read_token (mk_lexer r Space) = Ret (Some t, mk_lexer "" Eof)
  ∧ ∀ rest, read_token (mk_lexer (r ++ " " ++ rest) Space)
            = Ret (Some t, mk_lexer rest Space).

Lemma lexes_plain w : plain_word w = true → lexes w w.
Proof.
  intros Hw. split; [by apply read_token_last|].
  intros rest. by apply read_token_more.
Qed.

Lemma lexes_quoted t : quotable t = true → lexes (dquote t) t.
Proof.
  intros Ht. unfold dquote, dq. split.
  - unfold read_token. simpl instream. simpl state.
    rewrite str_cons, str_nil. simpl.
    rewrite (read_loop_quoted t "" false Space "" Ht). simpl.
    by destruct t.
  - intros rest. unfold read_token. simpl instream. simpl state.
    rewrite str_cons, str_nil. simpl.
    rewrite str_app_assoc, str_cons, str_nil.
    rewrite (read_loop_quoted t "" false Space _ Ht). simpl.
    rewrite orb_true_r. by destruct t.
Qed.

Lemma lexes_render arg : renderable arg = true → lexes (render arg) arg.2.
Proof.
  destruct arg as [[] t]; unfold renderable, render; simpl.
  - apply lexes_quoted.
  - apply lexes_plain.
Qed.

Lemma collect_lexes items : ∀ fuel,
  Forall (λ item : string * string, lexes item.1 item.2) items →
  items ≠ [] → (length items < fuel)%nat →
  collect fuel (mk_lexer (PyStr.join " " (map fst items)) Space)
  = Some (Ret (map snd items)).
Proof.
  induction items as [|[r t] items IH]; intros fuel Hall Hne Hf; [done|].
  apply Forall_cons in Hall as [[Hlast Hmore] Hall]. simpl in Hlast, Hmore.
  destruct fuel as [|fuel]; [simpl in Hf; lia|]. simpl in Hf.
  destruct items as [|item items].
  - simpl. change (PyStr.join " " [r]) with r. rewrite Hlast.
    destruct fuel as [|fuel]; [lia|]. done.
  - simpl map. rewrite join_cons_cons. simpl collect. rewrite Hmore.
    change (item.1 :: map fst items) with (map fst (item :: items)).
    rewrite IH; [done|done|done|]. simpl in *. lia.
Qed.

Lemma split_lexes items :
  Forall (λ item : string * string, lexes item.1 item.2) items →
  split (PyStr.join " " (map fst items)) = Ret (map snd items).
Proof.
  intros Hall. destruct items as [|item items]; [done|].
  pose proof (split_collect (PyStr.join " " (map fst (item :: items)))) as Hs.
  pose proof (collect_lexes (item :: items) (S (length (item :: items))) Hall
                ltac:(done) ltac:(lia)) as Hc.
  set (n := S (bound (mk_lexer (PyStr.join " " (map fst (item :: items))) Space)))
    in *.
  destruct (decide (n ≤ S (length (item :: items)))%nat) as [Hle|Hgt].
  - rewrite (collect_mono _ _ _ _ Hs Hle) in Hc. congruence.
  - rewrite (collect_mono _ n _ _ Hc ltac:(lia)) in Hs. congruence.
Qed.

End shlex_quotes.

(** A rendering ends in a character that is not white space. *)
Lemma render_ends arg :
  renderable arg = true →
  ∃ a w, render arg = a ++ w ∧ w ≠ ""
         ∧ all_chars (λ c, negb (PyStr.isspace c)) w = true.
Proof.
  destruct arg as [[] t]; unfold renderable, render; simpl.
  - intros _. exists (dq ++ t), dq. split; [|done].
    unfold dquote. by rewrite str_app_assoc.
  - unfold plain_word. intros [Hne Hw]%andb_true_iff.
    exists "", t. split; [done|]. split.
    + intros ->. done.
    + eapply all_chars_impl; [|exact Hw]. intros c Hc.
      apply shell_safe_facts in Hc as [-> _]. done.
Qed.

Lemma last_map {A B : Type} (f : A → B) (l : list A) :
  last (map f l) = option_map f (last l).
Proof.
  induction l as [|x l IH]; [done|]. simpl map. rewrite !last_cons, IH.
  by destruct (last l).
Qed.

Lemma command_line_words cmd args :
  plain_word cmd = true → cmd ≠ "api-cli" →
  forallb renderable args = true →
  PyStr.strip (PyStr.join " " (cmd :: map render args)) ≠ ""
  ∧ shlex.split (command_words (PyStr.join " " (cmd :: map render args)))
    = Ret (cmd :: map snd args).
Proof.
  intros Hcmd Hname Hargs.
  set (line := PyStr.join " " (cmd :: map render args)).
  assert (Hstrip : PyStr.strip line = line).
  { assert (Hl : PyStr.lstrip line = line).
    { unfold plain_word in Hcmd. apply andb_true_iff in Hcmd as [Hne Hw].
      destruct cmd as [|c w]; [done|].
      unfold all_chars in Hw. simpl in Hw. apply andb_true_iff in Hw as [Hc _].
      apply shell_safe_facts in Hc as [Hc _].
      unfold line. destruct (map render args); unfold PyStr.join; simpl;
        by rewrite Hc. }
    unfold PyStr.strip. rewrite Hl.
    destruct (join_last (cmd :: map render args)) as (a & r & Ha & Hr); [done|].
    fold line in Ha. rewrite Ha.
    assert (Hrend : ∃ arg, renderable arg = true ∧ r = render arg).
    { destruct args as [|arg args].
      - simpl in Hr. injection Hr as <-. exists (false, cmd). done.
      - rewrite last_cons in Hr.
        destruct (last (map render (arg :: args))) as [r'|] eqn:Hlast.
        + injection Hr as <-. rewrite last_map in Hlast.
          destruct (last (arg :: args)) as [x|] eqn:Hx; [|done].
          simpl in Hlast. injection Hlast as <-.
          exists x. split; [|done].
          apply last_Some_elem_of, list_elem_of_In in Hx.
          rewrite forallb_forall in Hargs. by apply Hargs.
        + by apply last_None in Hlast. }
    destruct Hrend as (arg & Harg & ->).
    destruct (render_ends arg Harg) as (a' & w & -> & Hne & Hw).
    rewrite <- str_app_assoc. by apply rstrip_app_word. }
  assert (Hne : line ≠ "").
  { unfold plain_word in Hcmd. apply andb_true_iff in Hcmd as [Hne _].
    destruct cmd; [done|]. unfold line. by destruct (map render args). }
  split; [by rewrite Hstrip|].
  assert (Hwords : command_words line = line).
  { unfold command_words. rewrite Hstrip.
    assert (Hw' : all_chars (λ c, negb (Ascii.eqb c " ")) cmd = true).
    { unfold plain_word in Hcmd. apply andb_true_iff in Hcmd as [_ Hw].
      eapply all_chars_impl; [|exact Hw]. intros c Hc.
      apply shell_safe_facts in Hc as [Hc _].
      destruct (Ascii.eqb c " ") eqn:Heq; [|done].
      apply Ascii.eqb_eq in Heq. by subst c. }
    assert (Hcmdne : String.eqb cmd "api-cli" = false) by (by apply eqb_false_iff).
    unfold PyStr.startswith, line.
    destruct (map render args) as [|r rs].
    - change (PyStr.join " " [cmd]) with cmd.
      rewrite <- (str_app_nil_r cmd) at 1.
      change "api-cli " with ("api-cli" ++ " ").
      rewrite (prefix_word "api-cli" cmd "" eq_refl Hw' ltac:(by left)).
      by rewrite Hcmdne.
    - rewrite join_cons_cons.
      change "api-cli " with ("api-cli" ++ " ") at 1.
      rewrite (prefix_word "api-cli" cmd (" " ++ PyStr.join " " (r :: rs))
                 eq_refl Hw' ltac:(right; by eexists)).
      by rewrite Hcmdne. }
  rewrite Hwords. unfold line.
  pose proof (split_lexes ((cmd, cmd) :: map (λ arg, (render arg, arg.2)) args))
    as Hs.
  simpl in Hs. rewrite !map_map in Hs. simpl in Hs. apply Hs.
  apply Forall_cons. split; [by apply lexes_plain|].
  apply Forall_forall. intros item Hin.
  apply list_elem_of_In, in_map_iff in Hin as (arg & <- & Hin).
  simpl. apply lexes_render.
  rewrite forallb_forall in Hargs. by apply Hargs.
Qed.

Section quoted_arguments.
Context `{PyFloat}.

(** X15. A command name followed by arguments, each written as it is
    when it needs no quoting or between double quotes when it holds
    neither a double quote nor a backslash, and joined by single spaces:
    the parser reads every argument back as one word with its text
    unchanged, white space included, and the arguments built from the
    parse are the path of the binary, the command name, the texts of
    the arguments in order and the [--output] option.  The one word that
    can be lost is an empty first argument after a checkpoint-scoped
    command. *)
Theorem quoted_arguments_kept self fmt cmd args :
  plain_word cmd = true → cmd ≠ "api-cli" →
  forallb renderable args = true →
  ∃ subcmd checkpoint_id rest,
    parse_command (PyStr.join " " (cmd :: map render args))
    = Ret (cmd, subcmd, checkpoint_id, rest)
    ∧ (cmd ∉ CHECKPOINT_COMMANDS →
       subcmd = None ∧ checkpoint_id = None ∧ rest = map snd args)
    ∧ build_command_args self cmd subcmd checkpoint_id rest fmt
      = (cli_path self :: cmd
         :: (if bool_decide (cmd ∈ CHECKPOINT_COMMANDS)
                && bool_decide (head (map snd args) = Some "")
             then tail (map snd args) else map snd args)
         ++ output_flags fmt)%list.
Proof.
  intros Hcmd Hname Hargs.
  destruct (command_line_words cmd args Hcmd Hname Hargs) as [Hne Hs].
  apply (parse_build self fmt _ cmd (map snd args) Hne Hs).
Qed.

End quoted_arguments.

Section environment_facts.
Context `{PyFloat}.

Lemma set_if_truthy_lookup key value env k :
  set_if_truthy key value env !! k
  = if bool_decide (k = key) && PyStr.truthy value then value else env !! k.
Proof.
  unfold set_if_truthy. destruct value as [v|]; simpl.
  - destruct (negb (String.eqb v "")); simpl.
    + destruct (decide (k = key)) as [->|Hne].
      * rewrite bool_decide_true by done. by rewrite lookup_insert_eq.
      * rewrite bool_decide_false by done. by rewrite lookup_insert_ne.
    + by rewrite andb_false_r.
  - by rewrite andb_false_r.
Qed.

(** What [settings.get_cli_env] adds for [key]. *)
Definition settings_value (s : Settings) (key : string) : option string :=
  if bool_decide (key = "VIRTUOSO_CONFIG_PATH") && PyStr.truthy (CLI_CONFIG_PATH s)
  then CLI_CONFIG_PATH s
  else if bool_decide (key = "VIRTUOSO_ORG_ID") && PyStr.truthy (VIRTUOSO_ORG_ID s)
  then VIRTUOSO_ORG_ID s
  else if bool_decide (key = "VIRTUOSO_API_KEY") && PyStr.truthy (VIRTUOSO_API_KEY s)
  then VIRTUOSO_API_KEY s
  else None.

Lemma get_cli_env_lookup w k :
  get_cli_env w !! k
  = match settings_value (settings w) k with
    | Some v => Some v
    | None => os_environ w !! k
    end.
Proof.
  unfold get_cli_env, settings_value. rewrite !set_if_truthy_lookup.
  destruct (settings w) as [api org cfg]. simpl.
  destruct (bool_decide (k = "VIRTUOSO_CONFIG_PATH") && PyStr.truthy cfg) eqn:H1.
  { apply andb_true_iff in H1 as [_ H1]. by destruct cfg. }
  destruct (bool_decide (k = "VIRTUOSO_ORG_ID") && PyStr.truthy org) eqn:H2.
  { apply andb_true_iff in H2 as [_ H2]. by destruct org. }
  destruct (bool_decide (k = "VIRTUOSO_API_KEY") && PyStr.truthy api) eqn:H3.
  { apply andb_true_iff in H3 as [_ H3]. by destruct api. }
  done.
Qed.

(** X4. The value of a variable in the environment handed to the
    subprocess: the session id of the context for [VIRTUOSO_SESSION_ID]
    when the context has one; otherwise the entry of the context's
    [environment]; otherwise what the settings supply for
    [VIRTUOSO_API_KEY], [VIRTUOSO_ORG_ID] and [VIRTUOSO_CONFIG_PATH];
    otherwise the variable of the process environment. *)
Theorem subprocess_env_precedence w context key :
  subprocess_env w context !! key
  = if bool_decide (key = "VIRTUOSO_SESSION_ID")
       && PyStr.truthy (session_id context)
    then session_id context
    else match environment context !! key with
         | Some v => Some v
         | None =>
             match settings_value (settings w) key with
             | Some v => Some v
             | None => os_environ w !! key
             end
         end.
Proof.
  unfold subprocess_env. rewrite set_if_truthy_lookup.
  destruct (_ && _); [done|].
  destruct (environment context !! key) as [v|] eqn:Hc.
  { by rewrite (lookup_union_Some_l _ _ _ _ Hc). }
  rewrite (lookup_union_r _ _ _ Hc).
  pose proof (get_cli_env_lookup w key) as Hg.
  destruct (get_cli_env w !! key) as [v|] eqn:Hl.
  - rewrite (lookup_union_Some_l _ _ _ _ Hl). done.
  - rewrite (lookup_union_r _ _ _ Hl).
    destruct (settings_value (settings w) key); done.
Qed.

End environment_facts.

Section execute_facts.
Context `{PyFloat}.
Variables json_loads yaml_safe_load : string → res pyval.



End execute_facts.

Section construction_facts.
Context `{PyFloat}.

(** The path an executor is built for. *)
Definition chosen_path (CLI_PATH : string) (cli_path : option string) : string :=
  match cli_path with
  | Some p => if String.eqb p "" then CLI_PATH else p
  | None => CLI_PATH
  end.



End construction_facts.

Section commands_cache_facts.
Context `{PyFloat}.
Variables json_loads yaml_safe_load : string → res pyval.

Lemma get_available_commands_hit self w cache st :
  pyval_truthy cache = true →
  get_available_commands json_loads yaml_safe_load self w false cache st
  = (st, Ret (cache, cache)).
Proof.
  intros Hc. unfold get_available_commands. by rewrite Hc.
Qed.

Lemma get_available_commands_miss self w force_refresh cache st :
  pyval_truthy cache && negb force_refresh = false →
  get_available_commands json_loads yaml_safe_load self w force_refresh cache st
  = match execute json_loads yaml_safe_load self w "list-commands" None JSON st with
    | (st', Ret result) =>
        (st', Ret (if success result && pyval_truthy (parsed_output result)
                   then (parsed_output result, parsed_output result)
                   else (cache, PDict [])))
    | (st', Raise e) => (st', Raise e)
    end.
Proof.
  intros Hc. unfold get_available_commands. rewrite Hc.
  unfold mbind, M_bind.
  destruct (execute _ _ _ _ _ _ _ _) as [st' [result|e]]; [|done].
  by destruct (success result && pyval_truthy (parsed_output result)).
Qed.

(** X9. A call of [get_available_commands] that returns either returns
    a true value, which is then the cache, and every later call without
    [force_refresh] returns that value again without running anything;
    or it returns the empty dictionary and leaves the cache as it was,
    which happens only when the list had to be fetched.  A call that
    raises raises the timeout error of [execute], after the process was
    killed. *)
Theorem commands_cache_stable self w force_refresh cache st :
  (∀ st' cache' v,
     get_available_commands json_loads yaml_safe_load self w force_refresh cache st
     = (st', Ret (cache', v)) →
     (pyval_truthy v = true ∧ cache' = v
      ∧ ∀ self' w' st2,
          get_available_commands json_loads yaml_safe_load self' w' false cache' st2
          = (st2, Ret (v, v)))
     ∨ (v = PDict [] ∧ cache' = cache
        ∧ pyval_truthy cache && negb force_refresh = false))
  ∧ (∀ st' e,
       get_available_commands json_loads yaml_safe_load self w force_refresh cache st
       = (st', Raise e) →
       exc_type e = CommandTimeoutError ∧ EvKill ∈ trace st').
Proof.
  destruct (pyval_truthy cache && negb force_refresh) eqn:Hc.
  - apply andb_true_iff in Hc as [Hc Hf]. apply negb_true_iff in Hf. subst.
    rewrite (get_available_commands_hit _ _ _ _ Hc). split; [|done].
    intros st' cache' v [= <- <- <-]. left. split; [done|]. split; [done|].
    intros self' w' st2. by apply get_available_commands_hit.
  - rewrite (get_available_commands_miss _ _ _ _ _ Hc).
    destruct (execute _ _ _ _ _ _ _ _) as [st1 [result|e]] eqn:He.
    + split; [|done]. intros st' cache' v.
      destruct (success result && pyval_truthy (parsed_output result)) eqn:Hs.
      * intros [= <- <- <-]. apply andb_true_iff in Hs as [_ Hs]. left.
        split; [done|]. split; [done|].
        intros self' w' st2. by apply get_available_commands_hit.
      * intros [= <- <- <-]. by right.
    + split; [done|]. intros st' e' [= <- <-].
      apply execute_raise in He as [-> Hk]. done.
Qed.

Lemma list_commands_parse :
  parse_command "list-commands" = Ret ("list-commands", None, None, []).
Proof. vm_compute. reflexivity. Qed.

Lemma list_commands_valid context :
  validate_command "list-commands" None None context = Ret ().
Proof. unfold validate_command. by rewrite bool_decide_false. Qed.


End commands_cache_facts.

Section streaming_facts.
Context `{PyFloat}.
Variable decode : string → res string.
Variables json_loads yaml_safe_load : string → res pyval.

Lemma validate_command_session cmd subcmd checkpoint_id c1 c2 :
  session_id c1 = session_id c2 →
  validate_command cmd subcmd checkpoint_id (Some c1)
  = validate_command cmd subcmd checkpoint_id (Some c2).
Proof. intros Hs. unfold validate_command. by rewrite Hs. Qed.

Lemma stream_context_agrees context :
  session_id (default (default_context "stream") context)
  = session_id (context_or_default context)
  ∧ (∀ w, subprocess_env w (default (default_context "stream") context)
          = subprocess_env w (context_or_default context))
  ∧ working_dir (default (default_context "stream") context)
    = working_dir (context_or_default context).
Proof. by destruct context. Qed.

(** X11. [execute_stream] and [execute] treat a command alike up to the
    start of the process, and differently after a rejection.  Either the
    parser or the validator rejects the command: then the stream raises
    the exception without yielding anything or creating a process, while
    [execute] touches no process and returns a result with code -1 and
    the exception's message.  Or both go on to a process, and the stream
    creates it with the arguments, the environment and the working
    directory with which [execute] starts its own. *)
Theorem execute_stream_agrees self w create_subprocess_exec cmdline context fmt st :
  let run := execute_stream decode self w create_subprocess_exec cmdline
               context fmt in
  let sync := execute json_loads yaml_safe_load self w cmdline context fmt st in
  (∃ e,
     yielded run = [] ∧ calls run = [] ∧ finish run = Raise e
     ∧ (exc_type e = CommandValidationError ∨ exc_type e = StdError "ValueError")
     ∧ trace sync.1 = trace st
     ∧ ∃ r, sync.2 = Ret r ∧ exit_code r = -1 ∧ error r = Some (exc_str e))
  ∨ (∃ argv env cwd more evs,
       calls run = EvCreate argv env cwd :: more
       ∧ trace sync.1 = (trace st ++ EvPopen argv env cwd :: evs)%list).
Proof.
  intros run sync. unfold run, sync.
  destruct (stream_context_agrees context) as (Hsess & Henv & Hcwd).
  unfold execute_stream.
  destruct (parse_command cmdline) as [[[[cmd subcmd] checkpoint_id] args]|e] eqn:Hp.
  - rewrite (validate_command_session _ _ _ _ _ Hsess), Henv, Hcwd.
    destruct (validate_command cmd subcmd checkpoint_id
                (Some (context_or_default context))) as [[]|e] eqn:Hv.
    + right.
      destruct (Popen w (build_command_args self cmd subcmd checkpoint_id args fmt)
                  (subprocess_env w (context_or_default context))
                  (working_dir (context_or_default context)))
        as [name msg|communicate] eqn:Hs.
      * rewrite (execute_spawn_fails json_loads yaml_safe_load self w cmdline
                   context fmt cmd subcmd checkpoint_id args Hp Hv st name msg Hs).
        simpl. destruct (create_subprocess_exec _ _ _) as [n m|process]; simpl.
        -- eexists _, _, _, _, _. done.
        -- destruct (finish (read_lines decode (stdout_lines process)));
             eexists _, _, _, _, _; done.
      * assert (Htr : ∃ evs,
                  trace (execute json_loads yaml_safe_load self w cmdline context
                           fmt st).1
                  = (trace st ++
                     EvPopen (build_command_args self cmd subcmd checkpoint_id
                                args fmt)
                       (subprocess_env w (context_or_default context))
                       (working_dir (context_or_default context)) :: evs)%list).
        { destruct (communicate (effective_timeout self (context_or_default context)))
            as [out err code|out err|name msg|name msg|name msg] eqn:Hc.
          - destruct (execute_exits json_loads yaml_safe_load self w cmdline
                        context fmt cmd subcmd checkpoint_id args Hp Hv st
                        communicate out err code Hs Hc) as (parsed & _ & ->).
            by eexists.
          - rewrite (execute_hangs json_loads yaml_safe_load self w cmdline
                       context fmt cmd subcmd checkpoint_id args Hp Hv st
                       communicate out err Hs Hc).
            by eexists.
          - rewrite (execute_communicate_fails json_loads yaml_safe_load self w
                       cmdline context fmt cmd subcmd checkpoint_id args Hp Hv st
                       communicate name msg Hs Hc).
            by eexists.
          - rewrite (execute_kill_fails json_loads yaml_safe_load self w
                       cmdline context fmt cmd subcmd checkpoint_id args Hp Hv st
                       communicate name msg Hs Hc).
            by eexists.
          - rewrite (execute_drain_fails json_loads yaml_safe_load self w
                       cmdline context fmt cmd subcmd checkpoint_id args Hp Hv st
                       communicate name msg Hs Hc).
            by eexists. }
        destruct Htr as [evs Htr]. rewrite Htr.
        destruct (create_subprocess_exec _ _ _) as [n m|process]; simpl.
        -- eexists _, _, _, _, _. done.
        -- destruct (finish (read_lines decode (stdout_lines process)));
             eexists _, _, _, _, _; done.
    + left. exists e. simpl.
      rewrite (execute_rejected json_loads yaml_safe_load self w cmdline context
                 fmt st e) by (right; eauto 10).
      simpl. repeat split; try done.
      * left. by apply validate_command_raise in Hv.
      * eexists. done.
  - left. exists e. simpl.
    rewrite (execute_rejected json_loads yaml_safe_load self w cmdline context
               fmt st e) by (by left).
    simpl. repeat split; try done.
    + by apply parse_command_raise in Hp.
    + eexists. done.
Qed.

Lemma read_lines_all lines : ∀ texts,
  Forall2 (λ line text, line ≠ "" ∧ decode line = Ret text) lines texts →
  read_lines decode lines
  = mk_stream_run (map PyStr.rstrip texts)
      (replicate (S (length lines)) EvReadline) (Ret ()).
Proof.
  induction lines as [|line lines IH]; intros texts Hl.
  - by apply Forall2_nil_inv_l in Hl as ->.
  - apply Forall2_cons_inv_l in Hl as (text & texts' & [Hne Hd] & Hl & ->).
    simpl. apply eqb_false_iff in Hne. rewrite Hne, Hd.
    rewrite (IH _ Hl). done.
Qed.


End streaming_facts.

Section temporary_files_facts.
Context `{PyFloat}.
Variable NamedTemporaryFile : gmap string string → string.
Variable yaml_dump : pyval → string * res unit.
Variable unlink_error : string → exn.

(** X13. When [yaml.dump] succeeds, the body of the [with] statement
    runs with the file in place, holding the dumped text, and after the
    statement the file is gone, whether the body returned or raised;
    every other file is as the body left it, and a body that leaves the
    files alone leaves them as they were before the statement.  The
    outcome of the body is the outcome of the statement, unless the body
    removed the file itself: then [os.unlink] raises in its place.  When
    [yaml.dump] raises, the body does not run and the file stays. *)
Theorem temporary_config_cleans {A : Type} config_data
    (body : string → gmap string string → gmap string string * res A) fs :
  let p := NamedTemporaryFile fs in
  let text := (yaml_dump config_data).1 in
  let run := body p (<[p := text]> fs) in
  let out := temporary_config NamedTemporaryFile yaml_dump unlink_error
               config_data body fs in
  ((yaml_dump config_data).2 = Ret () →
   out.1 !! p = None
   ∧ (∀ q, q ≠ p → out.1 !! q = run.1 !! q)
   ∧ (is_Some (run.1 !! p) → out.2 = run.2)
   ∧ (run.1 !! p = None → out.2 = Raise (unlink_error p))
   ∧ (fs !! p = None → run.1 = <[p := text]> fs → out.1 = fs))
  ∧ (∀ e, (yaml_dump config_data).2 = Raise e →
          out = (<[p := text]> fs, Raise e)).
Proof.
  intros p text run out. unfold out, temporary_config. fold p text. fold run.
  split.
  - intros Hd. rewrite Hd.
    destruct (run.1 !! p) as [content|] eqn:Hp; cbn [fst snd].
    + split; [apply lookup_delete_eq|].
      split; [intros q Hq; by apply lookup_delete_ne|].
      split; [done|]. split; [done|].
      intros Hfresh Hrun. rewrite Hrun.
      etrans; [apply delete_insert_eq|]. by apply delete_id.
    + split; [done|]. split; [done|]. split; [by intros [? ?]|].
      split; [done|]. intros Hfresh Hrun. rewrite Hrun in Hp.
      by rewrite lookup_insert_eq in Hp.
  - intros e Hd. by rewrite Hd.
Qed.

End temporary_files_facts.

(** * Concrete runs *)

(** A [float] to run the model with: the floats of integral value, each
    given by that integer.  On them printing, equality and subtraction are
    exact; [float_of_str] reads the digits before the decimal point. *)
Definition before_point (s : string) : string :=
  match index 0 "." s with
  | Some n => substring 0 n s
  | None => s
  end.

Global Instance integral_float : PyFloat := {|
  float := Z;
  float_of_str s :=
    match NilZero.int_of_string (before_point s) with
    | Some d => Z.of_int d
    | None => 0
    end;
  float_repr x := PyStr.of_int x ++ ".0";
  float_eqb := Z.eqb;
  float_sub := Z.sub
|}.

(** The text of an integer holds no decimal point. *)
Definition point_free (s : string) : bool :=
  forallb (λ c, negb (Ascii.eqb c ".")) (list_ascii_of_string s).

Lemma point_free_uint d : point_free (NilEmpty.string_of_uint d) = true.
Proof. induction d; done. Qed.

Lemma point_free_of_int n : point_free (PyStr.of_int n) = true.
Proof.
  unfold PyStr.of_int. destruct n as [|p|p]; simpl; [done|..];
    rewrite string_of_to_uint; apply point_free_uint.
Qed.

Lemma before_point_app s :
  point_free s = true → before_point (s ++ ".0") = s.
Proof.
  unfold before_point. intros Hs.
  assert (Hi : index 0 "." (s ++ ".0") = Some (String.length s)
               ∧ substring 0 (String.length s) (s ++ ".0") = s).
  { induction s as [|c s IH]; [done|].
    unfold point_free in Hs. simpl in Hs.
    apply andb_true_iff in Hs as [Hc Hs]. apply negb_true_iff in Hc.
    destruct (IH Hs) as [Hindex Hsub].
    rewrite str_cons.
    change (String.length (String c s)) with (S (String.length s)).
    change (index 0 "." (String c (s ++ ".0")))
      with (if String.prefix "." (String c (s ++ ".0")) then Some 0%nat
            else match index 0 "." (s ++ ".0") with
                 | Some n => Some (S n)
                 | None => None
                 end).
    change (String.prefix "." (String c (s ++ ".0")))
      with (if ascii_dec "." c then String.prefix "" (s ++ ".0") else false).
    change (substring 0 (S (String.length s)) (String c (s ++ ".0")))
      with (String c (substring 0 (String.length s) (s ++ ".0"))).
    rewrite Hindex, Hsub.
    destruct (ascii_dec "." c) as [<-|_]; [by rewrite Ascii.eqb_refl in Hc|].
    done. }
  destruct Hi as [-> ->]. done.
Qed.

Global Instance integral_float_laws : PyFloatLaws.
Proof.
  split.
  - intros x _ _ _. simpl. unfold JSON.float_literal.
    by rewrite (match_integer_of_int x ".0").
  - intros x _ _ _. simpl.
    rewrite before_point_app by apply point_free_of_int.
    apply parse_int_of_int.
  - intros x Hx. by apply Z.eqb_eq in Hx.
  - intros x Hx. by apply Z.eqb_eq in Hx.
Qed.

(** An interpreter to run the model with: the default limit of 4300
    digits, room for 990 containers one inside the other where
    [json.dumps] is called, and for 980 where the output parser calls
    [json.loads]. *)
Global Instance sample_interpreter : Interpreter := {|
  encoder_depth := 990;
  decoder_depth := 980;
  int_max_str_digits := 4300
|}.

(** An executor with the default timeout of 300 seconds and four workers. *)
Definition sample_executor : CLIExecutor := mk_CLIExecutor "/bin/api-cli" 300 4.

(** A system whose clock advances by one second per reading and in which
    every spawned process behaves as [behaviour] says. *)
Definition sample_world (behaviour : spawn_outcome) : world :=
  mk_world ∅ (mk_Settings None None None) (λ n, Z.of_nat n) (λ _ _ _, behaviour).

(** A process that prints [out] and exits with [code]. *)
Definition exits_with (out err : string) (code : Z) : spawn_outcome :=
  Spawns (λ _, Exits out err code).

(** A process that never finishes. *)
Definition never_returns : spawn_outcome := Spawns (λ _, Hangs "" "").

Example dumps_ex1 :
  JSON.dumps (PDict [(KStr (ustr_of_string "id"), PInt 1);
                     (KInt 2, PList [PBool true; PNone; PStr [233%N; 10%N; 128512%N]])])
  = Ret ("{" ++ dq ++ "id" ++ dq ++ ": 1, " ++ dq ++ "2" ++ dq
         ++ ": [true, null, " ++ dq ++ "\u00e9\n\ud83d\ude00" ++ dq ++ "]}").
Proof. vm_compute. reflexivity. Qed.

(** An integer of 4301 digits is not encodable, and its text is not
    decodable. *)
Example dumps_long_int :
  JSON.dumps (PDict [(KStr (ustr_of_string "n"), PInt (10 ^ 4300))])
  = Raise (ValueError
             ("Exceeds the limit (4300 digits) for integer string conversion"
              ++ "; use sys.set_int_max_str_digits() to increase the limit"))
  ∧ JSON.loads (PyStr.of_int (10 ^ 4300))
    = Raise (ValueError
               ("Exceeds the limit (4300 digits) for integer string conversion"
                ++ ": value has 4301 digits"
                ++ "; use sys.set_int_max_str_digits() to increase the limit")).
Proof. split; vm_compute; reflexivity. Qed.

(** A list inside [n] lists. *)
Definition nested (n : nat) : pyval := Nat.iter n (λ o, PList [o]) (PList []).

Example dumps_float :
  JSON.dumps (PDict [(KStr (ustr_of_string "t"), PFloat 5)])
  = Ret ("{" ++ dq ++ "t" ++ dq ++ ": 5.0}")
  ∧ JSON.loads ("{" ++ dq ++ "t" ++ dq ++ ": 5.0}")
    = Ret (PDict [(KStr (ustr_of_string "t"), PFloat 5)]).
Proof. split; vm_compute; reflexivity. Qed.

Example loads_deep :
  JSON.plain (nested 980) = true
  ∧ (∃ text, JSON.dumps (nested 980) = Ret text
             ∧ JSON.loads text
               = Raise (JSON.RecursionError
                          " while decoding a JSON array from a unicode string"))
  ∧ JSON.dumps (nested 990)
    = Raise (JSON.RecursionError " while encoding a JSON object").
Proof.
  split; [vm_compute; reflexivity|]. split.
  - eexists. split; vm_compute; reflexivity.
  - vm_compute. reflexivity.
Qed.

(** The YAML decoder is not modelled; the runs below use one that rejects
    every document. *)
Definition yaml_rejects (s : string) : res pyval :=
  Raise (mk_exn (StdError "YAMLError") "").


(** Two code points that form a surrogate pair come back as one. *)
Example parse_output_split_pair :
  JSON.dumps (PDict [(KStr (ustr_of_string "k"), PStr [55357%N; 56832%N])])
  = Ret ("{" ++ dq ++ "k" ++ dq ++ ": " ++ dq ++ "\ud83d\ude00" ++ dq ++ "}")
  ∧ _parse_output JSON.loads yaml_rejects
      ("{" ++ dq ++ "k" ++ dq ++ ": " ++ dq ++ "\ud83d\ude00" ++ dq ++ "}") JSON
    = Ret (PDict [(KStr (ustr_of_string "k"), PStr [128512%N])]).
Proof. split; vm_compute; reflexivity. Qed.

(** A dictionary nested deeper than the scanner may go where the output
    parser calls it is encodable, and comes back as its own text. *)
Example parse_output_deep :
  ∃ text,
    JSON.dumps (PDict [(KStr (ustr_of_string "k"), nested 979)]) = Ret text
    ∧ _parse_output JSON.loads yaml_rejects text JSON
      = Ret (PStr (ustr_of_string text)).
Proof. eexists. split; vm_compute; reflexivity. Qed.


(** The empty command string: [execute] returns a failed result and
    raises nothing, against C3 as stated. *)
Lemma execute_empty_command_returns :
  (execute JSON.loads yaml_rejects sample_executor
     (sample_world (exits_with "" "" 0)) "" None JSON init).2
  = Ret (mk_CommandResult false (-1) "" "Empty command" 1 [""] JSON PNone
           (Some "Empty command"))
  ∧ ¬ raises (execute JSON.loads yaml_rejects sample_executor
                (sample_world (exits_with "" "" 0)) "" None JSON init).2
        CommandValidationError.
Proof.
assert (Hrun : (execute JSON.loads yaml_rejects sample_executor
                  (sample_world (exits_with "" "" 0)) "" None JSON init).2
               = Ret (mk_CommandResult false (-1) "" "Empty command" 1 [""] JSON
                        PNone (Some "Empty command"))).
{ vm_compute. reflexivity. }
split; [exact Hrun|]. rewrite Hrun. intros [msg Hmsg]. discriminate.
Qed.

Lemma execute_rejected_returns_witness :
  ∃ st' r,
    execute JSON.loads yaml_rejects sample_executor
      (sample_world never_returns) ("step-interact click " ++ dq ++ "button" ++ dq)
      None JSON init = (st', Ret r)
    ∧ trace st' = trace init
    ∧ success r = false ∧ exit_code r = -1
    ∧ stdout r = ""
    ∧ stderr r = "Command 'step-interact' requires checkpoint ID. "
                 ++ "Provide it explicitly or set VIRTUOSO_SESSION_ID"
    ∧ error r = Some ("Command 'step-interact' requires checkpoint ID. "
                      ++ "Provide it explicitly or set VIRTUOSO_SESSION_ID")
    ∧ command r = ["step-interact click " ++ dq ++ "button" ++ dq].
Proof.
apply (execute_rejected_returns JSON.loads yaml_rejects sample_executor
         (sample_world never_returns)
         ("step-interact click " ++ dq ++ "button" ++ dq) None JSON init
         (mk_exn CommandValidationError
            ("Command 'step-interact' requires checkpoint ID. "
             ++ "Provide it explicitly or set VIRTUOSO_SESSION_ID"))).
right. exists "step-interact", (Some "click"), None, ["button"].
split; vm_compute; reflexivity.
Defined.

(** A context that sets a timeout of five seconds, and a process that is
    still running after five seconds but would have ended within the
    default timeout. *)
Definition five_seconds : CommandContext :=
  mk_CommandContext "request-1" None (Some 5) ∅ None false.

Definition slow_process : spawn_outcome :=
  Spawns (λ t, if t <? 300 then Hangs "" "" else Exits "" "" 0).


(** A process that is still running when the wait expires and whose
    remaining output is not valid text: the collection after the kill
    raises, and [execute] returns a result instead of raising the
    timeout error, against C5 as stated. *)
Definition hangs_with_bad_output : spawn_outcome :=
  Spawns (λ _, HangsDrainFails "UnicodeDecodeError"
                 "'utf-8' codec can't decode byte 0xff in position 0: invalid start byte").

Lemma execute_timeout_returns :
  (execute JSON.loads yaml_rejects sample_executor
     (sample_world hangs_with_bad_output) "list-projects" None JSON init)
  = (mk_sys [EvPopen ["/bin/api-cli"; "list-projects"; "--output"; "json"] ∅ None;
             EvCommunicate (Some 300); EvKill; EvCommunicate None] 2,
     Ret (mk_CommandResult false (-1) ""
            "'utf-8' codec can't decode byte 0xff in position 0: invalid start byte"
            1 ["list-projects"] JSON PNone
            (Some "'utf-8' codec can't decode byte 0xff in position 0: invalid start byte")))
  ∧ ¬ raises (execute JSON.loads yaml_rejects sample_executor
                (sample_world hangs_with_bad_output) "list-projects" None JSON
                init).2 CommandTimeoutError.
Proof.
assert (Hrun : execute JSON.loads yaml_rejects sample_executor
                 (sample_world hangs_with_bad_output) "list-projects" None JSON init
               = (mk_sys [EvPopen ["/bin/api-cli"; "list-projects"; "--output"; "json"]
                            ∅ None;
                          EvCommunicate (Some 300); EvKill; EvCommunicate None] 2,
                  Ret (mk_CommandResult false (-1) ""
                         "'utf-8' codec can't decode byte 0xff in position 0: invalid start byte"
                         1 ["list-projects"] JSON PNone
                         (Some "'utf-8' codec can't decode byte 0xff in position 0: invalid start byte")))).
{ vm_compute. reflexivity. }
split; [exact Hrun|]. rewrite Hrun. intros [msg Hmsg]. discriminate.
Qed.

(** ** Runs for the further properties *)

Lemma build_command_args_words_witness :
  ∃ subcmd checkpoint_id args,
    parse_command "api-cli step-wait time 500"
    = Ret ("step-wait", subcmd, checkpoint_id, args)
    ∧ build_command_args sample_executor "step-wait" subcmd checkpoint_id args YAML
      = ["/bin/api-cli"; "step-wait"; "time"; "500"; "--output"; "yaml"].
Proof.
apply (build_command_args_words sample_executor YAML
         "api-cli step-wait time 500" "step-wait" ["time"; "500"]).
- vm_compute. discriminate.
- vm_compute. reflexivity.
Defined.

Lemma parse_command_join_witness :
  ∃ cmd subcmd checkpoint_id args,
    parse_command (PyStr.join " " ["step-interact"; "click"; "button.primary"])
    = Ret (cmd, subcmd, checkpoint_id, args)
    ∧ (cmd :: option_list subcmd ++ option_list checkpoint_id ++ args)%list
      = ["step-interact"; "click"; "button.primary"]
    ∧ build_command_args sample_executor cmd subcmd checkpoint_id args JSON
      = ["/bin/api-cli"; "step-interact"; "click"; "button.primary";
         "--output"; "json"].
Proof.
apply (parse_command_join sample_executor JSON
         ["step-interact"; "click"; "button.primary"]).
- vm_compute. reflexivity.
- discriminate.
Defined.

(** A process that prints a JSON object and a warning, and exits with
    code 0. *)
Definition prints_projects : spawn_outcome :=
  exits_with ("{" ++ dq ++ "projects" ++ dq ++ ": [1, 2]}") "deprecated flag" 0.


(** A process that prints the commands it knows and exits with code 0. *)
Definition prints_commands : spawn_outcome :=
  exits_with ("{" ++ dq ++ "commands" ++ dq ++ ": [" ++ dq ++ "list" ++ dq
              ++ ", " ++ dq ++ "create" ++ dq ++ "]}") "" 0.


(** A line feed, as a one-character string. *)
Definition lf : string := String "010" "".

(** A created process that prints two lines and returns 0, and a decoder
    for output that is plain ASCII. *)
Definition two_lines : create_outcome :=
  Creates (mk_stream_process ["Line 1" ++ lf; "Line 2" ++ lf] 0 "").

Definition decode_ascii (bytes : string) : res string := Ret bytes.


Lemma parsed_command_validation_witness :
  validate_command "step-assert" (Some "exists") (Some "42") None = Ret ().
Proof.
destruct (parsed_command_validation "step-assert exists 42 h1" "step-assert"
            (Some "exists") (Some "42") ["h1"] None) as (_ & _ & Hpass).
- vm_compute. reflexivity.
- apply Hpass. discriminate.
Defined.

Lemma quoted_arguments_kept_witness :
  ∃ subcmd checkpoint_id rest,
    parse_command
      ("step-assert equals 12345 " ++ dq ++ "h1.title" ++ dq ++ " "
       ++ dq ++ "Welcome to My Site" ++ dq)
    = Ret ("step-assert", subcmd, checkpoint_id, rest)
    ∧ build_command_args sample_executor "step-assert" subcmd checkpoint_id
        rest JSON
      = ["/bin/api-cli"; "step-assert"; "equals"; "12345"; "h1.title";
         "Welcome to My Site"; "--output"; "json"].
Proof.
destruct (quoted_arguments_kept sample_executor JSON "step-assert"
            [(false, "equals"); (false, "12345"); (true, "h1.title");
             (true, "Welcome to My Site")])
  as (subcmd & checkpoint_id & rest & Hparse & _ & Hbuild).
- vm_compute. reflexivity.
- discriminate.
- vm_compute. reflexivity.
- exists subcmd, checkpoint_id, rest. split; [exact Hparse | exact Hbuild].
Defined.
